(** * The asynchronous output pipeline of [img_common/autoencoder.py]

    A shallow embedding of the output pipeline of class [AutoEnc]: the
    resolution of the prediction folder, the output coordinator
    ([_handle_output]), the job of the second pool
    ([_save_imgs_from_patches]) with its polling wait on the shared
    size-proxy list, and the report builder ([_save_out_analysis]).

    The other parts of the class follow: the choice of the folder of a
    run in [__init__], the waits of [_save_metric_plot], the generators,
    the parameter groups of the optimizer, the clearing of terminal lines,
    and the state of the model over calls of [train_model] and
    [test_model].

    Python objects are modelled by the values the pipeline stores
    ([pyval]), exceptions by [exn], [pathlib.Path] by its list of parts,
    the shared manager lists by lists updated by index, and the loops that
    Python can run forever by a fuel argument whose exhaustion is reported
    as such. *)

From Stdlib Require Import ZArith String Ascii PrimFloat.
From stdpp Require Import base list sorting pretty gmap.

Local Open Scope string_scope.
Local Open Scope list_scope.
#[local] Set Warnings "-register-all".

(** ** Python values and exceptions *)

(** The values held by the cells of the shared lists: [None], a float, or a
    list of values. *)
Inductive pyval : Type :=
| PyNone
| PyFloat (x : float)
| PyList (l : list pyval).

(** The subclasses of [Exception] that the modelled code can meet. *)
Inductive exn : Type :=
| TypeError
| IndexError
| ValueError
| OtherError (what : string).

(** [bool(v)], as the [not] operator computes it: [None] is false, a float
    is false when it compares equal to zero, a list is false when empty. *)
Definition py_truth (v : pyval) : bool :=
  match v with
  | PyNone => false
  | PyFloat x => negb (PrimFloat.is_zero x)
  | PyList l => negb (bool_decide (length l = 0))
  end.

Definition py_not (v : pyval) : bool := negb (py_truth v).

(** The outcome of running a piece of Python code. [Returned] is a
    [return] statement met inside a block, which leaves the enclosing
    function; [Spinning] is a loop that was still running when the fuel
    ran out. *)
Inductive outcome (A : Type) : Type :=
| Normal (a : A)
| Raised (e : exn)
| Returned
| Spinning.
Arguments Normal {A} a.
Arguments Raised {A} e.
Arguments Returned {A}.
Arguments Spinning {A}.

(** ** Lexicographic order, as Python compares strings and lists *)

Section Lex.
Context {A : Type} (cmp : A → A → comparison).

Fixpoint lex_compare (l1 l2 : list A) : comparison :=
  match l1, l2 with
  | [], [] => Eq
  | [], _ :: _ => Lt
  | _ :: _, [] => Gt
  | x :: l1', y :: l2' =>
      match cmp x y with
      | Eq => lex_compare l1' l2'
      | c => c
      end
  end.
End Lex.

Definition ascii_compare (a b : ascii) : comparison :=
  N.compare (N_of_ascii a) (N_of_ascii b).

Definition str_compare (s1 s2 : string) : comparison :=
  lex_compare ascii_compare (list_ascii_of_string s1) (list_ascii_of_string s2).

(** ** [pathlib.Path] *)

(** A path is the list of its parts; the anchor of an absolute path is
    not told apart from the other parts. *)
Abbreviation Path := (list string) (only parsing).

(** [p / name] for a [name] that is a single relative part. *)
Definition path_div (p : Path) (name : string) : Path := p ++ [name].

(** [Path.name]: the last part, or the empty string. *)
Definition path_name (p : Path) : string := List.last p "".

(** [str.rfind('.')] on the characters of a name: the index of the last
    dot. *)
Fixpoint rfind_dot_from (i : nat) (cs : list ascii) : option nat :=
  match cs with
  | [] => None
  | c :: cs' =>
      match rfind_dot_from (S i) cs' with
      | Some j => Some j
      | None => if Ascii.eqb c "."%char then Some i else None
      end
  end.

Definition rfind_dot (s : string) : option nat :=
  rfind_dot_from 0 (list_ascii_of_string s).

(** [Path.stem]: the name without its suffix; a leading or a trailing dot
    starts no suffix. *)
Definition path_stem (p : Path) : string :=
  let name := path_name p in
  match rfind_dot name with
  | Some i =>
      if bool_decide (0 < i ∧ i < String.length name - 1)
      then String.substring 0 i name
      else name
  | None => name
  end.

(** Paths compare by their parts, parts by their characters. The listing
    of the data set yields [Path] objects, as [img_path.stem] in
    [_save_metric_plot] requires. *)
Definition path_compare (p q : Path) : comparison :=
  lex_compare str_compare p q.

Definition path_le (p q : Path) : Prop := path_compare p q ≠ Gt.

(** [AutoEnc.get_out_pathname]. The folder argument is [None] when no
    prediction folder was resolved, and [Path(None)] raises. *)
Definition get_out_pathname
    (img_path : Path) (save_folder : option Path) (ext : string)
    : exn + Path :=
  match save_folder with
  | None => inl TypeError
  | Some save_folder =>
      let new_name := String.append (path_stem img_path) ext in
      let save_name := path_div save_folder new_name in
      inr save_name
  end.

(** ** The enumerations of [enums] used by the pipeline *)

Inductive ExecMode : Type := TRAIN | VALID | TEST.
Inductive OutputType : Type := NONE | RESIDUES | RECONSTRUCTION.

Global Instance ExecMode_eq_dec : EqDecision ExecMode.
Proof. solve_decision. Defined.
Global Instance OutputType_eq_dec : EqDecision OutputType.
Proof. solve_decision. Defined.

(** ** Report files *)

(** A row label of a report: an image path, or a string. *)
Inductive index_label : Type :=
| LabelPath (p : Path)
| LabelStr (s : string).

(** A written report: where it is, the header of its data columns, and its
    rows, each a label and the rendered cells. *)
Record csv_file : Type := {
  csv_path : Path;
  csv_columns : list string;
  csv_rows : list (index_label * list string);
}.

(** ** The collaborators of the pipeline

    Everything the pipeline calls but does not define: the enumerations of
    [enums] ([Metrics], [Codecs], [Folders], [OutputType]), the image
    routines of [ImgProc], and the behaviour of numpy and pandas that
    depends on their version or on floating-point arithmetic. *)
Class Collaborators : Type := {
  (** a decoded reference image, and the reconstructed patches carried by
      the hand-off queue *)
  image : Type;
  payload : Type;
  (** [Metrics], in iteration order, with [metric[0]] and [str(metric)] *)
  metric : Type;
  Metrics : list metric;
  metric_pos : metric → nat;
  metric_str : metric → string;
  (** [Codecs], in iteration order, with [str(codec)] and the position that
      [Codecs.NET] selects in an array *)
  codec : Type;
  Codecs : list codec;
  codec_str : codec → string;
  NET_pos : nat;
  (** [str(Folders.TEST)], [str(Folders.VALIDATION)],
      [str(OutputType.RESIDUES)] *)
  test_name : string;
  validation_name : string;
  residues_name : string;
  (** [ImgProc.load_image(path, ImgData.UBYTE, color)],
      [ImgProc.calc_metric(ref, patches, metric)] and
      [ImgProc.save_img(patches, path, color)], each of which may raise *)
  load_image : Path → string → exn + image;
  calc_metric : image → payload → metric → exn + pyval;
  save_img : payload → Path → string → option exn;
  (** whether [np.array] raises on a ragged nested sequence (numpy 1.24
      and later) or builds an array of objects (earlier versions) *)
  ragged_raises : bool;
  (** the mean of a float column as pandas computes it, and the C
      formatting of a float *)
  float_mean : list float → float;
  float_format : string → float → string;
  (** what [save_csv] does with a frame of objects, that is, one that holds
      a cell which is not a float: it raises or renders some rows *)
  save_csv_objects :
    list (Path * list pyval) → list string →
    exn + list (index_label * list string);
}.

(** ** [AutoEnc._create_out_folder] *)

(** The object bound to [pred_folder]: a [Path], or a [str] after the
    assignment of [str(OutputType.RESIDUES)]. *)
Inductive folder_obj : Type :=
| FolderPath (p : Path)
| FolderStr (s : string).

(** [pred_folder /= name]: [Path] implements the division, [str] does not. *)
Definition folder_idiv (f : folder_obj) (name : string) : exn + Path :=
  match f with
  | FolderPath p => inr (path_div p name)
  | FolderStr _ => inl TypeError
  end.

(** [Path.mkdir(parents=True, exist_ok=True)] on the list of existing
    directories: the path and all its ancestors exist afterwards. *)
Definition mkdir_parents (p : Path) (dirs : list Path) : list Path :=
  dirs ++ List.map (λ n, take n p) (seq 1 (length p)).

Section CreateOutFolder.
Context `{Collaborators}.

(** The result is the returned object ([None] or the folder), or the
    exception raised, and the directories existing afterwards. *)
Definition _create_out_folder
    (out_name : Path) (exec_mode : ExecMode) (out_type : OutputType)
    (dirs : list Path) : (exn + option Path) * list Path :=
  if decide (out_type = NONE) then (inr None, dirs)
  else
    let pred_folder := FolderPath out_name in
    let pred_folder :=
      if decide (exec_mode = TRAIN) then
        if decide (out_type = RESIDUES) then FolderStr residues_name
        else pred_folder
      else pred_folder in
    let divided :=
      if decide (exec_mode = TEST) then folder_idiv pred_folder test_name
      else folder_idiv pred_folder validation_name in
    match divided with
    | inl e => (inl e, dirs)
    | inr p => (inr (Some p), mkdir_parents p dirs)
    end.
End CreateOutFolder.

(** ** A monad for code with a store, a log and exceptions *)

Section Monad.
Context {X E : Type}.

(** A computation over a store [X] that appends to a log of events [E]. *)
Definition M (A : Type) : Type := X → list E → outcome A * X * list E.

Definition ret {A} (a : A) : M A := λ x tr, (Normal a, x, tr).

Definition bind {A B} (m : M A) (f : A → M B) : M B :=
  λ x tr,
    match m x tr with
    | (Normal a, x', tr') => f a x' tr'
    | (Raised e, x', tr') => (Raised e, x', tr')
    | (Returned, x', tr') => (Returned, x', tr')
    | (Spinning, x', tr') => (Spinning, x', tr')
    end.

Definition raise {A} (e : exn) : M A := λ x tr, (Raised e, x, tr).
Definition return_ {A} : M A := λ x tr, (Returned, x, tr).
Definition spin {A} : M A := λ x tr, (Spinning, x, tr).
Definition emit (e : E) : M unit := λ x tr, (Normal tt, x, tr ++ [e]).
Definition get_store : M X := λ x tr, (Normal x, x, tr).
Definition put_store (x : X) : M unit := λ _ tr, (Normal tt, x, tr).

Definition lift {A} (r : exn + A) : M A :=
  match r with inl e => raise e | inr a => ret a end.

(** [try: body except Exception: handler]. *)
Definition try_except (body : M unit) (handler : exn → M unit) : M unit :=
  λ x tr,
    match body x tr with
    | (Raised e, x', tr') => handler e x' tr'
    | r => r
    end.

(** The body of a function that returns no value: a [return] statement
    ends it normally. *)
Definition def_body (body : M unit) : M unit :=
  λ x tr,
    match body x tr with
    | (Returned, x', tr') => (Normal tt, x', tr')
    | r => r
    end.

(** [for a in l: body(a)]. *)
Fixpoint for_each {A} (l : list A) (body : A → M unit) : M unit :=
  match l with
  | [] => ret tt
  | a :: l' => bind (body a) (λ _, for_each l' body)
  end.
End Monad.

Notation "'do' x <- m ; k" := (bind m (λ x, k))
  (at level 10, x name, m at level 100, k at level 200, only parsing).
Notation "'run' m ; k" := (bind m (λ _, k))
  (at level 10, m at level 100, k at level 200, only parsing).

(** ** The job of the second pool: [AutoEnc._save_imgs_from_patches] *)

(** What a job does that can be observed from outside. [EvSetMetric i pos v]
    is the assignment [metrics_proxy[i][pos] = v]; [EvCheckBpp pos v] is one
    evaluation of [bpp_proxy[pos]] that found [v]; [EvSaveImg p ok] is one
    call of [ImgProc.save_img] for the file [p], [ok] telling whether it
    returned. *)
Inductive event : Type :=
| EvLoadImage (p : Path)
| EvSetMetric (i pos : nat) (v : pyval)
| EvCheckBpp (pos : nat) (v : pyval)
| EvSleep (secs : Z)
| EvTimeoutMsg (function : string) (msg : Path)
| EvSaveImg (p : Path) (ok : bool)
| EvPrintExc (e : exn).

(** The lists of one codec in the metric table: one shared list per
    metric, each with one cell per image. *)
Abbreviation metric_lists := (list (list pyval)) (only parsing).

(** [lists[i][pos] = v]; both subscripts raise [IndexError] out of
    range. *)
Definition set_cell (lists : metric_lists) (i pos : nat) (v : pyval)
    : exn + metric_lists :=
  match lists !! i with
  | None => inl IndexError
  | Some cells =>
      if decide (pos < length cells)
      then inr (<[i := <[pos := v]> cells]> lists)
      else inl IndexError
  end.

Section Job.
Context `{Collaborators}.

Definition job : Type → Type := @M metric_lists event.

(** [AutoEnc._timeout_msg(function, msg)]. *)
Definition _timeout_msg (function : string) (msg : Path) : job unit :=
  emit (EvTimeoutMsg function msg).

Definition sleep (secs : Z) : job unit := emit (EvSleep secs).

Definition print_exc (e : exn) : job unit := emit (EvPrintExc e).

(** [metrics_proxy[i][pos] = v]. *)
Definition set_metric (i pos : nat) (v : pyval) : job unit :=
  do lists <- get_store;
  do lists' <- lift (set_cell lists i pos v);
  run put_store lists';
  emit (EvSetMetric i pos v).

(** The size-proxy list is written by a job of the other pool while this
    job runs: [bpp_proxy n] is its content when this job evaluates
    [bpp_proxy[pos]] for the [n]-th time, counting from zero. *)
Definition check_bpp (bpp_proxy : nat → list pyval) (n pos : nat)
    : job pyval :=
  match bpp_proxy n !! pos with
  | None => raise IndexError
  | Some v => run emit (EvCheckBpp pos v); ret v
  end.

(** The loop [while not bpp_proxy[pos]: ...] of [_save_imgs_from_patches],
    entered for the [n]-th evaluation of its condition. The counter [cont]
    is compared but never assigned in the loop. *)
Fixpoint wait_bpp (fuel : nat) (bpp_proxy : nat → list pyval)
    (orig_path : Path) (pos n : nat) (cont : Z) : job unit :=
  match fuel with
  | O => spin
  | S fuel' =>
      do v <- check_bpp bpp_proxy n pos;
      if py_not v then
        run sleep 1;
        if (cont >? 100)%Z then
          run _timeout_msg "_save_imgs_from_patches" orig_path;
          return_
        else wait_bpp fuel' bpp_proxy orig_path pos (S n) cont
      else ret tt
  end.

Definition call_load_image (orig_path : Path) (color : string) : job image :=
  run emit (EvLoadImage orig_path);
  lift (load_image orig_path color).

Definition call_save_img (patches : payload) (new_path : Path)
    (color : string) : job unit :=
  match save_img patches new_path color with
  | None => emit (EvSaveImg new_path true)
  | Some e => run emit (EvSaveImg new_path false); raise e
  end.

(** The statement
    [metrics_proxy[metric[0]][pos] = ImgProc.calc_metric(orig_ref, patches, metric)]:
    the right-hand side is evaluated first. *)
Definition score_metric (orig_ref : image) (patches : payload) (pos : nat)
    (metric : metric) : job unit :=
  do v <- lift (calc_metric orig_ref patches metric);
  set_metric (metric_pos metric) pos v.

(** The [try] block of [_save_imgs_from_patches]. *)
Definition save_imgs_try_block (fuel : nat)
    (orig_path : Path) (save_folder : option Path) (patches : payload)
    (bpp_proxy : nat → list pyval) (pos : nat) (color : string)
    : job unit :=
  do orig_ref <- call_load_image orig_path color;
  run for_each Metrics (score_metric orig_ref patches pos);
  let cont := 0%Z in
  run wait_bpp fuel bpp_proxy orig_path pos 0 cont;
  do new_path <- lift (get_out_pathname orig_path save_folder ".png");
  call_save_img patches new_path color.

Definition _save_imgs_from_patches (fuel : nat)
    (orig_path : Path) (save_folder : option Path) (patches : payload)
    (bpp_proxy : nat → list pyval) (pos : nat) (color : string)
    : job unit :=
  def_body (try_except
    (save_imgs_try_block fuel orig_path save_folder patches bpp_proxy pos
       color)
    (λ e, print_exc e)).

(** The waiting loop of the sibling [_save_metric_plot], for one pair of a
    metric list and a size-proxy list: the same loop, with [cont += 1]. *)
Fixpoint wait_plot (fuel : nat) (curr_metric curr_bpp : nat → list pyval)
    (img_path : Path) (pos n : nat) (cont : Z) : job unit :=
  match fuel with
  | O => spin
  | S fuel' =>
      do m <- lift (match curr_metric n !! pos with
                    | None => inl IndexError | Some v => inr v end);
      do waiting <-
        (if py_not m then ret true
         else do b <- check_bpp curr_bpp n pos; ret (py_not b));
      if waiting : bool then
        run sleep 1;
        let cont := (cont + 1)%Z in
        if (cont >? 100)%Z then
          run _timeout_msg "_save_metric_plot" img_path;
          return_
        else wait_plot fuel' curr_metric curr_bpp img_path pos (S n) cont
      else ret tt
  end.
End Job.

(** ** The fragment of numpy used by the report builder *)

(** An array: its shape and its elements in row-major order. An array of
    floats holds [PyFloat] elements only; any other element makes it an
    array of objects. *)
Record ndarray : Type := {
  nd_shape : list nat;
  nd_flat : list pyval;
}.

Fixpoint common_prefix (s t : list nat) : list nat :=
  match s, t with
  | a :: s', b :: t' => if decide (a = b) then a :: common_prefix s' t' else []
  | _, _ => []
  end.

Definition common_prefix_all (ss : list (list nat)) : list nat :=
  match ss with
  | [] => []
  | s :: ss' => foldl common_prefix s ss'
  end.

(** The shape that [np.array] finds for a nested sequence: it descends
    while all the items of a level are sequences of one length. *)
Fixpoint dims (v : pyval) : list nat :=
  match v with
  | PyList l => length l :: common_prefix_all (List.map dims l)
  | _ => []
  end.

(** A nested sequence is regular when the descent stopped nowhere early. *)
Fixpoint regular (v : pyval) : bool :=
  match v with
  | PyList l =>
      forallb regular l &&
      forallb (λ c, bool_decide (dims c = common_prefix_all (List.map dims l))) l
  | _ => true
  end.

(** The items found at depth [d]. *)
Fixpoint leaves (d : nat) (v : pyval) : list pyval :=
  match d with
  | O => [v]
  | S d' =>
      match v with
      | PyList l => flat_map (leaves d') l
      | _ => [v]
      end
  end.

Definition product (s : list nat) : nat := foldr Nat.mul 1 s.

(** Split [l] into [n] consecutive rows of [w] items. *)
Definition rows_of {A} (n w : nat) (l : list A) : list (list A) :=
  reshape (replicate n w) l.

Section Numpy.
Context `{Collaborators}.

(** [np.array(v)] for a nested list [v]. *)
Definition np_array (v : pyval) : exn + ndarray :=
  if regular v || negb ragged_raises
  then inr {| nd_shape := dims v; nd_flat := leaves (length (dims v)) v |}
  else inl ValueError.

(** [len(v)] for a stored value. *)
Definition py_len (v : pyval) : exn + nat :=
  match v with
  | PyList l => inr (length l)
  | _ => inl TypeError
  end.

(** [len(a[0])]. *)
Definition nd_len_first (a : ndarray) : exn + nat :=
  match nd_shape a with
  | [] => inl IndexError
  | O :: _ => inl IndexError
  | [_] => match nd_flat a with v :: _ => py_len v | [] => inl IndexError end
  | _ :: n :: _ => inr n
  end.

(** [a.reshape(known + (-1,))]: the last dimension is inferred. *)
Definition nd_reshape_infer (known : list nat) (a : ndarray) : exn + ndarray :=
  let p := product known in
  let size := length (nd_flat a) in
  if decide (p = 0) then inl ValueError
  else if decide (size `mod` p = 0)
  then inr {| nd_shape := known ++ [size `div` p]; nd_flat := nd_flat a |}
  else inl ValueError.

(** [a.swapaxes(1, 2)]. *)
Definition nd_swapaxes12 (a : ndarray) : exn + ndarray :=
  match nd_shape a with
  | k :: m :: n :: rest =>
      let r := product rest in
      inr {| nd_shape := k :: n :: m :: rest;
             nd_flat :=
               flat_map (λ ki,
                 flat_map (λ ni,
                   flat_map (λ mi,
                     take r (drop (((ki * m + mi) * n + ni) * r) (nd_flat a)))
                     (seq 0 m))
                   (seq 0 n))
                 (seq 0 k) |}
  | _ => inl ValueError
  end.

(** [np.concatenate((a, b), axis=2)]: both arrays need the same number of
    dimensions, at least three, and equal shapes outside axis 2. *)
Definition np_concatenate2 (a b : ndarray) : exn + ndarray :=
  match nd_shape a, nd_shape b with
  | k :: n :: la :: ra, k' :: n' :: lb :: rb =>
      if decide (k = k' ∧ n = n' ∧ ra = rb) then
        let r := product ra in
        inr {| nd_shape := k :: n :: (la + lb) :: ra;
               nd_flat :=
                 concat (zip_with app
                           (rows_of (k * n) (la * r) (nd_flat a))
                           (rows_of (k * n) (lb * r) (nd_flat b))) |}
      else inl ValueError
  | _, _ => inl ValueError
  end.

(** Iterating over an array yields its sub-arrays along the first axis. *)
Definition nd_iter (a : ndarray) : exn + list ndarray :=
  match nd_shape a with
  | [] => inl TypeError
  | k :: rest =>
      inr (List.map (λ chunk, {| nd_shape := rest; nd_flat := chunk |})
             (rows_of k (product rest) (nd_flat a)))
  end.
End Numpy.

(** ** The shared result tables *)

(** The size-proxy table: one shared list per codec, one cell per image. *)
Abbreviation bpp_table := (list (list pyval)) (only parsing).

(** The metric table: a two-dimensional array, codecs by metrics, of
    shared lists, kept in row-major order. *)
Record metric_table : Type := {
  mt_rows : nat;
  mt_cols : nat;
  mt_lists : list (list pyval);
}.

(** [metrics[c]]: the lists of the codec at position [c]. *)
Definition mt_row (t : metric_table) (c : nat) : exn + metric_lists :=
  if decide (c < mt_rows t)
  then inr (take (mt_cols t) (drop (c * mt_cols t) (mt_lists t)))
  else inl IndexError.

(** [bpps[c]]. *)
Definition bpp_row (t : bpp_table) (c : nat) : exn + list pyval :=
  match t !! c with
  | Some cells => inr cells
  | None => inl IndexError
  end.

(** A cell holding the floats [fs], and a table of such cells. *)
Definition float_cell (fs : list float) : pyval := PyList (List.map PyFloat fs).

Definition float_cells (t : list (list (list float))) : list (list pyval) :=
  List.map (List.map float_cell) t.

(** A table of [r] lists of [n] cells of [l] floats each. *)
Definition regular_table (r n l : nat) (t : list (list (list float))) : Prop :=
  length t = r ∧
  Forall (λ row, length row = n ∧ Forall (λ c, length c = l) row) t.

(** ** The report builder: [AutoEnc._save_out_analysis] *)

Definition as_float (v : pyval) : option float :=
  match v with
  | PyFloat x => Some x
  | _ => None
  end.

(** [folder / name], where [folder] may be [None]. *)
Definition opt_path_div (folder : option Path) (name : string) : exn + Path :=
  match folder with
  | Some p => inr (path_div p name)
  | None => inl TypeError
  end.

(** [list(map(f, l))] for an [f] that may raise. *)
Fixpoint map_raising {A B} (f : A → exn + B) (l : list A) : exn + list B :=
  match l with
  | [] => inr []
  | a :: l' =>
      match f a with
      | inl e => inl e
      | inr b =>
          match map_raising f l' with
          | inl e => inl e
          | inr bs => inr (b :: bs)
          end
      end
  end.

Global Instance path_le_dec (p q : Path) : Decision (path_le p q).
Proof. unfold path_le. apply _. Defined.

(** The order of [df.sort_index()]: rows compare by their labels. *)
Definition row_le {A} (r1 r2 : Path * A) : Prop := path_le r1.1 r2.1.

Global Instance row_le_dec {A} (r1 r2 : Path * A) : Decision (row_le r1 r2).
Proof. unfold row_le. apply _. Defined.

(** [df.sort_index()]. *)
Definition sort_index {A} (df : list (Path * A)) : list (Path * A) :=
  merge_sort row_le df.

(** The [j]-th column of a frame of floats. *)
Definition column (j : nat) (df : list (Path * list float)) : list float :=
  List.map (λ r, List.nth j r.2 0%float) df.

Section Report.
Context `{Collaborators}.

Definition report : Type → Type := @M unit csv_file.

(** [pd.DataFrame(data, index=pd.Index(index), columns=pd.Index(columns))]
    for a two-dimensional [data]: the rows, labelled. *)
Definition DataFrame (data : ndarray) (index : list Path)
    (columns : list string) : exn + list (Path * list pyval) :=
  match nd_shape data with
  | [n; c] =>
      if decide (n = length index ∧ c = length columns)
      then inr (zip index (rows_of n c (nd_flat data)))
      else inl ValueError
  | _ => inl ValueError
  end.

(** A cell of [to_csv(float_format=fmt)]: a NaN is written as the empty
    string, any other float through the format. *)
Definition render (fmt : string) (x : float) : string :=
  if PrimFloat.is_nan x then "" else float_format fmt x.

(** [df.mean(axis=0)] for a frame of [c] float columns. *)
Definition mean_row (c : nat) (df : list (Path * list float)) : list float :=
  List.map (λ j, float_mean (column j df)) (seq 0 c).

(** The column names of [save_csv]:
    [[x[0] + str(x[1]) for x in product(names, range(levels))]]. *)
Definition report_columns (levels : nat) : list string :=
  let names := "bpp" :: List.map metric_str Metrics in
  flat_map (λ name, List.map (λ lvl, String.append name (pretty lvl))
                             (seq 0 levels)) names.

(** The inner function [save_csv] of [_save_out_analysis]. *)
Definition save_csv (data : ndarray) (path : Path) (index : list Path)
    (levels : nat) : exn + csv_file :=
  let cols := report_columns levels in
  match DataFrame data index cols with
  | inl e => inl e
  | inr frame =>
      match mapM (λ r : Path * list pyval,
                    fs ← mapM as_float r.2; Some (r.1, fs)) frame with
      | Some df =>
          let df := sort_index df in
          let mean_df := [(LabelStr "mean", mean_row (length cols) df)] in
          let full_df :=
            List.map (λ r, (LabelPath r.1, r.2)) df ++ mean_df in
          inr {| csv_path := path;
                 csv_columns := cols;
                 csv_rows :=
                   List.map (λ r, (r.1, List.map (render "%.5f") r.2))
                            full_df |}
      | None =>
          match save_csv_objects frame cols with
          | inl e => inl e
          | inr rows =>
              inr {| csv_path := path; csv_columns := cols; csv_rows := rows |}
          end
      end
  end.

Definition _save_out_analysis (img_paths : list Path) (folder : option Path)
    (bpps_proxy : bpp_table) (metrics_proxy : metric_table) : report unit :=
  do csv_path <- lift (map_raising (λ s,
      opt_path_div folder
        (String.append "_metrics_" (String.append (codec_str s) ".csv")))
      Codecs);
  do bpps <- lift (np_array (PyList (List.map PyList bpps_proxy)));
  let levels := List.last (nd_shape bpps) 0 in
  do metrics <- lift (np_array (PyList (List.map PyList
                                          (mt_lists metrics_proxy))));
  do images <- lift (nd_len_first bpps);
  do metrics <- lift (nd_reshape_infer
      [mt_rows metrics_proxy; mt_cols metrics_proxy; images] metrics);
  do metrics <- lift (nd_swapaxes12 metrics);
  do metrics <- lift (nd_reshape_infer
      (take (length (nd_shape metrics) - 2) (nd_shape metrics)) metrics);
  do data <- lift (np_concatenate2 bpps metrics);
  do slices <- lift (nd_iter data);
  for_each (zip slices csv_path) (λ '(d, path),
    do file <- lift (save_csv d path img_paths levels);
    emit file).

(** *** The report in the words of the specification *)

(** The metric values of the codec at position [c] for the image at index
    [i], metric by metric; the list of the codec [c] for the metric [m] is
    at the position [c * len(Metrics) + m] of the table. *)
Definition metric_part (metrics : list (list (list float))) (c i : nat)
    : list float :=
  flat_map (λ m, List.nth i
                   (List.nth (c * length Metrics + m) metrics []) [])
    (seq 0 (length Metrics)).

(** The row of the report of the codec at position [c] for the image at
    index [i], in the words of the specification: the size-proxy values of
    the image, then the values of each metric in turn, one per level. *)
Definition spec_row (sizes metrics : list (list (list float))) (c i : nat)
    : list float :=
  List.nth i (List.nth c sizes []) [] ++ metric_part metrics c i.

(** The data of the codec at position [c] as an array: its rows, image by
    image. *)
Definition codec_slice (n l : nat) (sizes metrics : list (list (list float)))
    (c : nat) : ndarray :=
  {| nd_shape := [n; l + length Metrics * l];
     nd_flat :=
       concat (List.map
                 (λ i, List.map PyFloat (spec_row sizes metrics c i))
                 (seq 0 n)) |}.

(** The report of the codec [s] at position [c], in the words of the
    specification: one row per image, sorted by image, then the row of the
    means of the columns, floats rendered with five decimals. *)
Definition spec_report (img_paths : list Path) (folder : Path)
    (levels : nat) (sizes metrics : list (list (list float)))
    (c : nat) (s : codec) : csv_file :=
  let rows := List.map (spec_row sizes metrics c)
                (seq 0 (length img_paths)) in
  let df := sort_index (zip img_paths rows) in
  {| csv_path :=
       folder ++ [String.append "_metrics_"
                    (String.append (codec_str s) ".csv")];
     csv_columns := report_columns levels;
     csv_rows :=
       List.map (λ r, (LabelPath r.1, List.map (render "%.5f") r.2)) df
         ++ [(LabelStr "mean",
              List.map (render "%.5f")
                (mean_row (length (report_columns levels)) df))] |}.
End Report.

(** ** The output coordinator: [AutoEnc._handle_output] *)

Inductive pool_id : Type := PoolA | PoolB.

Global Instance pool_id_eq_dec : EqDecision pool_id.
Proof. solve_decision. Defined.

Section Coordinator.
Context `{Collaborators}.

(** A call handed to a pool by [apply_async], with its arguments; the
    shared lists passed along are those of [Codecs.NET]. *)
Inductive job_call : Type :=
| CalcBppUsingGzip (data : payload) (path : Path) (img_num : nat)
| SaveImgsFromPatches (path : Path) (out_folder : option Path)
    (patches : payload) (img_num : nat).

Inductive co_event : Type :=
| CoGcCollect
| CoQueueGet (item : payload)
| CoApplyAsync (pool : pool_id) (call : job_call)
| CoClose (pool : pool_id)
| CoJoin (pool : pool_id)
| CoReportStart
| CoWriteCsv (file : csv_file).

(** The store of the coordinator is what remains to be received from the
    hand-off queue. *)
Definition co : Type → Type := @M (list payload) co_event.

(** [out_queue.get()]: blocks for ever on a queue that stays empty. *)
Definition queue_get : co payload :=
  do q <- get_store;
  match q with
  | [] => spin
  | item :: q' => run put_store q'; run emit (CoQueueGet item); ret item
  end.

(** [AutoEnc._instantiate_shared_variables]: the tables, every cell
    [None]. The two pools are [PoolA] and [PoolB]. *)
Definition _instantiate_shared_variables (var_len : nat)
    : bpp_table * metric_table :=
  let n_codecs := length Codecs in
  let n_metrics := length Metrics in
  let bpps := replicate n_codecs (replicate var_len PyNone) in
  let metrics :=
    {| mt_rows := n_codecs; mt_cols := n_metrics;
       mt_lists := replicate (n_codecs * n_metrics)
                             (replicate var_len PyNone) |} in
  (bpps, metrics).

(** [AutoEnc._codecs_out_routines]. *)
Definition _codecs_out_routines (path : Path) (img_num : nat)
    (bpps : bpp_table) (metrics : metric_table)
    (data patches : payload) (out_folder : option Path) : co unit :=
  do _ <- lift (bpp_row bpps NET_pos);
  run emit (CoApplyAsync PoolA (CalcBppUsingGzip data path img_num));
  do _ <- lift (bpp_row bpps NET_pos);
  do _ <- lift (mt_row metrics NET_pos);
  emit (CoApplyAsync PoolB
          (SaveImgsFromPatches path out_folder patches img_num)).

(** The loop [for img_num, img in enumerate(img_pathnames)], from the
    index [img_num] on. *)
Fixpoint output_loop (img_num : nat) (imgs : list Path)
    (bpps : bpp_table) (metrics : metric_table)
    (out_folder : option Path) : co unit :=
  match imgs with
  | [] => ret tt
  | img :: imgs' =>
      run (if decide (img_num `mod` 5 = 0) then emit CoGcCollect else ret tt);
      do model_data <- queue_get;
      let patches := model_data in
      run _codecs_out_routines img img_num bpps metrics model_data patches
            out_folder;
      output_loop (S img_num) imgs' bpps metrics out_folder
  end.

(** Run the report builder on the tables as the pools left them, its files
    entering the log of the coordinator. *)
Definition call_save_out_analysis (img_pathnames : list Path)
    (out_folder : option Path) (bpps : bpp_table) (metrics : metric_table)
    : co unit :=
  λ q tr,
    let '(r, _, files) := _save_out_analysis img_pathnames out_folder
                            bpps metrics tt [] in
    (r, q, tr ++ CoReportStart :: List.map CoWriteCsv files).

(** [_handle_output]. [img_pathnames] is the listing of the data set;
    [written] gives the content of the shared tables once the pools have
    been joined, from their content at allocation. *)
Definition _handle_output (out_name : Path) (exec_mode : ExecMode)
    (out_type : OutputType) (dirs : list Path) (img_pathnames : list Path)
    (written : bpp_table * metric_table → bpp_table * metric_table)
    : co unit :=
  do out_folder <- lift (_create_out_folder out_name exec_mode out_type dirs).1;
  let '(bpps, metrics) :=
    _instantiate_shared_variables (length img_pathnames) in
  run output_loop 0 img_pathnames bpps metrics out_folder;
  run for_each [PoolA; PoolB] (λ p, emit (CoClose p));
  run for_each [PoolA; PoolB] (λ p, emit (CoJoin p));
  let '(bpps, metrics) := written (bpps, metrics) in
  call_save_out_analysis img_pathnames out_folder bpps metrics.
End Coordinator.

(** ** A run of the pipeline: the coordinator and the jobs it submits *)

Section Run.
Context `{Collaborators}.

(** The log of one turn of the loop of [_handle_output], for the image
    [img] at the index [img_num], receiving [item]. *)
Definition iteration_events (out_folder : option Path) (img_num : nat)
    (img : Path) (item : payload) : list co_event :=
  (if decide (img_num `mod` 5 = 0) then [CoGcCollect] else [])
    ++ [CoQueueGet item;
        CoApplyAsync PoolA (CalcBppUsingGzip item img img_num);
        CoApplyAsync PoolB (SaveImgsFromPatches img out_folder item img_num)].

(** The log of the turns for [imgs], from the index [start] on. *)
Fixpoint loop_events (out_folder : option Path) (start : nat)
    (imgs : list Path) (items : list payload) : list co_event :=
  match imgs, items with
  | img :: imgs', item :: items' =>
      iteration_events out_folder start img item
        ++ loop_events out_folder (S start) imgs' items'
  | _, _ => []
  end.

(** The log of the coordinator after its loop, the report builder having
    written [files]. *)
Definition closing_events (files : list csv_file) : list co_event :=
  [CoClose PoolA; CoClose PoolB; CoJoin PoolA; CoJoin PoolB; CoReportStart]
    ++ List.map CoWriteCsv files.

Definition is_gc_collect (ev : co_event) : bool :=
  match ev with CoGcCollect => true | _ => false end.

Definition is_queue_get (ev : co_event) : bool :=
  match ev with CoQueueGet _ => true | _ => false end.

(** The calls submitted to a pool, in order. *)
Definition submitted (pool : pool_id) (log : list co_event) : list job_call :=
  omap (λ ev, match ev with
              | CoApplyAsync p call =>
                  if decide (p = pool) then Some call else None
              | _ => None
              end) log.

(** The image index that a call is addressed by. *)
Definition call_index (call : job_call) : nat :=
  match call with
  | CalcBppUsingGzip _ _ img_num => img_num
  | SaveImgsFromPatches _ _ _ img_num => img_num
  end.

(** The cells of the metric lists assigned in the log of a job, each as
    the pair of the metric position and the image index. *)
Definition metric_writes (log : list event) : list (nat * nat) :=
  omap (λ ev, match ev with
              | EvSetMetric i pos _ => Some (i, pos)
              | _ => None
              end) log.

(** What a job of the second pool meets when it runs: how long it is run,
    what its checks of the size-proxy list find, and the metric lists as
    it finds them. *)
Record job_env : Type := {
  env_fuel : nat;
  env_bpp : nat → list pyval;
  env_lists : metric_lists;
}.

(** The log of a submitted job of the second pool; [apply_async] passes no
    colour, so that [color] is its default. *)
Definition pool_b_log (env : job_env) (call : job_call) : list event :=
  match call with
  | SaveImgsFromPatches path out_folder patches img_num =>
      (_save_imgs_from_patches (env_fuel env) path out_folder patches
         (env_bpp env) img_num "RGB" (env_lists env) []).2
  | CalcBppUsingGzip _ _ _ => []
  end.

(** The metric cells assigned over a run by the jobs [calls], the [k]-th
    of which runs in [envs k]. *)
Fixpoint run_metric_writes (envs : nat → job_env) (k : nat)
    (calls : list job_call) : list (nat * nat) :=
  match calls with
  | [] => []
  | call :: calls' =>
      metric_writes (pool_b_log (envs k) call)
        ++ run_metric_writes envs (S k) calls'
  end.

(** Modelled from the spec: [ImgProc.calc_bpp_using_gzip], the job of the
    first pool, is defined outside this file. Given the payload and its
    image index it computes a size estimate for the learned codec and
    writes it into the size-proxy cell of that index; [estimate] is the
    computation, which may fail. The result is the list afterwards and the
    indices of the cells written. *)
Definition calc_bpp_using_gzip (estimate : payload → Path → exn + pyval)
    (data : payload) (path : Path) (bpp_proxy : list pyval) (img_num : nat)
    : list pyval * list nat :=
  match estimate data path with
  | inr v => (<[img_num := v]> bpp_proxy, [img_num])
  | inl _ => (bpp_proxy, [])
  end.

(** The size-proxy cells written over a run by the jobs [calls]. *)
Definition run_bpp_writes (estimate : payload → Path → exn + pyval)
    (bpp_proxy : list pyval) (calls : list job_call) : list nat :=
  flat_map (λ call,
    match call with
    | CalcBppUsingGzip data path img_num =>
        (calc_bpp_using_gzip estimate data path bpp_proxy img_num).2
    | SaveImgsFromPatches _ _ _ _ => []
    end) calls.
End Run.

(** ** Reading logs *)

Definition is_save_img (ev : event) : bool :=
  match ev with EvSaveImg _ _ => true | _ => false end.

Definition is_timeout_msg (ev : event) : bool :=
  match ev with EvTimeoutMsg _ _ => true | _ => false end.

Definition is_sleep (ev : event) : bool :=
  match ev with EvSleep _ => true | _ => false end.

Definition is_set_metric (ev : event) : bool :=
  match ev with EvSetMetric _ _ _ => true | _ => false end.

(** The image files that a log shows written to the end. *)
Definition artifacts (tr : list event) : list Path :=
  omap (λ ev, match ev with EvSaveImg p true => Some p | _ => None end) tr.

(** The log of a wait that found the values [vs] empty, one after the
    other, sleeping after each. *)
Definition poll_events (pos : nat) (vs : list pyval) : list event :=
  flat_map (λ v, [EvCheckBpp pos v; EvSleep 1]) vs.

(** The cell [lists[i][j]], if there is one. *)
Definition cell (lists : metric_lists) (i j : nat) : option pyval :=
  lists !! i ≫= (.!! j).

(** The value that the [n]-th evaluation of [bpp_proxy[pos]] finds. *)
Definition observed (bpp_proxy : nat → list pyval) (pos n : nat) : pyval :=
  default PyNone (bpp_proxy n !! pos).

Definition is_set_at (pos : nat) (ev : event) : Prop :=
  ∃ i v, ev = EvSetMetric i pos v.

Definition empty_value (v : pyval) : Prop := py_truth v = false.

(** The ways a run of [_save_imgs_from_patches] can end, each with the end
    of its log: an exception was caught, the fuel ran out in the wait, or
    the wait found a value [v] and the run went on to name and save the
    file. *)
Inductive job_tail (orig_path : Path) (save_folder : option Path)
    (pos : nat) : outcome unit → list event → Prop :=
| TailCaught e :
    job_tail orig_path save_folder pos (Normal tt) [EvPrintExc e]
| TailSpinning :
    job_tail orig_path save_folder pos Spinning []
| TailNoFolder v :
    py_truth v = true → save_folder = None →
    job_tail orig_path save_folder pos (Normal tt)
      [EvCheckBpp pos v; EvPrintExc TypeError]
| TailSaved v folder :
    py_truth v = true → save_folder = Some folder →
    job_tail orig_path save_folder pos (Normal tt)
      [EvCheckBpp pos v;
       EvSaveImg (folder ++ [String.append (path_stem orig_path) ".png"])
         true]
| TailSaveFailed v folder e :
    py_truth v = true → save_folder = Some folder →
    job_tail orig_path save_folder pos (Normal tt)
      [EvCheckBpp pos v;
       EvSaveImg (folder ++ [String.append (path_stem orig_path) ".png"])
         false;
       EvPrintExc e].

(** The logs that a run can leave: the load, metric assignments, the
    checks that found the size-proxy cell empty, each followed by a sleep,
    and the end. *)
Definition job_shape (orig_path : Path) (save_folder : option Path)
    (pos : nat) (o : outcome unit) (log : list event) : Prop :=
  ∃ sets vs tail,
    log = EvLoadImage orig_path :: sets ++ poll_events pos vs ++ tail ∧
    Forall (is_set_at pos) sets ∧
    Forall empty_value vs ∧
    job_tail orig_path save_folder pos o tail.

Section JobLogs.
Context `{Collaborators}.

(** The assignments logged by the metric loop for the metrics [done]. *)
Definition set_events (orig_ref : image) (patches : payload) (pos : nat)
    (done : list metric) : list event :=
  omap (λ m, match calc_metric orig_ref patches m with
             | inr v => Some (EvSetMetric (metric_pos m) pos v)
             | inl _ => None
             end) done.

(** Every cell of [lists'] is as in [lists], or is at [pos] and holds the
    whole value computed for one of the metrics [done]. *)
Definition scored_by (orig_ref : image) (patches : payload) (pos : nat)
    (done : list metric) (lists lists' : metric_lists) : Prop :=
  ∀ i j,
    cell lists' i j = cell lists i j ∨
    (j = pos ∧ ∃ m v, m ∈ done ∧ metric_pos m = i ∧
       calc_metric orig_ref patches m = inr v ∧ cell lists' i j = Some v).

(** The cell of every metric [done] holds a value computed for a metric
    stored at that place. *)
Definition all_scored (orig_ref : image) (patches : payload) (pos : nat)
    (done : list metric) (lists' : metric_lists) : Prop :=
  ∀ m, m ∈ done →
    ∃ m' v, m' ∈ done ∧ metric_pos m' = metric_pos m ∧
      calc_metric orig_ref patches m' = inr v ∧
      cell lists' (metric_pos m) pos = Some v.
End JobLogs.

(** ** A small set of collaborators to run the model on

    Two metrics and as many codecs as named; images load, metrics are
    lists of one float, files are written, unless the path of the image
    starts with ["bad"], in which case the second metric cannot be
    computed. The mean is the sum divided by the count. *)
Definition demo_float_of_nat (n : nat) : float :=
  Nat.iter n (λ x, x + 1)%float 0%float.

Definition demo_mean (l : list float) : float :=
  (foldr PrimFloat.add 0%float l / demo_float_of_nat (length l))%float.

Definition demo (codecs : list string) (ragged : bool) : Collaborators := {|
  image := Path;
  payload := nat;
  metric := nat * string;
  Metrics := [(0, "psnr"); (1, "ssim")];
  metric_pos := fst;
  metric_str := snd;
  codec := string;
  Codecs := codecs;
  codec_str := id;
  NET_pos := 0;
  test_name := "test";
  validation_name := "validation";
  residues_name := "residues";
  load_image := λ p _, inr p;
  calc_metric := λ img patches m,
    if bool_decide (m.1 = 1 ∧ List.hd "" img = "bad")
    then inl (OtherError "metric")
    else inr (PyList [PyFloat (demo_float_of_nat (patches + m.1))]);
  save_img := λ _ _ _, None;
  ragged_raises := ragged;
  float_mean := demo_mean;
  float_format := λ fmt _, fmt;
  save_csv_objects := λ _ _, inl TypeError;
|}.

(** ** The folder of a run: [AutoEnc.__init__] *)

Definition is_slash (c : ascii) : bool := Ascii.eqb c "/"%char.

(** [s.split('/')] on the characters of [s]. *)
Fixpoint split_slash (cs : list ascii) : list (list ascii) :=
  match cs with
  | [] => [[]]
  | c :: cs' =>
      if is_slash c then [] :: split_slash cs'
      else
        match split_slash cs' with
        | seg :: segs => (c :: seg) :: segs
        | [] => [[c]]
        end
  end.

Fixpoint leading_slashes (cs : list ascii) : nat :=
  match cs with
  | c :: cs' => if is_slash c then S (leading_slashes cs') else 0
  | [] => 0
  end.

(** The root that a POSIX path takes from its leading slashes: exactly two
    are kept as they are, any other number of them counts as one. *)
Definition path_root (cs : list ascii) : list string :=
  match leading_slashes cs with
  | 0 => []
  | 2 => ["//"]
  | _ => ["/"]
  end.

(** The components that become parts: the empty ones and the single dots
    are dropped. *)
Definition keeps_part (seg : list ascii) : bool :=
  negb (bool_decide (seg = [])) && negb (bool_decide (seg = ["."%char])).

(** [Path(s)] for a string [s], on a POSIX system: the root, if any, then
    the components between slashes that are kept. *)
Definition Path_of_str (s : string) : Path :=
  let cs := list_ascii_of_string s in
  path_root cs
    ++ List.map string_of_list_ascii (List.filter keeps_part (split_slash cs)).

(** [p.exists()], on the list [fs] of the paths that exist; the working
    directory is the path without parts. *)
Definition path_exists (fs : list Path) (p : Path) : bool :=
  bool_decide (p ∈ fs).

(** The path that the loop of [__init__] tries when [cnt] is its counter:
    [Path(out_folder + '_' + str(cnt))]. *)
Definition numbered (out_folder : string) (cnt : nat) : Path :=
  Path_of_str (out_folder +:+ "_" +:+ pretty cnt).

(** The loop [while out.exists(): ...] of [__init__], entered with the
    candidate [out] and the counter [cnt]; [None] when the fuel runs out
    with the loop still running. *)
Fixpoint find_free_out (fuel : nat) (out_folder : string) (fs : list Path)
    (out : Path) (cnt : nat) : option Path :=
  match fuel with
  | O => None
  | S fuel' =>
      if path_exists fs out then
        let out := numbered out_folder cnt in
        let cnt := cnt + 1 in
        find_free_out fuel' out_folder fs out cnt
      else Some out
  end.

(** The statements of [AutoEnc.__init__] that choose and create the folder
    of the run, from [out = Path(self.run_cfg['out_folder'])] to
    [self.out_name = out]: the result is [out_name] and the paths existing
    afterwards. *)
Definition AutoEnc_init (fuel : nat) (out_folder : string) (fs : list Path)
    : option (Path * list Path) :=
  let out := Path_of_str out_folder in
  let cnt := 0 in
  out ← find_free_out fuel out_folder fs out cnt;
  Some (out, mkdir_parents out fs).

(** ** Writing to the terminal: [AutoEnc._clear_last_lines] *)

Definition CURSOR_UP_ONE : string := String (ascii_of_nat 27) "[1A".
Definition ERASE_LINE : string := String (ascii_of_nat 27) "[2K".

(** Code that writes to [sys.stdout]: the log holds the strings written. *)
Definition printer : Type → Type := @M unit string.

Definition stdout_write (s : string) : printer unit := emit s.

(** [range(n)] for an integer [n]: empty when [n] is negative. *)
Definition range (n : Z) : list nat := seq 0 (Z.to_nat n).

Definition _clear_last_lines (n : Z) : printer unit :=
  for_each (range n) (λ _,
    run stdout_write CURSOR_UP_ONE;
    stdout_write ERASE_LINE).

(** The text on the terminal: what was written, end to end. *)
Definition written_text (log : list string) : string :=
  foldr String.append "" log.

(** ** The parameter groups of an optimizer: [update_lr], [update_mom] *)

Section ParamGroups.
Context {V : Type}.

(** The store is [optimizer.param_groups]: a list of dicts with string
    keys. Two groups are two dicts. *)
Definition opt : Type → Type := @M (list (gmap string V)) unit.

(** [g[key] = v] for the group [g] at the index [i]. *)
Definition set_group_item (i : nat) (key : string) (v : V) : opt unit :=
  do groups <- get_store;
  put_store (alter (λ g, <[key := v]> g) i groups).

(** [AutoEnc.update_lr(optimizer, lr)]. *)
Definition update_lr (lr : V) : opt unit :=
  do groups <- get_store;
  for_each (seq 0 (length groups)) (λ g, set_group_item g "lr" lr).

(** [AutoEnc.update_mom(optimizer, mom)]. *)
Definition update_mom (mom : V) : opt unit :=
  do groups <- get_store;
  for_each (seq 0 (length groups)) (λ g, set_group_item g "momentum" mom).
End ParamGroups.

(** ** The waits of [AutoEnc._save_metric_plot] *)

(** The loop [for curr_metric, curr_bpp in zip(metrics_proxy, bpp_proxy)]
    of [_save_metric_plot], each pair of lists given by its content at the
    successive evaluations of the condition of its wait. *)
Definition save_metric_plot_waits (fuel : nat)
    (pairs : list ((nat → list pyval) * (nat → list pyval)))
    (img_path : Path) (pos : nat) : job unit :=
  for_each pairs (λ '(curr_metric, curr_bpp),
    let cont := 0%Z in
    wait_plot fuel curr_metric curr_bpp img_path pos 0 cont).

Definition is_check_bpp (ev : event) : bool :=
  match ev with EvCheckBpp _ _ => true | _ => false end.

(** ** Reading the log of the coordinator *)

Section CoordinatorLog.
Context `{Collaborators}.

(** The events by which the coordinator winds up: the pools closed and
    joined, the report started and written. *)
Definition is_winding_up (ev : co_event) : bool :=
  match ev with
  | CoClose _ | CoJoin _ | CoReportStart | CoWriteCsv _ => true
  | _ => false
  end.
End CoordinatorLog.

(** ** The generators: [AutoEnc._instantiate_generators] *)

(** [d[k]] for a dict [d] with string keys. *)
Definition KeyError (k : string) : exn := OtherError ("KeyError: " +:+ k).

Definition dict_item {A} (d : gmap string A) (k : string) : exn + A :=
  match d !! k with
  | Some a => inr a
  | None => inl (KeyError k)
  end.

Section Generators.
Context {shape gen_conf generator : Type}.
(** [c['enabled']] for the configuration [c] of one generator, as the [if]
    statement takes it, and the constructor of [Generator]; both can
    raise. *)
Variable enabled : gen_conf → exn + bool.
Variable Generator : shape → gen_conf → exn + generator.

(** The store is the dict [gen]. *)
Definition gens : Type → Type := @M (gmap string generator) unit.

(** [gen[key] = g]. *)
Definition set_gen (key : string) (g : generator) : gens unit :=
  do gen <- get_store;
  put_store (<[key := g]> gen).

(** [_instantiate_generators], given what [self.auto_cfg['input_shape']]
    and [self.run_cfg['generators']] evaluate to. *)
Definition _instantiate_generators (input_shape : exn + shape)
    (generators : exn + gmap string gen_conf)
    : gens (gmap string generator) :=
  do shape <- lift input_shape;
  do conf <- lift generators;
  run put_store ∅;
  do train <- lift (dict_item conf "train");
  do en <- lift (enabled train);
  run (if en : bool then
         do train <- lift (dict_item conf "train");
         do g <- lift (Generator shape train);
         run set_gen "train" g;
         do valid <- lift (dict_item conf "valid");
         do g <- lift (Generator shape valid);
         set_gen "valid" g
       else ret tt);
  do test <- lift (dict_item conf "test");
  do en <- lift (enabled test);
  run (if en : bool then
         do test <- lift (dict_item conf "test");
         do g <- lift (Generator shape test);
         set_gen "test" g
       else ret tt);
  get_store.
End Generators.

(** ** The state of the model: [State], [_create_model], [train_model],
    [test_model] *)

(** What the torch side provides: the types of its objects and the three
    constructions of [_create_model], each of which can raise: the network
    with its move to the GPU, the optimizer looked up in the configuration
    and applied to the parameters of the network, and the loss looked up in
    the configuration. *)
Class Torch : Type := {
  module : Type;
  optimizer : Type;
  loss_fn : Type;
  queue : Type;
  build_model : exn + module;
  build_optimizer : module → exn + optimizer;
  build_loss : exn + loss_fn;
}.

Section Lifecycle.
Context `{Torch}.

(** [AutoEnc.State]; [epoch_str] is the attribute that [test_model]
    adds. *)
Record State : Type := {
  st_global_step : list pyval;
  st_step : option pyval;
  st_autoenc_opt : list optimizer;
  st_exec_mode : ExecMode;
  st_out_type : option OutputType;
  st_autoenc : list module;
  st_loss : option loss_fn;
  st_ckpt : option pyval;
  st_out_queue : option queue;
  st_epoch_str : option string;
}.

(** [State(exec_mode)]. *)
Definition State_init (exec_mode : ExecMode) : State :=
  {| st_global_step := [];
     st_step := None;
     st_autoenc_opt := [];
     st_exec_mode := exec_mode;
     st_out_type := None;
     st_autoenc := [];
     st_loss := None;
     st_ckpt := None;
     st_out_queue := None;
     st_epoch_str := None |}.

(** The assignments to the attributes of a state. *)
Definition set_autoenc (v : list module) (st : State) : State :=
  {| st_global_step := st_global_step st; st_step := st_step st;
     st_autoenc_opt := st_autoenc_opt st; st_exec_mode := st_exec_mode st;
     st_out_type := st_out_type st; st_autoenc := v;
     st_loss := st_loss st; st_ckpt := st_ckpt st;
     st_out_queue := st_out_queue st; st_epoch_str := st_epoch_str st |}.

Definition set_autoenc_opt (v : list optimizer) (st : State) : State :=
  {| st_global_step := st_global_step st; st_step := st_step st;
     st_autoenc_opt := v; st_exec_mode := st_exec_mode st;
     st_out_type := st_out_type st; st_autoenc := st_autoenc st;
     st_loss := st_loss st; st_ckpt := st_ckpt st;
     st_out_queue := st_out_queue st; st_epoch_str := st_epoch_str st |}.

Definition set_loss (v : option loss_fn) (st : State) : State :=
  {| st_global_step := st_global_step st; st_step := st_step st;
     st_autoenc_opt := st_autoenc_opt st; st_exec_mode := st_exec_mode st;
     st_out_type := st_out_type st; st_autoenc := st_autoenc st;
     st_loss := v; st_ckpt := st_ckpt st;
     st_out_queue := st_out_queue st; st_epoch_str := st_epoch_str st |}.

Definition set_exec_mode (v : ExecMode) (st : State) : State :=
  {| st_global_step := st_global_step st; st_step := st_step st;
     st_autoenc_opt := st_autoenc_opt st; st_exec_mode := v;
     st_out_type := st_out_type st; st_autoenc := st_autoenc st;
     st_loss := st_loss st; st_ckpt := st_ckpt st;
     st_out_queue := st_out_queue st; st_epoch_str := st_epoch_str st |}.

Definition set_out_type (v : option OutputType) (st : State) : State :=
  {| st_global_step := st_global_step st; st_step := st_step st;
     st_autoenc_opt := st_autoenc_opt st; st_exec_mode := st_exec_mode st;
     st_out_type := v; st_autoenc := st_autoenc st;
     st_loss := st_loss st; st_ckpt := st_ckpt st;
     st_out_queue := st_out_queue st; st_epoch_str := st_epoch_str st |}.

Definition set_out_queue (v : option queue) (st : State) : State :=
  {| st_global_step := st_global_step st; st_step := st_step st;
     st_autoenc_opt := st_autoenc_opt st; st_exec_mode := st_exec_mode st;
     st_out_type := st_out_type st; st_autoenc := st_autoenc st;
     st_loss := st_loss st; st_ckpt := st_ckpt st;
     st_out_queue := v; st_epoch_str := st_epoch_str st |}.

Definition set_epoch_str (v : option string) (st : State) : State :=
  {| st_global_step := st_global_step st; st_step := st_step st;
     st_autoenc_opt := st_autoenc_opt st; st_exec_mode := st_exec_mode st;
     st_out_type := st_out_type st; st_autoenc := st_autoenc st;
     st_loss := st_loss st; st_ckpt := st_ckpt st;
     st_out_queue := st_out_queue st; st_epoch_str := v |}.

(** What a call of the two entry points shows: what it prints, and the
    state with which it enters [_run_model]. *)
Inductive life_event : Type :=
| LifePrint (s : string)
| LifeRunModel (st : State).

(** The store is [self.st]. *)
Definition life : Type → Type := @M (option State) life_event.

(** An attribute of [self.st] read or assigned while [self.st] is
    [None]. *)
Definition AttributeError : exn := OtherError "AttributeError".

Definition the_state : life State :=
  do st <- get_store;
  match st with
  | Some st => ret st
  | None => raise AttributeError
  end.

(** [self.st.attr = v], where [set st] is [st] with the attribute
    assigned. *)
Definition assign (set : State → State) : life unit :=
  do st <- the_state;
  put_store (Some (set st)).

(** [_create_model]. *)
Definition _create_model : life unit :=
  do model <- lift build_model;
  run assign (λ st, set_autoenc (st_autoenc st ++ [model]) st);
  do optimizer <- lift (build_optimizer model);
  run assign (λ st, set_autoenc_opt (st_autoenc_opt st ++ [optimizer]) st);
  do loss <- lift build_loss;
  assign (set_loss (Some loss)).

(** [_run_model], of which this much is embedded: the one attribute of the
    state that it assigns is [out_queue], and it can raise. [run_model]
    gives, for the state at its entry, the queue that it leaves in the
    state and the exception that it ends with, if any. *)
Variable run_model : State → option queue * option exn.

Definition _run_model : life unit :=
  do st <- the_state;
  run emit (LifeRunModel st);
  run assign (set_out_queue (run_model st).1);
  match (run_model st).2 with
  | Some e => raise e
  | None => ret tt
  end.

Definition print (s : string) : life unit := emit (LifePrint s).

(** [test_model]. *)
Definition test_model : life unit :=
  do st <- get_store;
  run (if st is None then
         run put_store (Some (State_init TEST));
         _create_model
       else ret tt);
  run assign (set_epoch_str (Some ""));
  run assign (set_exec_mode TEST);
  run assign (set_out_type (Some RECONSTRUCTION));
  run print (String (ascii_of_nat 10) "TESTING:");
  _run_model.

(** [train_model]. *)
Definition train_model : life unit :=
  run put_store (Some (State_init TRAIN));
  run _create_model;
  run print (String (ascii_of_nat 10) "TRAINING:");
  run assign (set_exec_mode TRAIN);
  run assign (set_out_type (Some NONE));
  _run_model.

(** The two entry points, and a session on one object: calls made one
    after the other, each on the state that the call before it left,
    whether that call returned or raised. *)
Inductive entry : Type := CallTrain | CallTest.

Definition enter (c : entry) : life unit :=
  match c with
  | CallTrain => train_model
  | CallTest => test_model
  end.

Fixpoint session (calls : list entry) (st : option State)
    (tr : list life_event) : option State * list life_event :=
  match calls with
  | [] => (st, tr)
  | c :: calls' =>
      let '(_, st', tr') := enter c st tr in
      session calls' st' tr'
  end.

(** The states with which [_run_model] was entered, in order. *)
Definition entered (tr : list life_event) : list State :=
  omap (λ ev, match ev with LifeRunModel st => Some st | _ => None end) tr.

(** The mode and the output type that an entry point sets. *)
Definition mode_of (c : entry) : ExecMode * option OutputType :=
  match c with
  | CallTrain => (TRAIN, Some NONE)
  | CallTest => (TEST, Some RECONSTRUCTION)
  end.
End Lifecycle.


(** A torch side to run the model on: networks, optimizers, losses and
    queues are numbers; with [broken] set the optimizer cannot be
    built. *)
Definition demo_torch (broken : bool) : Torch := {|
  module := nat;
  optimizer := nat;
  loss_fn := nat;
  queue := nat;
  build_model := inr 7;
  build_optimizer := λ m,
    if broken then inl (OtherError "optimizer") else inr (m + 1);
  build_loss := inr 0;
|}.

(** A [_run_model] that raises in the mode [TRAIN] and returns
    otherwise. *)
Definition demo_run_model (st : @State (demo_torch false))
    : option nat * option exn :=
  (Some 1,
   if decide (st_exec_mode st = TRAIN) then Some (OtherError "interrupted")
   else None).
(** * Properties *)

Local Open Scope nat_scope.

(** ** The model at work *)

Example path_stem_drops_the_last_suffix :
  path_stem ["data"; "kodim01.bmp"] = "kodim01" ∧
  path_stem ["data"; "img.tar.gz"] = "img.tar" ∧
  path_stem ["home"; ".bashrc"] = ".bashrc" ∧
  path_stem ["data"; "name."] = "name.".
Proof. repeat split. Qed.

Example truth_values :
  py_truth PyNone = false ∧
  py_truth (PyFloat 0) = false ∧
  py_truth (PyFloat (-0)) = false ∧
  py_truth (PyFloat 0.5) = true ∧
  py_truth (PyList []) = false ∧
  py_truth (PyList [PyFloat 0]) = true.
Proof. repeat split. Qed.

(** A job whose size-proxy cell is written between its second and its
    third check. *)
Example job_that_saves :
  _save_imgs_from_patches (H := demo ["net"] true) 5
    ["data"; "kodim01.bmp"] (Some ["out"; "test"]) 7
    (λ n, if decide (n < 2) then [PyNone; PyNone]
          else [PyNone; PyList [PyFloat 1]])
    1 "RGB" [[PyNone; PyNone]; [PyNone; PyNone]] [] =
  (Normal tt,
   [[PyNone; PyList [PyFloat 7]]; [PyNone; PyList [PyFloat 8]]],
   [EvLoadImage ["data"; "kodim01.bmp"];
    EvSetMetric 0 1 (PyList [PyFloat 7]);
    EvSetMetric 1 1 (PyList [PyFloat 8]);
    EvCheckBpp 1 PyNone; EvSleep 1;
    EvCheckBpp 1 PyNone; EvSleep 1;
    EvCheckBpp 1 (PyList [PyFloat 1]);
    EvSaveImg ["out"; "test"; "kodim01.png"] true]).
Proof. reflexivity. Qed.

(** The report of one codec for two images listed out of order. *)
Example report_of_two_images :
  _save_out_analysis (H := demo ["net"] true)
    [["d"; "b.png"]; ["d"; "a.png"]] (Some ["out"; "test"])
    (float_cells [[[1%float]; [2%float]]])
    {| mt_rows := 1; mt_cols := 2;
       mt_lists := float_cells [[[30%float]; [31%float]];
                                [[0.5%float]; [0.25%float]]] |} tt [] =
  (Normal tt, tt,
   [{| csv_path := ["out"; "test"; "_metrics_net.csv"];
       csv_columns := ["bpp0"; "psnr0"; "ssim0"];
       csv_rows :=
         [(LabelPath ["d"; "a.png"], ["%.5f"; "%.5f"; "%.5f"]);
          (LabelPath ["d"; "b.png"], ["%.5f"; "%.5f"; "%.5f"]);
          (LabelStr "mean", ["%.5f"; "%.5f"; "%.5f"])] |}]) ∧
  List.map (spec_row (H := demo ["net"] true) [[[1%float]; [2%float]]]
              [[[30%float]; [31%float]]; [[0.5%float]; [0.25%float]]] 0)
    [0; 1] =
  [[1%float; 30%float; 0.5%float]; [2%float; 31%float; 0.25%float]].
Proof. split; reflexivity. Qed.

(** ** The monad *)

Section MonadFacts.
Context {X E : Type}.
Implicit Types (x : X) (tr : list E).

Lemma bind_normal {A B} (m : @M X E A) (f : A → @M X E B) x tr a x' tr' :
  m x tr = (Normal a, x', tr') → bind m f x tr = f a x' tr'.
Proof. unfold bind. by intros ->. Qed.

Lemma bind_raised {A B} (m : @M X E A) (f : A → @M X E B) x tr e x' tr' :
  m x tr = (Raised e, x', tr') → bind m f x tr = (Raised e, x', tr').
Proof. unfold bind. by intros ->. Qed.

Lemma bind_spinning {A B} (m : @M X E A) (f : A → @M X E B) x tr x' tr' :
  m x tr = (Spinning, x', tr') → bind m f x tr = (Spinning, x', tr').
Proof. unfold bind. by intros ->. Qed.

Lemma bind_returned {A B} (m : @M X E A) (f : A → @M X E B) x tr x' tr' :
  m x tr = (Returned, x', tr') → bind m f x tr = (Returned, x', tr').
Proof. unfold bind. by intros ->. Qed.
End MonadFacts.

(** ** Resolution of the prediction folder *)

Section CreateOutFolderFacts.
Context `{Collaborators}.

(** Outside the combination of [TRAIN] with [RESIDUES] the resolution
    returns: nothing for [NONE], else the run's folder extended by the
    test or the validation name, created with its ancestors. *)
Lemma create_out_folder_resolves out_name exec_mode out_type dirs :
  ¬ (exec_mode = TRAIN ∧ out_type = RESIDUES) →
  _create_out_folder out_name exec_mode out_type dirs =
    if decide (out_type = NONE) then (inr None, dirs)
    else
      let p := path_div out_name
                 (if decide (exec_mode = TEST) then test_name
                  else validation_name) in
      (inr (Some p), mkdir_parents p dirs).
Proof.
  intros Hnot. unfold _create_out_folder.
  destruct (decide (out_type = NONE)) as [|Hnone]; [done|].
  destruct (decide (exec_mode = TRAIN)) as [->|Hmode].
  - destruct (decide (out_type = RESIDUES)) as [->|Hres]; [by destruct Hnot|].
    by destruct (decide (TRAIN = TEST)).
  - by destruct (decide (exec_mode = TEST)).
Qed.

Lemma mkdir_parents_creates (p : Path) dirs :
  p ≠ [] → p ∈ mkdir_parents p dirs.
Proof.
  intros Hp. unfold mkdir_parents. apply elem_of_app. right.
  apply list_elem_of_In, in_map_iff. exists (length p). split.
  - by rewrite firstn_all.
  - apply in_seq. destruct p; simpl in *; [done|lia].
Qed.

End CreateOutFolderFacts.

(** ** The wait on the size-proxy cell *)

Section WaitFacts.
Implicit Types (bpp_proxy : nat → list pyval) (lists : metric_lists)
  (tr : list event).

Lemma wait_bpp_proceeds fuel bpp_proxy orig_path pos n cont lists tr v :
  bpp_proxy n !! pos = Some v → py_truth v = true →
  wait_bpp (S fuel) bpp_proxy orig_path pos n cont lists tr =
    (Normal tt, lists, tr ++ [EvCheckBpp pos v]).
Proof.
  intros Hv Ht. simpl. unfold bind, check_bpp. rewrite Hv. simpl.
  unfold emit, ret, py_not. by rewrite Ht.
Qed.

Lemma wait_bpp_retries fuel bpp_proxy orig_path pos n cont lists tr v :
  bpp_proxy n !! pos = Some v → py_truth v = false → (cont ≤ 100)%Z →
  wait_bpp (S fuel) bpp_proxy orig_path pos n cont lists tr =
    wait_bpp fuel bpp_proxy orig_path pos (S n) cont lists
      (tr ++ [EvCheckBpp pos v; EvSleep 1]).
Proof.
  intros Hv Ht Hc. simpl. unfold bind at 1, check_bpp. rewrite Hv. simpl.
  unfold emit, ret, py_not. rewrite Ht. simpl.
  unfold bind, sleep, emit. simpl.
  destruct (Z.gtb_spec cont 100) as [|_]; [lia|].
  by rewrite <- app_assoc.
Qed.

Lemma wait_bpp_out_of_range fuel bpp_proxy orig_path pos n cont lists tr :
  bpp_proxy n !! pos = None →
  wait_bpp (S fuel) bpp_proxy orig_path pos n cont lists tr =
    (Raised IndexError, lists, tr).
Proof. intros Hv. simpl. unfold bind, check_bpp. by rewrite Hv. Qed.

(** The wait changes no cell, logs checks and sleeps only, and ends in one
    of three ways: the fuel ran out, the subscript was out of range, or a
    check found a value that is not empty. With [cont] at most 100 it never
    ends by the [return] of the timeout branch. *)
Lemma wait_bpp_anatomy fuel bpp_proxy orig_path pos n cont lists tr :
  (cont ≤ 100)%Z →
  ∃ o vs tail,
    wait_bpp fuel bpp_proxy orig_path pos n cont lists tr =
      (o, lists, tr ++ poll_events pos vs ++ tail) ∧
    Forall empty_value vs ∧
    ((o = Spinning ∧ tail = [] ∧ length vs = fuel) ∨
     (o = Raised IndexError ∧ tail = []) ∨
     (∃ v, o = Normal tt ∧ tail = [EvCheckBpp pos v] ∧ py_truth v = true)).
Proof.
  intros Hc. revert n tr. induction fuel as [|fuel IH]; intros n tr.
  - exists Spinning, [], []. simpl. rewrite app_nil_r.
    split_and!; [done|constructor|auto].
  - destruct (bpp_proxy n !! pos) as [v|] eqn:Hv.
    + destruct (py_truth v) eqn:Ht.
      * exists (Normal tt), [], [EvCheckBpp pos v].
        rewrite (wait_bpp_proceeds _ _ _ _ _ _ _ _ v) by done.
        split_and!; [done|constructor|]. right; right. by exists v.
      * rewrite (wait_bpp_retries _ _ _ _ _ _ _ _ v) by done.
        destruct (IH (S n) (tr ++ [EvCheckBpp pos v; EvSleep 1]))
          as (o & vs & tail & Hrun & Hvs & Hend).
        exists o, (v :: vs), tail. rewrite Hrun. split_and!.
        -- simpl. by rewrite <- app_assoc.
        -- by constructor.
        -- destruct Hend as [(-> & -> & <-)|[?|?]]; auto.
    + exists (Raised IndexError), [], [].
      rewrite wait_bpp_out_of_range by done.
      simpl. rewrite app_nil_r. split_and!; [done|constructor|auto].
Qed.

(** A cell that every check finds empty keeps the job waiting for as long
    as it is run. *)
Lemma wait_bpp_never_written fuel bpp_proxy orig_path pos n lists tr :
  (∀ k, ∃ v, bpp_proxy k !! pos = Some v ∧ py_truth v = false) →
  wait_bpp fuel bpp_proxy orig_path pos n 0 lists tr =
    (Spinning, lists,
     tr ++ poll_events pos (List.map (observed bpp_proxy pos) (seq n fuel))).
Proof.
  intros Hnever. revert n tr. induction fuel as [|fuel IH]; intros n tr.
  - simpl. by rewrite app_nil_r.
  - destruct (Hnever n) as (v & Hv & Ht).
    rewrite (wait_bpp_retries _ _ _ _ _ _ _ _ v) by done.
    rewrite IH. simpl. unfold observed at 2. rewrite Hv. simpl.
    by rewrite <- app_assoc.
Qed.

(** A cell first found written at the check [n + d] lets the wait end
    there, provided the fuel reaches that far. *)
Lemma wait_bpp_written fuel bpp_proxy orig_path pos n d lists tr v :
  (∀ k, n ≤ k < n + d →
        ∃ w, bpp_proxy k !! pos = Some w ∧ py_truth w = false) →
  bpp_proxy (n + d) !! pos = Some v → py_truth v = true →
  d < fuel →
  wait_bpp fuel bpp_proxy orig_path pos n 0 lists tr =
    (Normal tt, lists,
     tr ++ poll_events pos (List.map (observed bpp_proxy pos) (seq n d))
        ++ [EvCheckBpp pos v]).
Proof.
  revert fuel n tr. induction d as [|d IH]; intros fuel n tr Hbefore Hv Ht Hd.
  - destruct fuel as [|fuel]; [lia|]. rewrite Nat.add_0_r in Hv.
    by rewrite (wait_bpp_proceeds _ _ _ _ _ _ _ _ v).
  - destruct fuel as [|fuel]; [lia|].
    destruct (Hbefore n) as (w & Hw & Hwt); [lia|].
    rewrite (wait_bpp_retries _ _ _ _ _ _ _ _ w) by done.
    rewrite (IH fuel (S n)); [| |by rewrite Nat.add_succ_l, <- Nat.add_succ_r|done|lia].
    + simpl. unfold observed at 2. rewrite Hw. simpl.
      by rewrite <- !app_assoc.
    + intros k Hk. apply Hbefore. lia.
Qed.
End WaitFacts.

(** ** The metric loop *)

Lemma cell_set_cell lists i pos v lists' :
  set_cell lists i pos v = inr lists' →
  cell lists' i pos = Some v ∧
  (∀ i' j', ¬ (i' = i ∧ j' = pos) → cell lists' i' j' = cell lists i' j').
Proof.
  unfold set_cell, cell. intros Hset.
  destruct (lists !! i) as [cells|] eqn:Hcells; [|done].
  destruct (decide (pos < length cells)) as [Hpos|]; [|done].
  injection Hset as <-.
  assert (i < length lists) by (by eapply lookup_lt_Some).
  split.
  - rewrite list_lookup_insert_eq by done. simpl.
    by rewrite list_lookup_insert_eq.
  - intros i' j' Hne. destruct (decide (i' = i)) as [->|Hi].
    + rewrite list_lookup_insert_eq, Hcells by done. simpl.
      rewrite list_lookup_insert_ne; [done|]. intros <-. by apply Hne.
    + by rewrite list_lookup_insert_ne.
Qed.

Lemma set_cell_in_range lists i pos v cells :
  lists !! i = Some cells → pos < length cells →
  ∃ lists', set_cell lists i pos v = inr lists'.
Proof.
  intros Hc Hpos. unfold set_cell. rewrite Hc.
  destruct (decide (pos < length cells)); [eauto|done].
Qed.

Lemma set_cell_lengths lists i pos v lists' :
  set_cell lists i pos v = inr lists' →
  List.map length lists' = List.map length lists.
Proof.
  unfold set_cell. intros Hset.
  destruct (lists !! i) as [cells|] eqn:Hcells; [|done].
  destruct (decide (pos < length cells)); [|done].
  injection Hset as <-.
  apply list_eq. intros k. rewrite !list_lookup_fmap.
  destruct (decide (k = i)) as [->|Hk].
  - rewrite list_lookup_insert_eq by (by eapply lookup_lt_Some).
    rewrite Hcells. simpl. by rewrite length_insert.
  - by rewrite list_lookup_insert_ne.
Qed.

Section ScoreFacts.
Context `{Collaborators}.
Implicit Types (lists : metric_lists) (tr : list event) (ms : list metric).

Lemma set_metric_run i pos v lists tr :
  set_metric i pos v lists tr =
    match set_cell lists i pos v with
    | inr lists' => (Normal tt, lists', tr ++ [EvSetMetric i pos v])
    | inl e => (Raised e, lists, tr)
    end.
Proof.
  unfold set_metric, bind, get_store, lift.
  by destruct (set_cell lists i pos v).
Qed.

Lemma score_metric_run orig_ref patches pos m lists tr :
  score_metric orig_ref patches pos m lists tr =
    match calc_metric orig_ref patches m with
    | inl e => (Raised e, lists, tr)
    | inr v =>
        match set_cell lists (metric_pos m) pos v with
        | inr lists' =>
            (Normal tt, lists', tr ++ [EvSetMetric (metric_pos m) pos v])
        | inl e => (Raised e, lists, tr)
        end
    end.
Proof.
  unfold score_metric, bind, lift.
  destruct (calc_metric orig_ref patches m); simpl; [done|].
  apply set_metric_run.
Qed.

(** The metric loop writes the cells of a first part [done] of the metrics,
    in order, each with the whole value computed for it; it ends normally
    when that part is all of them, and by an exception otherwise. *)
Lemma score_loop_spec orig_ref patches pos ms lists tr :
  ∃ o lists' done rest,
    for_each ms (score_metric orig_ref patches pos) lists tr =
      (o, lists', tr ++ set_events orig_ref patches pos done) ∧
    ms = done ++ rest ∧
    ((o = Normal tt ∧ rest = []) ∨ (∃ e, o = Raised e ∧ rest ≠ [])) ∧
    length (set_events orig_ref patches pos done) = length done ∧
    List.map length lists' = List.map length lists ∧
    scored_by orig_ref patches pos done lists lists' ∧
    all_scored orig_ref patches pos done lists' ∧
    metric_writes (set_events orig_ref patches pos done) =
      List.map (λ m, (metric_pos m, pos)) done.
Proof.
  revert lists tr. induction ms as [|m ms IH]; intros lists tr.
  - exists (Normal tt), lists, [], []. simpl. rewrite app_nil_r.
    split_and!; auto.
    + intros i j. by left.
    + intros m Hm. by apply elem_of_nil in Hm.
  - simpl. unfold bind. rewrite score_metric_run.
    destruct (calc_metric orig_ref patches m) as [e|v] eqn:Hcalc.
    { exists (Raised e), lists, [], (m :: ms). simpl. rewrite app_nil_r.
      split_and!; eauto.
      - intros i j. by left.
      - intros m' Hm'. by apply elem_of_nil in Hm'. }
    destruct (set_cell lists (metric_pos m) pos v) as [e|lists1] eqn:Hset.
    { exists (Raised e), lists, [], (m :: ms). simpl. rewrite app_nil_r.
      split_and!; eauto.
      - intros i j. by left.
      - intros m' Hm'. by apply elem_of_nil in Hm'. }
    destruct (IH lists1 (tr ++ [EvSetMetric (metric_pos m) pos v]))
      as (o & lists' & done & rest & Hrun & -> & Hend & Hlen & Hshape
          & Hby & Hall & Hwrites).
    destruct (cell_set_cell _ _ _ _ _ Hset) as [Hhere Helse].
    exists o, lists', (m :: done), rest. rewrite Hrun.
    assert (Hev : set_events orig_ref patches pos (m :: done) =
                  EvSetMetric (metric_pos m) pos v
                    :: set_events orig_ref patches pos done).
    { unfold set_events. simpl. by rewrite Hcalc. }
    rewrite Hev. split_and!.
    + by rewrite <- app_assoc.
    + done.
    + done.
    + simpl. by rewrite Hlen.
    + rewrite Hshape. by eapply set_cell_lengths.
    + intros i j. destruct (Hby i j) as [Hsame|(-> & m' & v' & Hm' & ?)].
      * destruct (decide (i = metric_pos m ∧ j = pos)) as [[-> ->]|Hne].
        -- right. split; [done|]. exists m, v. split_and!; try done.
           ++ apply elem_of_cons. by left.
           ++ by rewrite Hsame.
        -- left. rewrite Hsame. by apply Helse.
      * right. split; [done|]. exists m', v'. split_and!; try tauto.
        apply elem_of_cons. by right.
    + intros m0 Hm0. apply elem_of_cons in Hm0 as [->|Hm0].
      * destruct (Hby (metric_pos m) pos)
          as [Hsame|(_ & m' & v' & Hm' & Hp & Hc & Hcell)].
        -- exists m, v. split_and!; try done.
           ++ apply elem_of_cons. by left.
           ++ by rewrite Hsame.
        -- exists m', v'. split_and!; try done. apply elem_of_cons. by right.
      * destruct (Hall m0 Hm0) as (m' & v' & Hm' & ?).
        exists m', v'. split_and!; try tauto. apply elem_of_cons. by right.
    + unfold metric_writes in *. cbn. by rewrite Hwrites.
Qed.

(** When every metric can be computed and stored, the loop ends normally
    with all of them done. *)
Lemma score_loop_succeeds orig_ref patches pos ms lists tr :
  (∀ m, m ∈ ms → ∃ v cells,
      calc_metric orig_ref patches m = inr v ∧
      lists !! metric_pos m = Some cells ∧ pos < length cells) →
  ∃ lists',
    for_each ms (score_metric orig_ref patches pos) lists tr =
      (Normal tt, lists', tr ++ set_events orig_ref patches pos ms) ∧
    length (set_events orig_ref patches pos ms) = length ms.
Proof.
  revert lists tr. induction ms as [|m ms IH]; intros lists tr Hok.
  - exists lists. simpl. by rewrite app_nil_r.
  - destruct (Hok m) as (v & cells & Hcalc & Hcells & Hpos);
      [apply elem_of_cons; by left|].
    destruct (set_cell_in_range lists (metric_pos m) pos v cells)
      as [lists1 Hset]; [done..|].
    destruct (IH lists1 (tr ++ [EvSetMetric (metric_pos m) pos v]))
      as (lists' & Hrun & Hlen).
    { intros m' Hm'. destruct (Hok m') as (v' & cells' & ? & Hc' & Hp');
        [apply elem_of_cons; by right|].
      pose proof (set_cell_lengths _ _ _ _ _ Hset) as Hshape.
      assert (Hl : length <$> lists1 !! metric_pos m' = Some (length cells')).
      { rewrite <- list_lookup_fmap. change (fmap length lists1) with
          (List.map length lists1). rewrite Hshape.
        change (List.map length lists) with (fmap length lists).
        by rewrite list_lookup_fmap, Hc'. }
      destruct (lists1 !! metric_pos m') as [cells1|] eqn:Hc1; [|done].
      injection Hl as Hl. exists v', cells1. split_and!; [done..|lia]. }
    assert (Hev : set_events orig_ref patches pos (m :: ms) =
                  EvSetMetric (metric_pos m) pos v
                    :: set_events orig_ref patches pos ms).
    { unfold set_events. simpl. by rewrite Hcalc. }
    exists lists'. rewrite Hev. simpl. unfold bind.
    rewrite score_metric_run, Hcalc, Hset, Hrun. split.
    + by rewrite <- app_assoc.
    + by rewrite Hlen.
Qed.
End ScoreFacts.

(** ** The job of the second pool *)

Section JobFacts.
Context `{Collaborators}.
Implicit Types (lists : metric_lists) (tr : list event)
  (bpp_proxy : nat → list pyval).

(** The name under which the image of [orig_path] is saved in [folder]. *)
Lemma get_out_pathname_png orig_path folder :
  get_out_pathname orig_path (Some folder) ".png" =
    inr (folder ++ [String.append (path_stem orig_path) ".png"]).
Proof. reflexivity. Qed.

(** The [try] block, phase by phase. *)
Lemma save_imgs_try_block_run fuel orig_path save_folder patches bpp_proxy
    pos color lists tr :
  save_imgs_try_block fuel orig_path save_folder patches bpp_proxy pos color
    lists tr =
  match load_image orig_path color with
  | inl e => (Raised e, lists, tr ++ [EvLoadImage orig_path])
  | inr orig_ref =>
      match for_each Metrics (score_metric orig_ref patches pos) lists
              (tr ++ [EvLoadImage orig_path]) with
      | (Normal _, l1, t1) =>
          match wait_bpp fuel bpp_proxy orig_path pos 0 0 l1 t1 with
          | (Normal _, l2, t2) =>
              match save_folder with
              | None => (Raised TypeError, l2, t2)
              | Some folder =>
                  let p := folder
                    ++ [String.append (path_stem orig_path) ".png"] in
                  match save_img patches p color with
                  | None => (Normal tt, l2, t2 ++ [EvSaveImg p true])
                  | Some e => (Raised e, l2, t2 ++ [EvSaveImg p false])
                  end
              end
          | (Raised e, l2, t2) => (Raised e, l2, t2)
          | (Returned, l2, t2) => (Returned, l2, t2)
          | (Spinning, l2, t2) => (Spinning, l2, t2)
          end
      | (Raised e, l1, t1) => (Raised e, l1, t1)
      | (Returned, l1, t1) => (Returned, l1, t1)
      | (Spinning, l1, t1) => (Spinning, l1, t1)
      end
  end.
Proof.
  unfold save_imgs_try_block, call_load_image.
  unfold bind at 1. unfold bind at 1. unfold emit at 1.
  destruct (load_image orig_path color) as [e|orig_ref]; simpl; [done|].
  unfold bind at 1.
  destruct (for_each Metrics _ lists _) as [[[[]| | |] l1] t1]; try done.
  unfold bind at 1.
  destruct (wait_bpp fuel _ _ _ _ _ l1 t1) as [[[[]| | |] l2] t2]; try done.
  destruct save_folder as [folder|]; simpl; [|done].
  unfold bind, ret, call_save_img. simpl.
  unfold path_div.
  destruct (save_img patches _ color); unfold bind, emit, raise; done.
Qed.

(** The job outside its [try] block: what the block raises is logged and
    the job returns; only running out of fuel is passed on. *)
Lemma save_imgs_from_patches_run fuel orig_path save_folder patches
    bpp_proxy pos color lists tr :
  _save_imgs_from_patches fuel orig_path save_folder patches bpp_proxy pos
    color lists tr =
  match save_imgs_try_block fuel orig_path save_folder patches bpp_proxy
          pos color lists tr with
  | (Normal _, l, t) => (Normal tt, l, t)
  | (Raised e, l, t) => (Normal tt, l, t ++ [EvPrintExc e])
  | (Returned, l, t) => (Normal tt, l, t)
  | (Spinning, l, t) => (Spinning, l, t)
  end.
Proof.
  unfold _save_imgs_from_patches, def_body, try_except, print_exc, emit.
  by destruct (save_imgs_try_block _ _ _ _ _ _ _ lists tr)
    as [[[[]| | |] l] t].
Qed.

Lemma set_events_are_sets orig_ref patches pos ms :
  Forall (is_set_at pos) (set_events orig_ref patches pos ms).
Proof.
  unfold set_events. induction ms as [|m ms IH]; simpl; [constructor|].
  destruct (calc_metric orig_ref patches m); [done|].
  constructor; [|done]. by eexists _, _.
Qed.

Lemma metric_writes_app (log1 log2 : list event) :
  metric_writes (log1 ++ log2) = metric_writes log1 ++ metric_writes log2.
Proof. unfold metric_writes. apply omap_app. Qed.

Lemma metric_writes_none (log : list event) :
  Forall (λ ev, is_set_metric ev = false) log → metric_writes log = [].
Proof.
  unfold metric_writes. induction 1 as [|ev log Hev _ IH]; [done|].
  destruct ev; try done; cbn; exact IH.
Qed.

(** Every run of the job leaves a log of the shape of [job_shape], whose
    metric assignments are those of a first part of the metrics, in
    order. *)
Lemma job_log_anatomy fuel orig_path save_folder patches bpp_proxy pos color
    lists :
  ∃ o lists' sets vs tail done rest,
    _save_imgs_from_patches fuel orig_path save_folder patches bpp_proxy pos
      color lists [] =
      (o, lists',
       EvLoadImage orig_path :: sets ++ poll_events pos vs ++ tail) ∧
    Forall (is_set_at pos) sets ∧
    Forall empty_value vs ∧
    job_tail orig_path save_folder pos o tail ∧
    Metrics = done ++ rest ∧
    metric_writes sets = List.map (λ m, (metric_pos m, pos)) done.
Proof.
  rewrite save_imgs_from_patches_run, save_imgs_try_block_run. simpl.
  destruct (load_image orig_path color) as [e|orig_ref].
  { exists (Normal tt), lists, [], [], [EvPrintExc e], [], Metrics.
    split_and!; try done. constructor. }
  destruct (score_loop_spec orig_ref patches pos Metrics lists
              [EvLoadImage orig_path])
    as (o & l1 & done & rest & -> & Hms & Hend & _ & _ & _ & _ & Hwrites).
  pose proof (set_events_are_sets orig_ref patches pos done) as Hsets.
  destruct Hend as [[-> _]|(e & -> & _)]; simpl.
  2:{ exists (Normal tt), l1, (set_events orig_ref patches pos done), [],
        [EvPrintExc e], done, rest.
      split_and!; try done. constructor. }
  destruct (wait_bpp_anatomy fuel bpp_proxy orig_path pos 0 0 l1
              (EvLoadImage orig_path
                 :: set_events orig_ref patches pos done))
    as (o & vs & tail & -> & Hvs & Hend); [lia|].
  destruct Hend as [(-> & -> & _)|[(-> & ->)|(v & -> & -> & Hv)]].
  - exists Spinning, l1, (set_events orig_ref patches pos done), vs, [],
      done, rest.
    split_and!; try done. constructor.
  - exists (Normal tt), l1, (set_events orig_ref patches pos done), vs,
      [EvPrintExc IndexError], done, rest.
    split_and!; try done; [|constructor].
    simpl. by rewrite <- !app_assoc.
  - destruct save_folder as [folder|].
    + simpl. destruct (save_img patches _ color) as [e|].
      * eexists (Normal tt), l1, (set_events orig_ref patches pos done), vs,
          _, done, rest.
        split_and!; try done; [|by eapply (TailSaveFailed _ _ _ v folder e)].
        simpl. by rewrite <- !app_assoc.
      * eexists (Normal tt), l1, (set_events orig_ref patches pos done), vs,
          _, done, rest.
        split_and!; try done; [|by eapply (TailSaved _ _ _ v folder)].
        simpl. by rewrite <- !app_assoc.
    + eexists (Normal tt), l1, (set_events orig_ref patches pos done), vs,
        _, done, rest.
      split_and!; try done; [|by eapply (TailNoFolder _ _ _ v)].
      simpl. by rewrite <- !app_assoc.
Qed.

Lemma job_has_shape fuel orig_path save_folder patches bpp_proxy pos color
    lists :
  ∃ o lists' log,
    _save_imgs_from_patches fuel orig_path save_folder patches bpp_proxy pos
      color lists [] = (o, lists', log) ∧
    job_shape orig_path save_folder pos o log.
Proof.
  destruct (job_log_anatomy fuel orig_path save_folder patches bpp_proxy pos
              color lists)
    as (o & l & sets & vs & tail & done & rest & Hrun & ? & ? & ? & _).
  eexists o, l, _. split; [exact Hrun|]. by exists sets, vs, tail.
Qed.
End JobFacts.

(** ** Reading the log of a job *)

Section LogFacts.
Implicit Types (log sets : list event) (vs : list pyval).

Lemma filter_none (f : event → bool) log :
  Forall (λ ev, f ev = false) log → List.filter f log = [].
Proof.
  induction 1 as [|ev log Hev _ IH]; simpl; [done|]. by rewrite Hev.
Qed.

Lemma prefix_quiet (f : event → bool) orig_path pos sets vs :
  f (EvLoadImage orig_path) = false →
  (∀ i v, f (EvSetMetric i pos v) = false) →
  (∀ v, f (EvCheckBpp pos v) = false) →
  (∀ s, f (EvSleep s) = false) →
  Forall (is_set_at pos) sets →
  Forall (λ ev, f ev = false)
    (EvLoadImage orig_path :: sets ++ poll_events pos vs).
Proof.
  intros Hload Hset Hcheck Hsleep Hsets. constructor; [done|].
  apply Forall_app. split.
  - eapply Forall_impl; [exact Hsets|]. by intros ev (i & v & ->).
  - unfold poll_events. induction vs as [|v vs IH]; simpl; [constructor|].
    by repeat constructor.
Qed.

Lemma filter_prefix (f : event → bool) orig_path pos sets vs tail :
  f (EvLoadImage orig_path) = false →
  (∀ i v, f (EvSetMetric i pos v) = false) →
  (∀ v, f (EvCheckBpp pos v) = false) →
  (∀ s, f (EvSleep s) = false) →
  Forall (is_set_at pos) sets →
  List.filter f (EvLoadImage orig_path :: sets ++ poll_events pos vs ++ tail)
    = List.filter f tail.
Proof.
  intros. rewrite app_assoc, app_comm_cons, List.filter_app.
  rewrite filter_none; [done|]. by apply prefix_quiet.
Qed.

Lemma omap_app_artifacts log1 log2 :
  artifacts (log1 ++ log2) = artifacts log1 ++ artifacts log2.
Proof. unfold artifacts. apply omap_app. Qed.

Lemma artifacts_none log :
  Forall (λ ev, is_save_img ev = false) log → artifacts log = [].
Proof.
  unfold artifacts. induction 1 as [|ev log Hev _ IH]; [done|].
  destruct ev; try done; cbn; exact IH.
Qed.

(** Whatever the run, the log of the job holds no timeout message. *)
Lemma job_shape_no_timeout orig_path save_folder pos o log :
  job_shape orig_path save_folder pos o log →
  List.filter is_timeout_msg log = [].
Proof.
  intros (sets & vs & tail & -> & Hsets & _ & Htail).
  rewrite filter_prefix by done. by destruct Htail.
Qed.

(** The log holds at most one call of [save_img]. *)
Lemma job_shape_saves orig_path save_folder pos o log :
  job_shape orig_path save_folder pos o log →
  List.filter is_save_img log = [] ∨
  ∃ ok folder, save_folder = Some folder ∧
    List.filter is_save_img log =
      [EvSaveImg (folder ++ [String.append (path_stem orig_path) ".png"]) ok].
Proof.
  intros (sets & vs & tail & -> & Hsets & _ & Htail).
  rewrite filter_prefix by done.
  destruct Htail; simpl; eauto.
Qed.

(** A call of [save_img] in the log comes right after a check that found
    a value, and names the file after the image. *)
Lemma job_shape_save_after_check orig_path save_folder pos o log p ok :
  job_shape orig_path save_folder pos o log →
  EvSaveImg p ok ∈ log →
  ∃ before after v folder,
    log = before ++ EvCheckBpp pos v :: EvSaveImg p ok :: after ∧
    py_truth v = true ∧ save_folder = Some folder ∧
    p = folder ++ [String.append (path_stem orig_path) ".png"].
Proof.
  intros (sets & vs & tail & -> & Hsets & Hvs & Htail) Hin.
  assert (Hquiet : Forall (λ ev, is_save_img ev = false)
            (EvLoadImage orig_path :: sets ++ poll_events pos vs))
    by (by apply prefix_quiet).
  rewrite app_assoc, app_comm_cons in Hin |- *.
  apply elem_of_app in Hin as [Hin|Hin].
  { rewrite Forall_forall in Hquiet. by apply Hquiet in Hin. }
  destruct Htail as [e| |v Hv Hf|v folder Hv Hf|v folder e Hv Hf];
    repeat (apply elem_of_cons in Hin as [Hin|Hin]; try done);
    try (by apply elem_of_nil in Hin);
    injection Hin as -> ->.
  - by eexists _, [], v, folder.
  - by eexists _, [EvPrintExc e], v, folder.
Qed.
End LogFacts.

(** ** The wait of the job never gives up *)

Section WaitForever.
Context `{Collaborators}.
Implicit Types (lists : metric_lists) (bpp_proxy : nat → list pyval).

Lemma sleeps_of_polls pos vs :
  length (List.filter is_sleep (poll_events pos vs)) = length vs.
Proof. induction vs as [|v vs IH]; simpl; [done|]. by rewrite IH. Qed.

Lemma polls_save_nothing pos vs :
  Forall (λ ev, is_save_img ev = false) (poll_events pos vs).
Proof. induction vs; simpl; repeat constructor; done. Qed.

Lemma sets_save_nothing orig_ref patches pos ms :
  Forall (λ ev, is_save_img ev = false) (set_events orig_ref patches pos ms).
Proof.
  eapply Forall_impl; [apply set_events_are_sets|]. by intros ev (i & v & ->).
Qed.

Lemma sets_sleep_nothing orig_ref patches pos ms :
  List.filter is_sleep (set_events orig_ref patches pos ms) = [].
Proof.
  apply filter_none. eapply Forall_impl; [apply set_events_are_sets|].
  by intros ev (i & v & ->).
Qed.

(** No run of the job logs a timeout message: the branch that would is
    never taken. *)
Lemma save_imgs_never_logs_timeout fuel orig_path save_folder patches
    bpp_proxy pos color lists :
  List.filter is_timeout_msg
    (_save_imgs_from_patches fuel orig_path save_folder patches bpp_proxy
       pos color lists []).2 = [].
Proof.
  destruct (job_has_shape fuel orig_path save_folder patches bpp_proxy pos
              color lists) as (o & l & log & -> & Hshape).
  by eapply job_shape_no_timeout.
Qed.

(** The sibling loop of [_save_metric_plot] does give up: with its metric
    cell written and its size-proxy cell never written it logs the timeout
    at the 101st sleep and returns. *)
Lemma wait_plot_times_out d fuel curr_metric curr_bpp img_path pos n cont
    lists tr :
  (∀ k, ∃ v, curr_metric k !! pos = Some v ∧ py_truth v = true) →
  (∀ k, curr_bpp k !! pos = Some PyNone) →
  cont = (100 - Z.of_nat d)%Z → d < fuel →
  wait_plot fuel curr_metric curr_bpp img_path pos n cont lists tr =
    (Returned, lists,
     tr ++ poll_events pos (replicate (S d) PyNone)
        ++ [EvTimeoutMsg "_save_metric_plot" img_path]).
Proof.
  intros Hm Hb. revert fuel n cont tr.
  induction d as [|d IH]; intros fuel n cont tr -> Hd;
    (destruct fuel as [|fuel]; [lia|]);
    destruct (Hm n) as (v & Hv & Ht); simpl;
    unfold bind at 1; rewrite Hv; simpl;
    unfold bind at 1; unfold py_not at 1; rewrite Ht; simpl;
    unfold bind at 1; unfold check_bpp; rewrite Hb; simpl;
    unfold bind, emit, ret, sleep, _timeout_msg, return_, emit; simpl.
  - by rewrite <- !app_assoc.
  - destruct (Z.gtb_spec (100 - Z.of_nat (S d) + 1) 100) as [|_]; [lia|].
    rewrite (IH fuel (S n) (100 - Z.of_nat (S d) + 1)%Z) by lia.
    by rewrite <- !app_assoc.
Qed.

(** C1: the wait of [_save_imgs_from_patches] does not end at a retry
    ceiling. Its counter [cont] is never incremented, so when the image and
    the metrics are fine and every check finds the size-proxy cell empty,
    the job is still waiting after any number [fuel] of checks: it has
    slept [fuel] times, logged no timeout message, saved no image, and has
    not returned. *)
Theorem save_imgs_wait_never_gives_up fuel orig_path save_folder patches
    bpp_proxy pos color lists orig_ref :
  load_image orig_path color = inr orig_ref →
  Forall (λ m, ∃ v cells,
            calc_metric orig_ref patches m = inr v ∧
            lists !! metric_pos m = Some cells ∧ pos < length cells)
         Metrics →
  (∀ k, ∃ v, bpp_proxy k !! pos = Some v ∧ py_truth v = false) →
  ∃ lists' log,
    _save_imgs_from_patches fuel orig_path save_folder patches bpp_proxy pos
      color lists [] = (Spinning, lists', log) ∧
    List.filter is_timeout_msg log = [] ∧
    length (List.filter is_sleep log) = fuel ∧
    artifacts log = [].
Proof.
  intros Hload Hmetrics Hnever.
  rewrite save_imgs_from_patches_run, save_imgs_try_block_run, Hload.
  destruct (score_loop_succeeds orig_ref patches pos Metrics lists
              ([] ++ [EvLoadImage orig_path])) as (l1 & -> & _).
  { by apply Forall_forall. }
  rewrite wait_bpp_never_written by done.
  eexists _, _. split; [done|]. simpl. split_and!.
  - rewrite !List.filter_app.
    rewrite !filter_none; [done| |].
    + induction (List.map _ _); simpl; repeat constructor; done.
    + eapply Forall_impl; [apply set_events_are_sets|].
      by intros ev (i & v & ->).
  - rewrite List.filter_app, sets_sleep_nothing. simpl.
    by rewrite sleeps_of_polls, List.length_map, length_seq.
  - apply artifacts_none. apply Forall_app.
    split; [apply sets_save_nothing|apply polls_save_nothing].
Qed.

End WaitForever.

Lemma save_imgs_wait_never_gives_up_witness :
  ∃ lists' log,
    _save_imgs_from_patches (H := demo ["net"] true) 250
      ["data"; "kodim01.bmp"] (Some ["out"; "test"]) 3
      (λ _, [PyNone]) 0 "RGB" [[PyNone]; [PyNone]] []
      = (Spinning, lists', log) ∧
    List.filter is_timeout_msg log = [] ∧
    length (List.filter is_sleep log) = 250 ∧
    artifacts log = [].
Proof.
  apply (save_imgs_wait_never_gives_up (H := demo ["net"] true) 250
           ["data"; "kodim01.bmp"] (Some ["out"; "test"]) 3
           (λ _, [PyNone]) 0 "RGB" [[PyNone]; [PyNone]]
           ["data"; "kodim01.bmp"]).
  - reflexivity.
  - repeat constructor; eexists _, _; split_and!;
      [reflexivity|reflexivity|simpl; lia|reflexivity|reflexivity|simpl; lia].
  - intros k. exists PyNone. split; reflexivity.
Defined.


(** ** The emptiness test of the wait *)

(** One evaluation of the condition of the wait: the test is Python's
    truth value of the cell. A check that finds a true value ends the
    wait, a check that finds a false one is followed by a sleep and
    another check. *)
Lemma wait_bpp_step fuel bpp_proxy orig_path pos n lists tr v :
  bpp_proxy n !! pos = Some v →
  wait_bpp (S fuel) bpp_proxy orig_path pos n 0 lists tr =
    (if py_truth v
     then (Normal tt, lists, tr ++ [EvCheckBpp pos v])
     else wait_bpp fuel bpp_proxy orig_path pos (S n) 0 lists
            (tr ++ [EvCheckBpp pos v; EvSleep 1])).
Proof.
  intros Hv. destruct (py_truth v) eqn:Ht.
  - by apply wait_bpp_proceeds.
  - by apply wait_bpp_retries.
Qed.

Section EmptyCells.
Context `{Collaborators}.
Implicit Types (bpp_proxy : nat → list pyval) (lists : metric_lists)
  (tr : list event).

(** A list of level values with at least one level is true in Python,
    whatever the values. *)
Lemma float_cell_truth (fs : list float) :
  fs ≠ [] → py_truth (float_cell fs) = true.
Proof. by destruct fs. Qed.

Lemma observed_unwritten bpp_proxy pos n d :
  (∀ k, n ≤ k < n + d → bpp_proxy k !! pos = Some PyNone) →
  List.map (observed bpp_proxy pos) (seq n d) = replicate d PyNone.
Proof.
  revert n. induction d as [|d IH]; intros n Hnone; [done|].
  cbn [seq List.map replicate]. unfold observed at 1.
  rewrite Hnone by lia. cbn [default]. f_equal.
  apply IH. intros k Hk. apply Hnone. lia.
Qed.

(** C2: a cell of the size-proxy table starts as [None], and the value
    written into it is a list of one float per level, with at least one
    level. The test of the wait tells the two apart: as long as the
    checks find [None] each is followed by a sleep, and the first check
    that finds the written list ends the wait on the path that saves the
    image, whatever the floats are, zero included. Among the values that a
    cell takes, [None] is the only one that the test takes for empty. *)
Theorem written_value_ends_the_wait fuel bpp_proxy orig_path pos n d lists
    tr fs :
  fs ≠ [] →
  (∀ k, n ≤ k < n + d → bpp_proxy k !! pos = Some PyNone) →
  bpp_proxy (n + d) !! pos = Some (float_cell fs) →
  d < fuel →
  wait_bpp fuel bpp_proxy orig_path pos n 0 lists tr =
    (Normal tt, lists,
     tr ++ poll_events pos (replicate d PyNone)
        ++ [EvCheckBpp pos (float_cell fs)]) ∧
  float_cell fs ≠ PyNone ∧
  py_not (float_cell fs) = false ∧
  py_not PyNone = true ∧
  (∀ v, v = PyNone ∨ (∃ gs, gs ≠ [] ∧ v = float_cell gs) →
        py_not v = true ↔ v = PyNone) ∧
  (∀ var_len c i v,
     (_instantiate_shared_variables var_len).1 !! c ≫= (.!! i) = Some v →
     v = PyNone).
Proof.
  intros Hfs Hbefore Hwritten Hfuel.
  pose proof (float_cell_truth fs Hfs) as Htrue.
  split_and!.
  - rewrite (wait_bpp_written fuel bpp_proxy orig_path pos n d lists tr
               (float_cell fs)); [|..|done|done|done].
    + by rewrite observed_unwritten.
    + intros k Hk. exists PyNone. by rewrite Hbefore.
  - done.
  - unfold py_not. by rewrite Htrue.
  - done.
  - intros v [->|(gs & Hgs & ->)]; [done|].
    unfold py_not. rewrite (float_cell_truth gs Hgs). by split.
  - intros var_len c i v. cbn [_instantiate_shared_variables fst].
    destruct (replicate _ _ !! c) as [row|] eqn:Hrow; [|done].
    apply lookup_replicate in Hrow as [-> _]. cbn [mbind option_bind].
    intros Hcell. by apply lookup_replicate in Hcell as [-> _].
Qed.
End EmptyCells.

Lemma written_value_ends_the_wait_witness :
  let bpp_proxy : nat → list pyval :=
    λ k, if decide (k < 2) then [PyNone] else [float_cell [0%float]] in
  wait_bpp 3 bpp_proxy ["img.png"] 0 0 0 [] [] =
    (Normal tt, [],
     [] ++ poll_events 0 (replicate 2 PyNone)
        ++ [EvCheckBpp 0 (float_cell [0%float])]) ∧
  float_cell [0%float] ≠ PyNone ∧
  py_not (float_cell [0%float]) = false ∧
  py_not PyNone = true ∧
  (∀ v, v = PyNone ∨ (∃ gs, gs ≠ [] ∧ v = float_cell gs) →
        py_not v = true ↔ v = PyNone) ∧
  (∀ var_len c i v,
     (_instantiate_shared_variables (H := demo ["net"] true) var_len).1
       !! c ≫= (.!! i) = Some v →
     v = PyNone).
Proof.
  apply (written_value_ends_the_wait (H := demo ["net"] true) 3
           (λ k, if decide (k < 2) then [PyNone] else [float_cell [0%float]])
           ["img.png"] 0 0 2 [] [] [0%float]).
  - done.
  - intros k Hk. destruct (decide (k < 2)); [done|lia].
  - reflexivity.
  - lia.
Defined.

(** ** The saving of the image *)

Section SavingFacts.
Context `{Collaborators}.
Implicit Types (lists : metric_lists) (bpp_proxy : nat → list pyval).

End SavingFacts.


Section JobOutcomes.
Context `{Collaborators}.
Implicit Types (lists : metric_lists) (bpp_proxy : nat → list pyval).

Lemma scored_by_more orig_ref patches pos done rest lists lists' :
  scored_by orig_ref patches pos done lists lists' →
  scored_by orig_ref patches pos (done ++ rest) lists lists'.
Proof.
  intros Hby i j. destruct (Hby i j) as [?|(-> & m & v & Hm & ?)]; [by left|].
  right. split; [done|]. exists m, v. split; [|done].
  apply elem_of_app. by left.
Qed.

(** The metric loop logs the same events after any log. *)
Lemma score_loop_frame orig_ref patches pos ms lists tr :
  for_each ms (score_metric orig_ref patches pos) lists tr =
    (let '(o, l, t) :=
       for_each ms (score_metric orig_ref patches pos) lists [] in
     (o, l, tr ++ t)).
Proof.
  revert lists tr. induction ms as [|m ms IH]; intros lists tr; simpl.
  - unfold ret. by rewrite app_nil_r.
  - unfold bind. rewrite !score_metric_run.
    destruct (calc_metric orig_ref patches m) as [e|v].
    { by rewrite app_nil_r. }
    destruct (set_cell lists (metric_pos m) pos v) as [e|lists1].
    { by rewrite app_nil_r. }
    rewrite (IH lists1 (tr ++ _)), (IH lists1 ([] ++ _)).
    destruct (for_each ms _ lists1 []) as [[o l] t]. simpl.
    by rewrite <- app_assoc.
Qed.

Lemma job_shape_artifacts orig_path save_folder pos o log :
  job_shape orig_path save_folder pos o log →
  artifacts log = [] ∨ ∃ p, last log = Some (EvSaveImg p true).
Proof.
  intros (sets & vs & tail & -> & Hsets & _ & Htail).
  assert (Hquiet : artifacts
            (EvLoadImage orig_path :: sets ++ poll_events pos vs) = []).
  { apply artifacts_none. by apply prefix_quiet. }
  rewrite app_assoc, app_comm_cons, omap_app_artifacts, Hquiet.
  destruct Htail; simpl; auto.
  right. eexists.
  match goal with
  | |- last (?x :: ?l ++ [?a; ?b]) = _ =>
      replace (x :: l ++ [a; b]) with ((x :: l ++ [a]) ++ [b])
        by (simpl; by rewrite <- app_assoc)
  end.
  apply last_snoc.
Qed.

(** An exception raised inside the [try] block of the job is caught at
    the boundary of the job: the job logs it and returns normally, so no
    run of the job passes an exception on to the pool. No image file has
    been written to the end, and every cell of the metric lists is either
    as the job found it or holds the whole value computed for a metric at
    the position of the job: no cell holds part of a value. *)
Theorem exceptions_are_caught_in_the_job fuel orig_path save_folder patches
    bpp_proxy pos color lists :
  (∀ e,
     (_save_imgs_from_patches fuel orig_path save_folder patches bpp_proxy
        pos color lists []).1.1 ≠ Raised e) ∧
  (∀ e l t,
     save_imgs_try_block fuel orig_path save_folder patches bpp_proxy pos
       color lists [] = (Raised e, l, t) →
     _save_imgs_from_patches fuel orig_path save_folder patches bpp_proxy
       pos color lists [] = (Normal tt, l, t ++ [EvPrintExc e]) ∧
     artifacts (t ++ [EvPrintExc e]) = [] ∧
     ((∀ i j, cell l i j = cell lists i j) ∨
      ∃ orig_ref,
        load_image orig_path color = inr orig_ref ∧
        scored_by orig_ref patches pos Metrics lists l)).
Proof.
  split.
  { intros e. rewrite save_imgs_from_patches_run.
    by destruct (save_imgs_try_block _ _ _ _ _ _ _ lists [])
      as [[[[]| | |] l] t]. }
  intros e l t Htry.
  assert (Hjob : _save_imgs_from_patches fuel orig_path save_folder patches
            bpp_proxy pos color lists [] = (Normal tt, l, t ++ [EvPrintExc e])).
  { by rewrite save_imgs_from_patches_run, Htry. }
  split_and!; [done| |].
  - destruct (job_has_shape fuel orig_path save_folder patches bpp_proxy pos
                color lists) as (o & l' & log & Hrun & Hshape).
    rewrite Hjob in Hrun. injection Hrun as <- <- <-.
    destruct (job_shape_artifacts _ _ _ _ _ Hshape) as [|[p Hlast]]; [done|].
    by rewrite last_snoc in Hlast.
  - rewrite save_imgs_try_block_run in Htry.
    destruct (load_image orig_path color) as [e0|orig_ref].
    { injection Htry as _ <- _. by left. }
    right. exists orig_ref. split; [done|].
    destruct (score_loop_spec orig_ref patches pos Metrics lists
                ([] ++ [EvLoadImage orig_path]))
      as (o & l1 & done & rest & Hrun & -> & Hend & _ & _ & Hby & _).
    rewrite Hrun in Htry. apply scored_by_more.
    destruct Hend as [[-> _]|(e1 & -> & _)].
    2:{ by injection Htry as _ <- _. }
    destruct (wait_bpp_anatomy fuel bpp_proxy orig_path pos 0 0 l1
                (([] ++ [EvLoadImage orig_path])
                   ++ set_events orig_ref patches pos done))
      as (o & vs & tail & Hwait & _ & Hend); [lia|].
    rewrite Hwait in Htry.
    destruct Hend as [(-> & _)|[(-> & _)|(v & -> & _)]]; try done.
    + by injection Htry as _ <- _.
    + destruct save_folder as [folder|].
      * simpl in Htry. destruct (save_img patches _ color); [|done].
        by injection Htry as _ <- _.
      * by injection Htry as _ <- _.
Qed.

Lemma polls_set_nothing pos vs :
  Forall (λ ev, is_set_metric ev = false) (poll_events pos vs).
Proof.
  induction vs as [|v vs IH]; simpl; [constructor|]. by repeat constructor.
Qed.

(** After a metric loop that ended normally the job assigns no cell: the
    lists stay as the loop left them and the rest of the log holds no
    assignment. *)
Lemma job_after_scoring fuel orig_path save_folder
    patches bpp_proxy pos color lists orig_ref l1 t1 :
  load_image orig_path color = inr orig_ref →
  for_each Metrics (score_metric orig_ref patches pos) lists [] =
    (Normal tt, l1, t1) →
  let r := _save_imgs_from_patches fuel orig_path save_folder patches
             bpp_proxy pos color lists [] in
  r.1.2 = l1 ∧
  ∃ rest,
    r.2 = EvLoadImage orig_path :: t1 ++ rest ∧
    Forall (λ ev, is_set_metric ev = false) rest.
Proof.
  intros Hload Hloop r.
  subst r. rewrite save_imgs_from_patches_run, save_imgs_try_block_run, Hload.
  rewrite score_loop_frame, Hloop. cbn [app].
  destruct (wait_bpp_anatomy fuel bpp_proxy orig_path pos 0 0 l1
              (EvLoadImage orig_path :: t1))
    as (o & vs & tail & -> & _ & Hend); [lia|].
  pose proof (polls_set_nothing pos vs) as Hpolls.
  split.
  - destruct Hend as [(-> & _)|[(-> & _)|(v & -> & _)]]; try done.
    destruct save_folder; [|done]. simpl.
    by destruct (save_img patches _ color).
  - destruct Hend as [(-> & -> & _)|[(-> & ->)|(v & -> & -> & _)]].
    + eexists. split; [reflexivity|].
      rewrite app_nil_r. done.
    + eexists. cbn [fst snd]. split.
      * rewrite app_nil_r. cbn [app]. by rewrite <- app_assoc.
      * apply Forall_app. split; [done|]. by repeat constructor.
    + destruct save_folder as [folder|]; cbn [fst snd].
      * cbv zeta. destruct (save_img patches _ color); cbn [fst snd].
        -- eexists. split.
           ++ cbn [app]. by rewrite <- !app_assoc.
           ++ apply Forall_app. split; [done|]. by repeat constructor.
        -- eexists. split.
           ++ cbn [app]. by rewrite <- !app_assoc.
           ++ apply Forall_app. split; [done|]. by repeat constructor.
      * eexists. split.
        -- cbn [app]. by rewrite <- !app_assoc.
        -- apply Forall_app. split; [done|]. by repeat constructor.
Qed.

(** C10: when the image loads and the metric loop ends normally, the job
    has written the cell of every metric before it first looks at the
    size-proxy cell, and nothing it does afterwards changes a cell:
    however the wait and the saving of the image end, or if they never
    end, the metric lists are as the loop left them, each cell of the job
    holding a computed value. *)
Theorem metrics_are_written_before_the_wait fuel orig_path save_folder
    patches bpp_proxy pos color lists orig_ref l1 t1 :
  load_image orig_path color = inr orig_ref →
  for_each Metrics (score_metric orig_ref patches pos) lists [] =
    (Normal tt, l1, t1) →
  let r := _save_imgs_from_patches fuel orig_path save_folder patches
             bpp_proxy pos color lists [] in
  r.1.2 = l1 ∧
  all_scored orig_ref patches pos Metrics l1 ∧
  t1 = set_events orig_ref patches pos Metrics ∧
  length t1 = length Metrics ∧
  ∃ rest,
    r.2 = EvLoadImage orig_path :: t1 ++ rest ∧
    Forall (λ ev, is_set_metric ev = false) rest.
Proof.
  intros Hload Hloop r.
  destruct (score_loop_spec orig_ref patches pos Metrics lists [])
    as (o & l & done & rest & Hrun & Hms & Hend & Hlen & _ & _ & Hall & _).
  rewrite Hloop in Hrun. injection Hrun as <- <- ->.
  destruct Hend as [[_ ->]|(e & ? & _)]; [|done].
  rewrite app_nil_r in Hms. subst done.
  destruct (job_after_scoring fuel orig_path save_folder patches bpp_proxy
              pos color lists orig_ref l1 _ Hload Hloop)
    as (Hstore & more & Hlog & Hmore).
  split_and!; [exact Hstore|exact Hall|done|exact Hlen|].
  exists more. by split.
Qed.
End JobOutcomes.

Lemma exceptions_are_caught_in_the_job_witness :
  _save_imgs_from_patches (H := demo ["net"] true) 5 ["bad"; "x.png"]
    (Some ["out"]) 3 (λ _, [PyNone]) 0 "RGB" [[PyNone]; [PyNone]] [] =
    (Normal tt, [[PyList [PyFloat 3]]; [PyNone]],
     [EvLoadImage ["bad"; "x.png"]; EvSetMetric 0 0 (PyList [PyFloat 3])]
       ++ [EvPrintExc (OtherError "metric")]) ∧
  artifacts
    ([EvLoadImage ["bad"; "x.png"]; EvSetMetric 0 0 (PyList [PyFloat 3])]
       ++ [EvPrintExc (OtherError "metric")]) = [] ∧
  ((∀ i j, cell [[PyList [PyFloat 3]]; [PyNone]] i j
           = cell [[PyNone]; [PyNone]] i j) ∨
   ∃ orig_ref,
     load_image (Collaborators := demo ["net"] true) ["bad"; "x.png"] "RGB"
       = inr orig_ref ∧
     scored_by (H := demo ["net"] true) orig_ref 3 0
       (Metrics (Collaborators := demo ["net"] true))
       [[PyNone]; [PyNone]] [[PyList [PyFloat 3]]; [PyNone]]).
Proof.
  apply (proj2 (exceptions_are_caught_in_the_job (H := demo ["net"] true) 5
                  ["bad"; "x.png"] (Some ["out"]) 3 (λ _, [PyNone]) 0 "RGB"
                  [[PyNone]; [PyNone]])).
  reflexivity.
Defined.

Lemma metrics_are_written_before_the_wait_witness :
  let r := _save_imgs_from_patches (H := demo ["net"] true) 5
             ["data"; "x.png"] None 3 (λ _, [PyNone]) 0 "RGB"
             [[PyNone]; [PyNone]] [] in
  r.1.2 = [[PyList [PyFloat 3]]; [PyList [PyFloat 4]]] ∧
  all_scored (H := demo ["net"] true) ["data"; "x.png"] 3 0
    (Metrics (Collaborators := demo ["net"] true))
    [[PyList [PyFloat 3]]; [PyList [PyFloat 4]]] ∧
  [EvSetMetric 0 0 (PyList [PyFloat 3]); EvSetMetric 1 0 (PyList [PyFloat 4])]
    = set_events (H := demo ["net"] true) ["data"; "x.png"] 3 0
        (Metrics (Collaborators := demo ["net"] true)) ∧
  length [EvSetMetric 0 0 (PyList [PyFloat 3]);
          EvSetMetric 1 0 (PyList [PyFloat 4])]
    = length (Metrics (Collaborators := demo ["net"] true)) ∧
  ∃ rest,
    r.2 = EvLoadImage ["data"; "x.png"]
            :: [EvSetMetric 0 0 (PyList [PyFloat 3]);
                EvSetMetric 1 0 (PyList [PyFloat 4])] ++ rest ∧
    Forall (λ ev, is_set_metric ev = false) rest.
Proof.
  apply (metrics_are_written_before_the_wait (H := demo ["net"] true) 5
           ["data"; "x.png"] None 3 (λ _, [PyNone]) 0 "RGB"
           [[PyNone]; [PyNone]] ["data"; "x.png"]).
  - reflexivity.
  - reflexivity.
Defined.

(** ** The job on a cell that is never written *)

Section TimeoutOutcome.
Context `{Collaborators}.
Implicit Types (lists : metric_lists) (bpp_proxy : nat → list pyval).

(** C6: a timeout of the wait is not among the failures that the job
    catches, logs and returns from. When the image loads, the metrics are
    computed and every check finds the size-proxy cell still [None], the
    [try] block neither raises nor takes the [return] of the timeout
    branch: after any number [fuel] of checks it is still in the loop, and
    so is the job, which has not returned. Its log is the load, the
    assignments of the metrics, and [fuel] checks each followed by a
    sleep: no stack trace and no timeout message is logged. *)
Theorem timeout_is_not_caught_in_the_job fuel orig_path save_folder patches
    bpp_proxy pos color lists orig_ref :
  load_image orig_path color = inr orig_ref →
  Forall (λ m, ∃ v cells,
            calc_metric orig_ref patches m = inr v ∧
            lists !! metric_pos m = Some cells ∧ pos < length cells)
         Metrics →
  (∀ k, bpp_proxy k !! pos = Some PyNone) →
  let body := save_imgs_try_block fuel orig_path save_folder patches
                bpp_proxy pos color lists [] in
  let r := _save_imgs_from_patches fuel orig_path save_folder patches
             bpp_proxy pos color lists [] in
  body.1.1 = Spinning ∧
  r = body ∧
  r.1.1 ≠ Normal tt ∧
  r.2 = EvLoadImage orig_path
          :: set_events orig_ref patches pos Metrics
          ++ poll_events pos (replicate fuel PyNone) ∧
  (∀ e, EvPrintExc e ∉ r.2) ∧
  (∀ function msg, EvTimeoutMsg function msg ∉ r.2).
Proof.
  intros Hload Hmetrics Hnever body r.
  assert (Hbody : body =
    (Spinning,
     body.1.2,
     EvLoadImage orig_path
       :: set_events orig_ref patches pos Metrics
       ++ poll_events pos (replicate fuel PyNone))).
  { subst body. rewrite save_imgs_try_block_run, Hload.
    destruct (score_loop_succeeds orig_ref patches pos Metrics lists
                ([] ++ [EvLoadImage orig_path])) as (l1 & -> & _).
    { by apply Forall_forall. }
    rewrite wait_bpp_never_written.
    2:{ intros k. exists PyNone. by rewrite Hnever. }
    rewrite observed_unwritten by (intros; apply Hnever).
    cbn [fst snd app]. reflexivity. }
  assert (Hr : r = body).
  { subst r. rewrite save_imgs_from_patches_run. fold body.
    by rewrite Hbody. }
  assert (Hquiet : Forall (λ ev, match ev with
                                 | EvPrintExc _ | EvTimeoutMsg _ _ => False
                                 | _ => True
                                 end) r.2).
  { rewrite Hr, Hbody. cbn [snd]. constructor; [done|].
    apply Forall_app. split.
    - eapply Forall_impl; [apply set_events_are_sets|].
      by intros ev (i & v & ->).
    - clear. induction fuel as [|n IH]; [constructor|].
      cbn [replicate poll_events flat_map app]. by repeat constructor. }
  rewrite Forall_forall in Hquiet.
  split_and!.
  - by rewrite Hbody.
  - exact Hr.
  - by rewrite Hr, Hbody.
  - by rewrite Hr, Hbody.
  - intros e He. exact (Hquiet _ He).
  - intros function msg He. exact (Hquiet _ He).
Qed.
End TimeoutOutcome.

Lemma timeout_is_not_caught_in_the_job_witness :
  let body := save_imgs_try_block (H := demo ["net"] true) 120
                ["data"; "kodim01.bmp"] (Some ["out"; "test"]) 3
                (λ _, [PyNone]) 0 "RGB" [[PyNone]; [PyNone]] [] in
  let r := _save_imgs_from_patches (H := demo ["net"] true) 120
             ["data"; "kodim01.bmp"] (Some ["out"; "test"]) 3
             (λ _, [PyNone]) 0 "RGB" [[PyNone]; [PyNone]] [] in
  body.1.1 = Spinning ∧
  r = body ∧
  r.1.1 ≠ Normal tt ∧
  r.2 = EvLoadImage ["data"; "kodim01.bmp"]
          :: set_events (H := demo ["net"] true) ["data"; "kodim01.bmp"] 3 0
               (Metrics (Collaborators := demo ["net"] true))
          ++ poll_events 0 (replicate 120 PyNone) ∧
  (∀ e, EvPrintExc e ∉ r.2) ∧
  (∀ function msg, EvTimeoutMsg function msg ∉ r.2).
Proof.
  apply (timeout_is_not_caught_in_the_job (H := demo ["net"] true) 120
           ["data"; "kodim01.bmp"] (Some ["out"; "test"]) 3
           (λ _, [PyNone]) 0 "RGB" [[PyNone]; [PyNone]]
           ["data"; "kodim01.bmp"]).
  - reflexivity.
  - repeat constructor; eexists _, _; split_and!;
      [reflexivity|reflexivity|simpl; lia|reflexivity|reflexivity|simpl; lia].
  - intros k. reflexivity.
Defined.

(** ** The output coordinator *)

Section CoordinatorFacts.
Context `{Collaborators}.
Implicit Types (imgs : list (list string)) (items q : list payload)
  (tr : list co_event).

Lemma instantiate_shared_variables_rows var_len :
  length (_instantiate_shared_variables var_len).1 = length Codecs ∧
  mt_rows (_instantiate_shared_variables var_len).2 = length Codecs.
Proof. simpl. by rewrite length_replicate. Qed.

Lemma codecs_out_routines_run path img_num bpps metrics data out_folder
    q tr :
  NET_pos < length bpps → NET_pos < mt_rows metrics →
  _codecs_out_routines path img_num bpps metrics data data out_folder q tr =
    (Normal tt, q,
     tr ++ [CoApplyAsync PoolA (CalcBppUsingGzip data path img_num);
            CoApplyAsync PoolB
              (SaveImgsFromPatches path out_folder data img_num)]).
Proof.
  intros Hb Hm. unfold _codecs_out_routines, bpp_row, mt_row.
  destruct (lookup_lt_is_Some_2 bpps NET_pos Hb) as [cells ->].
  destruct (decide (NET_pos < mt_rows metrics)); [|done].
  unfold bind, lift, ret, emit. simpl. by rewrite <- app_assoc.
Qed.

Lemma queue_get_run item q tr :
  queue_get (item :: q) tr = (Normal item, q, tr ++ [CoQueueGet item]).
Proof. reflexivity. Qed.

Lemma output_loop_cons start img imgs bpps metrics out_folder :
  output_loop start (img :: imgs) bpps metrics out_folder =
    bind (if decide (start `mod` 5 = 0) then emit CoGcCollect else ret tt)
      (λ _, bind queue_get (λ model_data,
         bind (_codecs_out_routines img start bpps metrics model_data
                 model_data out_folder)
           (λ _, output_loop (S start) imgs bpps metrics out_folder))).
Proof. reflexivity. Qed.

(** The loop takes one item from the queue per image and submits one call
    to each pool, whatever the items are. *)
Lemma output_loop_run start imgs items rest bpps metrics out_folder tr :
  NET_pos < length bpps → NET_pos < mt_rows metrics →
  length items = length imgs →
  output_loop start imgs bpps metrics out_folder (items ++ rest) tr =
    (Normal tt, rest, tr ++ loop_events out_folder start imgs items).
Proof.
  intros Hb Hm. revert start items tr.
  induction imgs as [|img imgs IH]; intros start [|item items] tr Hlen;
    try done.
  - simpl. unfold ret. by rewrite app_nil_r.
  - simpl in Hlen. injection Hlen as Hlen.
    rewrite output_loop_cons. cbn [loop_events]. unfold iteration_events.
    destruct (decide (start `mod` 5 = 0)).
    + erewrite bind_normal by reflexivity.
      erewrite bind_normal by apply queue_get_run.
      erewrite bind_normal by (by apply codecs_out_routines_run).
      rewrite IH by done. by rewrite <- !app_assoc.
    + erewrite bind_normal by reflexivity.
      erewrite bind_normal by apply queue_get_run.
      erewrite bind_normal by (by apply codecs_out_routines_run).
      rewrite IH by done. by rewrite <- !app_assoc.
Qed.

Lemma loop_events_gets out_folder start imgs items :
  length items = length imgs →
  length (List.filter is_queue_get (loop_events out_folder start imgs items))
    = length imgs.
Proof.
  revert start items. induction imgs as [|img imgs IH];
    intros start [|item items] Hlen; try done.
  simpl in *. injection Hlen as Hlen. unfold iteration_events.
  rewrite !List.filter_app. rewrite !length_app.
  rewrite IH by done. by destruct (decide (start `mod` 5 = 0)).
Qed.

Lemma loop_events_collects out_folder start imgs items :
  length items = length imgs →
  length (List.filter is_gc_collect
            (loop_events out_folder start imgs items))
    = length (List.filter (λ i, bool_decide (i `mod` 5 = 0))
                (seq start (length imgs))).
Proof.
  revert start items. induction imgs as [|img imgs IH];
    intros start [|item items] Hlen; try done.
  simpl in *. injection Hlen as Hlen. unfold iteration_events.
  rewrite !List.filter_app. rewrite !length_app.
  rewrite IH by done.
  destruct (decide (start `mod` 5 = 0)) as [Hd|Hd].
  - by rewrite bool_decide_true.
  - by rewrite bool_decide_false.
Qed.

Lemma submitted_app pool (log1 log2 : list co_event) :
  submitted pool (log1 ++ log2) = submitted pool log1 ++ submitted pool log2.
Proof. unfold submitted. apply omap_app. Qed.

Lemma loop_events_submitted_a out_folder start imgs items :
  length items = length imgs →
  submitted PoolA (loop_events out_folder start imgs items) =
    List.map (λ '(i, (img, item)), CalcBppUsingGzip item img i)
      (zip (seq start (length imgs)) (zip imgs items)).
Proof.
  revert start items. induction imgs as [|img imgs IH];
    intros start [|item items] Hlen; try done.
  simpl in Hlen. injection Hlen as Hlen. cbn [loop_events].
  rewrite submitted_app, IH by done. unfold iteration_events.
  by destruct (decide (start `mod` 5 = 0)).
Qed.

Lemma loop_events_submitted_b out_folder start imgs items :
  length items = length imgs →
  submitted PoolB (loop_events out_folder start imgs items) =
    List.map (λ '(i, (img, item)), SaveImgsFromPatches img out_folder item i)
      (zip (seq start (length imgs)) (zip imgs items)).
Proof.
  revert start items. induction imgs as [|img imgs IH];
    intros start [|item items] Hlen; try done.
  simpl in Hlen. injection Hlen as Hlen. cbn [loop_events].
  rewrite submitted_app, IH by done. unfold iteration_events.
  by destruct (decide (start `mod` 5 = 0)).
Qed.

Lemma handle_output_run out_name exec_mode out_type dirs img_pathnames
    written items rest out_folder :
  (_create_out_folder out_name exec_mode out_type dirs).1 = inr out_folder →
  NET_pos < length Codecs →
  length items = length img_pathnames →
  ∃ r files,
    _handle_output out_name exec_mode out_type dirs img_pathnames written
      (items ++ rest) [] =
      (r, rest,
       loop_events out_folder 0 img_pathnames items
         ++ [CoClose PoolA; CoClose PoolB; CoJoin PoolA; CoJoin PoolB;
             CoReportStart]
         ++ List.map CoWriteCsv files).
Proof.
  intros Hfolder Hnet Hlen. unfold _handle_output.
  unfold bind at 1. rewrite Hfolder. simpl.
  unfold bind at 1.
  rewrite output_loop_run; [|by rewrite length_replicate|done..].
  unfold bind, emit, ret, call_save_out_analysis. simpl.
  destruct (written _) as [bpps metrics].
  destruct (_save_out_analysis img_pathnames out_folder bpps metrics tt [])
    as [[r []] files].
  exists r, files. by rewrite <- !app_assoc.
Qed.
End CoordinatorFacts.

(** ** A run: one turn per image, one writer per cell *)

Section RunFacts.
Context `{Collaborators}.
Implicit Types (imgs : list (list string)) (items : list payload)
  (calls : list job_call).

Lemma closing_events_quiet files :
  List.filter is_queue_get (closing_events files) = [] ∧
  List.filter is_gc_collect (closing_events files) = [] ∧
  (∀ pool, submitted pool (closing_events files) = []).
Proof.
  unfold closing_events. repeat split; try intros pool; simpl;
    induction files as [|f files IH]; simpl; done.
Qed.

Lemma map_call_index_a start imgs items :
  length items = length imgs →
  List.map call_index
    (List.map (λ '(i, (img, item)), CalcBppUsingGzip item img i)
       (zip (seq start (length imgs)) (zip imgs items)))
  = seq start (length imgs).
Proof.
  revert start items. induction imgs as [|img imgs IH];
    intros start [|item items] Hlen; try done.
  simpl in *. injection Hlen as Hlen. by rewrite IH.
Qed.

Lemma map_call_index_b out_folder start imgs items :
  length items = length imgs →
  List.map call_index
    (List.map (λ '(i, (img, item)),
                 SaveImgsFromPatches img out_folder item i)
       (zip (seq start (length imgs)) (zip imgs items)))
  = seq start (length imgs).
Proof.
  revert start items. induction imgs as [|img imgs IH];
    intros start [|item items] Hlen; try done.
  simpl in *. injection Hlen as Hlen. by rewrite IH.
Qed.

(** C5: once the prediction folder is resolved, the coordinator makes one
    turn of its loop for each path of the listing, in order: a collection
    of garbage first when the index is a multiple of 5, then one item
    taken from the queue, whatever the item is, then one call submitted to
    the first pool and one to the second, both with the index and the path
    of the turn. After the last turn it closes both pools, joins both, and
    only then starts the report builder. The queue keeps what was put
    beyond the count of the paths. *)
Theorem handle_output_one_turn_per_image out_name exec_mode out_type dirs
    img_pathnames written items rest out_folder :
  (_create_out_folder out_name exec_mode out_type dirs).1 = inr out_folder →
  NET_pos < length Codecs →
  length items = length img_pathnames →
  ∃ r files,
    let log := loop_events out_folder 0 img_pathnames items
                 ++ closing_events files in
    _handle_output out_name exec_mode out_type dirs img_pathnames written
      (items ++ rest) [] = (r, rest, log) ∧
    length (List.filter is_queue_get log) = length img_pathnames ∧
    submitted PoolA log =
      List.map (λ '(i, (img, item)), CalcBppUsingGzip item img i)
        (zip (seq 0 (length img_pathnames)) (zip img_pathnames items)) ∧
    submitted PoolB log =
      List.map (λ '(i, (img, item)),
                  SaveImgsFromPatches img out_folder item i)
        (zip (seq 0 (length img_pathnames)) (zip img_pathnames items)) ∧
    length (List.filter is_gc_collect log) =
      length (List.filter (λ i, bool_decide (i `mod` 5 = 0))
                (seq 0 (length img_pathnames))).
Proof.
  intros Hfolder Hnet Hlen.
  destruct (handle_output_run out_name exec_mode out_type dirs img_pathnames
              written items rest out_folder Hfolder Hnet Hlen)
    as (r & files & Hrun).
  exists r, files. cbv zeta.
  destruct (closing_events_quiet files) as (Hget & Hgc & Hsub).
  split_and!.
  - exact Hrun.
  - by rewrite List.filter_app, Hget, app_nil_r, loop_events_gets.
  - by rewrite submitted_app, Hsub, app_nil_r, loop_events_submitted_a.
  - by rewrite submitted_app, Hsub, app_nil_r, loop_events_submitted_b.
  - by rewrite List.filter_app, Hgc, app_nil_r, loop_events_collects.
Qed.

(** The cells assigned by one job of the second pool are those of a first
    part of the metrics, at the index of the job. *)
Lemma pool_b_log_writes env call :
  ∃ done rest,
    Metrics = done ++ rest ∧
    metric_writes (pool_b_log env call) =
      List.map (λ m, (metric_pos m, call_index call))
        (match call with
         | SaveImgsFromPatches _ _ _ _ => done
         | CalcBppUsingGzip _ _ _ => []
         end).
Proof.
  destruct call as [data path i|path out_folder patches i]; simpl.
  { by exists [], Metrics. }
  destruct (job_log_anatomy (env_fuel env) path out_folder patches
              (env_bpp env) i "RGB" (env_lists env))
    as (o & l & sets & vs & tail & done & rest & -> & _ & _ & Htail & Hms
        & Hwrites).
  exists done, rest. split; [done|]. simpl.
  change (EvLoadImage path :: sets ++ poll_events i vs ++ tail)
    with ([EvLoadImage path] ++ sets ++ poll_events i vs ++ tail).
  rewrite !metric_writes_app, Hwrites.
  rewrite (metric_writes_none (poll_events i vs))
    by apply polls_set_nothing.
  rewrite (metric_writes_none tail) by (destruct Htail; by repeat constructor).
  simpl. by rewrite app_nil_r.
Qed.

Lemma NoDup_map_fst_pair (l : list nat) (pos : nat) :
  NoDup l → NoDup (List.map (λ i, (i, pos)) l).
Proof.
  induction 1 as [|i l Hi _ IH]; simpl; constructor; [|done].
  intros Hin. apply Hi.
  apply list_elem_of_In, in_map_iff in Hin as (j & [= ->] & Hj).
  by apply list_elem_of_In.
Qed.

Lemma run_metric_writes_index envs k calls w :
  w ∈ run_metric_writes envs k calls →
  w.2 ∈ List.map call_index calls.
Proof.
  revert k. induction calls as [|call calls IH]; intros k Hw; simpl in *.
  { by apply elem_of_nil in Hw. }
  apply elem_of_app in Hw as [Hw|Hw].
  - destruct (pool_b_log_writes (envs k) call) as (done & rest & _ & Heq).
    rewrite Heq in Hw. apply elem_of_cons. left.
    apply list_elem_of_In, in_map_iff in Hw as (m & <- & _). done.
  - apply elem_of_cons. right. by eapply IH.
Qed.

Lemma run_metric_writes_NoDup envs k calls :
  NoDup (List.map metric_pos Metrics) →
  NoDup (List.map call_index calls) →
  NoDup (run_metric_writes envs k calls).
Proof.
  intros Hmetrics. revert k.
  induction calls as [|call calls IH]; intros k Hcalls; simpl.
  { constructor. }
  apply NoDup_cons in Hcalls as [Hhere Hcalls].
  apply NoDup_app. split_and!.
  - destruct (pool_b_log_writes (envs k) call) as (done & rest & Hms & ->).
    rewrite Hms in Hmetrics.
    change (List.map metric_pos (done ++ rest))
      with (metric_pos <$> (done ++ rest)) in Hmetrics.
    rewrite fmap_app in Hmetrics. apply NoDup_app in Hmetrics as (Hd & _).
    destruct call; [constructor|].
    rewrite <- (List.map_map metric_pos (λ i, (i, _))).
    by apply NoDup_map_fst_pair.
  - intros w Hw Hw'. apply run_metric_writes_index in Hw'.
    destruct (pool_b_log_writes (envs k) call) as (done & rest & _ & Heq).
    rewrite Heq in Hw.
    apply list_elem_of_In, in_map_iff in Hw as (m & <- & _). done.
  - by apply IH.
Qed.

Lemma run_bpp_writes_index estimate bpp_proxy calls i :
  i ∈ run_bpp_writes estimate bpp_proxy calls →
  i ∈ List.map call_index calls.
Proof.
  induction calls as [|call calls IH]; simpl; intros Hi.
  { by apply elem_of_nil in Hi. }
  apply elem_of_app in Hi as [Hi|Hi].
  - apply elem_of_cons. left. destruct call as [data path n|]; simpl in *.
    + unfold calc_bpp_using_gzip in Hi. destruct (estimate data path).
      * by apply elem_of_nil in Hi.
      * by apply list_elem_of_singleton in Hi.
    + by apply elem_of_nil in Hi.
  - apply elem_of_cons. right. by apply IH.
Qed.

Lemma run_bpp_writes_NoDup estimate bpp_proxy calls :
  NoDup (List.map call_index calls) →
  NoDup (run_bpp_writes estimate bpp_proxy calls).
Proof.
  induction calls as [|call calls IH]; simpl; intros Hcalls.
  { constructor. }
  apply NoDup_cons in Hcalls as [Hhere Hcalls].
  apply NoDup_app. split_and!.
  - destruct call as [data path n|]; simpl; [|constructor].
    unfold calc_bpp_using_gzip. destruct (estimate data path); simpl.
    + constructor.
    + apply NoDup_singleton.
  - intros i Hi Hi'. apply run_bpp_writes_index in Hi'.
    assert (i = call_index call) as ->; [|done].
    destruct call as [data path n|]; simpl in *.
    + unfold calc_bpp_using_gzip in Hi. destruct (estimate data path).
      * by apply elem_of_nil in Hi.
      * by apply list_elem_of_singleton in Hi.
    + by apply elem_of_nil in Hi.
  - by apply IH.
Qed.
End RunFacts.

Section RunWrites.
Context `{Collaborators}.

Lemma metric_writes_set_events orig_ref patches pos ms :
  Forall (λ m, ∃ v, calc_metric orig_ref patches m = inr v) ms →
  metric_writes (set_events orig_ref patches pos ms) =
    List.map (λ m, (metric_pos m, pos)) ms.
Proof.
  induction 1 as [|m ms (v & Hv) _ IH]; [done|].
  unfold set_events, metric_writes in *. cbn. rewrite Hv. cbn.
  by rewrite IH.
Qed.

(** A job whose image loads and whose metrics are all computed and stored
    assigns the cell of each metric once, in the order of the metrics. *)
Lemma pool_b_log_writes_all env path out_folder patches i orig_ref :
  load_image path "RGB" = inr orig_ref →
  Forall (λ m, ∃ v cells,
            calc_metric orig_ref patches m = inr v ∧
            env_lists env !! metric_pos m = Some cells ∧ i < length cells)
         Metrics →
  metric_writes (pool_b_log env (SaveImgsFromPatches path out_folder patches i))
    = List.map (λ m, (metric_pos m, i)) Metrics.
Proof.
  intros Hload Hok.
  destruct (score_loop_succeeds orig_ref patches i Metrics (env_lists env) [])
    as (l1 & Hloop & _).
  { by apply Forall_forall. }
  destruct (job_after_scoring (env_fuel env) path out_folder patches
              (env_bpp env) i "RGB" (env_lists env) orig_ref l1 _
              Hload Hloop) as (_ & rest & Hlog & Hrest).
  simpl. rewrite Hlog. simpl.
  change (metric_writes
            (EvLoadImage path
               :: set_events orig_ref patches i Metrics ++ rest))
    with (metric_writes (set_events orig_ref patches i Metrics ++ rest)).
  rewrite metric_writes_app, (metric_writes_none rest) by done.
  rewrite app_nil_r. apply metric_writes_set_events.
  eapply Forall_impl; [exact Hok|]. intros m (v & cells & ? & _). eauto.
Qed.

(** C7: over a run the coordinator submits to each pool one call per image
    index, so that, the metrics being stored at different positions, no
    cell of the metric lists is assigned twice by the jobs of the second
    pool, whatever each of them meets, and no size-proxy cell is written
    twice by the jobs of the first pool. A job of the second pool whose
    image loads and whose metrics are computed and stored assigns the cell
    of each metric exactly once. *)
Theorem cells_are_written_at_most_once out_name exec_mode out_type dirs
    img_pathnames written items rest out_folder envs estimate bpp_proxy :
  NoDup (List.map metric_pos Metrics) →
  (_create_out_folder out_name exec_mode out_type dirs).1 = inr out_folder →
  NET_pos < length Codecs →
  length items = length img_pathnames →
  let log := (_handle_output out_name exec_mode out_type dirs img_pathnames
                written (items ++ rest) []).2 in
  List.map call_index (submitted PoolA log) = seq 0 (length img_pathnames) ∧
  List.map call_index (submitted PoolB log) = seq 0 (length img_pathnames) ∧
  NoDup (run_bpp_writes estimate bpp_proxy (submitted PoolA log)) ∧
  NoDup (run_metric_writes envs 0 (submitted PoolB log)) ∧
  (∀ k path folder patches i orig_ref,
     submitted PoolB log !! k =
       Some (SaveImgsFromPatches path folder patches i) →
     load_image path "RGB" = inr orig_ref →
     Forall (λ m, ∃ v cells,
               calc_metric orig_ref patches m = inr v ∧
               env_lists (envs k) !! metric_pos m = Some cells ∧
               i < length cells)
            Metrics →
     metric_writes
       (pool_b_log (envs k) (SaveImgsFromPatches path folder patches i))
       = List.map (λ m, (metric_pos m, i)) Metrics).
Proof.
  intros Hmetrics Hfolder Hnet Hlen log.
  destruct (handle_output_run out_name exec_mode out_type dirs img_pathnames
              written items rest out_folder Hfolder Hnet Hlen)
    as (r & files & Hrun).
  subst log. rewrite Hrun. cbn [snd].
  fold (closing_events files).
  destruct (closing_events_quiet files) as (_ & _ & Hsub).
  rewrite !submitted_app, !Hsub, !app_nil_r.
  rewrite loop_events_submitted_a, loop_events_submitted_b by done.
  rewrite map_call_index_a, map_call_index_b by done.
  split_and!; [done|done| | |].
  - apply run_bpp_writes_NoDup. rewrite map_call_index_a by done.
    apply NoDup_seq.
  - apply run_metric_writes_NoDup; [done|].
    rewrite map_call_index_b by done. apply NoDup_seq.
  - intros k path folder patches i orig_ref _ Hload Hok.
    by eapply pool_b_log_writes_all.
Qed.
End RunWrites.

Lemma handle_output_one_turn_per_image_witness :
  let imgs := [["d"; "a.png"]; ["d"; "b.png"]; ["d"; "c.png"];
               ["d"; "e.png"]; ["d"; "f.png"]; ["d"; "g.png"]] in
  let items : list (@payload (demo ["net"] true)) :=
    [10; 11; 12; 13; 14; 15] in
  ∃ r files,
    let log := loop_events (H := demo ["net"] true)
                 (Some ["out"; "test"]) 0 imgs items
                 ++ closing_events (H := demo ["net"] true) files in
    _handle_output (H := demo ["net"] true) ["out"] TEST RECONSTRUCTION []
      imgs (λ t, t) (items ++ [99]) [] = (r, [99], log) ∧
    length (List.filter is_queue_get log) = length imgs ∧
    submitted PoolA log =
      List.map (λ '(i, (img, item)), CalcBppUsingGzip item img i)
        (zip (seq 0 (length imgs)) (zip imgs items)) ∧
    submitted PoolB log =
      List.map (λ '(i, (img, item)),
                  SaveImgsFromPatches img (Some ["out"; "test"]) item i)
        (zip (seq 0 (length imgs)) (zip imgs items)) ∧
    length (List.filter is_gc_collect log) =
      length (List.filter (λ i, bool_decide (i `mod` 5 = 0))
                (seq 0 (length imgs))).
Proof.
  intros imgs items.
  apply (handle_output_one_turn_per_image (H := demo ["net"] true) ["out"]
           TEST RECONSTRUCTION [] imgs (λ t, t) items [99]
           (Some ["out"; "test"])).
  - reflexivity.
  - simpl. lia.
  - reflexivity.
Defined.

Lemma cells_are_written_at_most_once_witness :
  let imgs := [["d"; "a.png"]; ["bad"; "b.png"]] in
  let items : list (@payload (demo ["net"] true)) := [10; 11] in
  let envs := λ _ : nat,
    {| env_fuel := 3; env_bpp := λ _, [PyNone; PyNone];
       env_lists := [[PyNone; PyNone]; [PyNone; PyNone]] |} in
  let estimate := λ (_ : @payload (demo ["net"] true)) (_ : list string),
    inr (PyList [PyFloat 1]) : exn + pyval in
  let log := (_handle_output (H := demo ["net"] true) ["out"] TEST
                RECONSTRUCTION [] imgs (λ t, t) (items ++ []) []).2 in
  List.map call_index (submitted PoolA log) = seq 0 (length imgs) ∧
  List.map call_index (submitted PoolB log) = seq 0 (length imgs) ∧
  NoDup (run_bpp_writes (H := demo ["net"] true) estimate [PyNone; PyNone]
           (submitted PoolA log)) ∧
  NoDup (run_metric_writes envs 0 (submitted PoolB log)) ∧
  (∀ k path folder patches i orig_ref,
     submitted PoolB log !! k =
       Some (SaveImgsFromPatches path folder patches i) →
     load_image (Collaborators := demo ["net"] true) path "RGB"
       = inr orig_ref →
     Forall (λ m, ∃ v cells,
               calc_metric (Collaborators := demo ["net"] true)
                 orig_ref patches m = inr v ∧
               env_lists (envs k) !! metric_pos m = Some cells ∧
               i < length cells)
            (Metrics (Collaborators := demo ["net"] true)) →
     metric_writes
       (pool_b_log (envs k) (SaveImgsFromPatches path folder patches i))
       = List.map (λ m, (metric_pos m, i))
           (Metrics (Collaborators := demo ["net"] true))).
Proof.
  intros imgs items envs estimate.
  apply (cells_are_written_at_most_once (H := demo ["net"] true) ["out"]
           TEST RECONSTRUCTION [] imgs (λ t, t) items []
           (Some ["out"; "test"]) envs estimate [PyNone; PyNone]).
  - simpl. apply NoDup_cons. split; [|apply NoDup_singleton].
    intros Hin%list_elem_of_singleton. discriminate Hin.
  - reflexivity.
  - simpl. lia.
  - reflexivity.
Defined.

(** ** Shapes found by [np.array] *)

Lemma dims_list l :
  dims (PyList l) = length l :: common_prefix_all (List.map dims l).
Proof. reflexivity. Qed.

Lemma common_prefix_length_l s t :
  length (common_prefix s t) ≤ length s.
Proof.
  revert t. induction s as [|a s IH]; intros [|b t]; simpl; try lia.
  destruct (decide (a = b)); simpl; [|lia]. specialize (IH t). lia.
Qed.

Lemma common_prefix_length_r s t :
  length (common_prefix s t) ≤ length t.
Proof.
  revert t. induction s as [|a s IH]; intros [|b t]; simpl; try lia.
  destruct (decide (a = b)); simpl; [|lia]. specialize (IH t). lia.
Qed.

Lemma foldl_common_prefix_length_init s ss :
  length (foldl common_prefix s ss) ≤ length s.
Proof.
  revert s. induction ss as [|t ss IH]; intros s; simpl; [lia|].
  etrans; [apply IH|]. apply common_prefix_length_l.
Qed.

Lemma foldl_common_prefix_length_elem s ss t :
  t ∈ ss → length (foldl common_prefix s ss) ≤ length t.
Proof.
  revert s. induction ss as [|u ss IH]; intros s Ht; simpl.
  { by apply elem_of_nil in Ht. }
  apply elem_of_cons in Ht as [->|Ht].
  - etrans; [apply foldl_common_prefix_length_init|].
    apply common_prefix_length_r.
  - by apply IH.
Qed.

(** The common shape is no longer than any of the shapes. *)
Lemma common_prefix_all_length ss t :
  t ∈ ss → length (common_prefix_all ss) ≤ length t.
Proof.
  destruct ss as [|s ss]; intros Ht; simpl.
  { by apply elem_of_nil in Ht. }
  apply elem_of_cons in Ht as [->|Ht].
  - apply foldl_common_prefix_length_init.
  - by apply foldl_common_prefix_length_elem.
Qed.

(** A table with a cell that is not a sequence has at most two
    dimensions. *)
Lemma dims_table_with_scalar (table : list (list pyval)) c i cells v :
  table !! c = Some cells → cells !! i = Some v → dims v = [] →
  length (dims (PyList (List.map PyList table))) ≤ 2.
Proof.
  intros Hc Hi Hv. rewrite dims_list. simpl.
  assert (Hrow : length (dims (PyList cells)) ≤ 1).
  { rewrite dims_list. simpl.
    pose proof (common_prefix_all_length (List.map dims cells) []) as Hle.
    simpl in Hle. cut (length (common_prefix_all (List.map dims cells)) ≤ 0);
      [lia|].
    apply Hle. rewrite <- Hv. apply list_elem_of_In, in_map.
    apply list_elem_of_In. by eapply list_elem_of_lookup_2. }
  pose proof (common_prefix_all_length
                (List.map dims (List.map PyList table)) (dims (PyList cells)))
    as Hle.
  cut (length (common_prefix_all (List.map dims (List.map PyList table)))
         ≤ length (dims (PyList cells))); [lia|].
  apply Hle. apply list_elem_of_In, in_map, in_map.
  apply list_elem_of_In. by eapply list_elem_of_lookup_2.
Qed.

Section ReportFails.
Context `{Collaborators}.

Lemma np_array_shape v a : np_array v = inr a → nd_shape a = dims v.
Proof.
  unfold np_array. destruct (regular v || negb ragged_raises); [|done].
  by intros [= <-].
Qed.

Lemma np_concatenate2_flat a b :
  length (nd_shape a) ≤ 2 → np_concatenate2 a b = inl ValueError.
Proof.
  unfold np_concatenate2. destruct (nd_shape a) as [|k [|n [|la ra]]]; try done.
  simpl. lia.
Qed.

(** C8, amended: the report builder does not tolerate a missing
    size-proxy cell. When some cell of the size-proxy table still holds
    [None], for any codec, building the report raises an exception and
    writes no report file. *)
Theorem report_needs_every_size_proxy_cell img_paths folder bpps_proxy
    metrics_proxy c i (cells : list pyval) :
  bpps_proxy !! c = Some cells → cells !! i = Some PyNone →
  ∃ e,
    _save_out_analysis img_paths folder bpps_proxy metrics_proxy tt [] =
      (Raised e, tt, []).
Proof.
  intros Hc Hi.
  pose proof (dims_table_with_scalar bpps_proxy c i cells PyNone Hc Hi
                eq_refl) as Hdims.
  unfold _save_out_analysis.
  unfold bind at 1. destruct (map_raising _ Codecs) as [e|csv_path]; simpl;
    [by eexists|].
  unfold bind at 1.
  destruct (np_array (PyList (List.map PyList bpps_proxy))) as [e|bpps]
    eqn:Hbpps; simpl; [by eexists|].
  apply np_array_shape in Hbpps. rewrite <- Hbpps in Hdims.
  unfold bind at 1. destruct (np_array _) as [e|metrics]; simpl;
    [by eexists|].
  unfold bind at 1. destruct (nd_len_first bpps) as [e|images]; simpl;
    [by eexists|].
  unfold bind at 1. destruct (nd_reshape_infer _ metrics) as [e|m1]; simpl;
    [by eexists|].
  unfold bind at 1. destruct (nd_swapaxes12 m1) as [e|m2]; simpl;
    [by eexists|].
  unfold bind at 1. destruct (nd_reshape_infer _ m2) as [e|m3]; simpl;
    [by eexists|].
  unfold bind at 1. rewrite np_concatenate2_flat by done. simpl.
  by eexists.
Qed.
End ReportFails.

(** C8, as stated, fails: with the cells of a second codec never written,
    the report builder raises and writes no file, whether [np.array]
    rejects the ragged table or builds an array of objects from it. *)
Lemma report_raises_on_unwritten_codec :
  _save_out_analysis (H := demo ["net"; "jpeg"] true) [["d"; "a.png"]]
    (Some ["out"; "test"]) [[PyList [PyFloat 1]]; [PyNone]]
    {| mt_rows := 2; mt_cols := 2;
       mt_lists := [[PyList [PyFloat 30]]; [PyList [PyFloat 1]];
                    [PyNone]; [PyNone]] |} tt []
    = (Raised ValueError, tt, []) ∧
  _save_out_analysis (H := demo ["net"; "jpeg"] false) [["d"; "a.png"]]
    (Some ["out"; "test"]) [[PyList [PyFloat 1]]; [PyNone]]
    {| mt_rows := 2; mt_cols := 2;
       mt_lists := [[PyList [PyFloat 30]]; [PyList [PyFloat 1]];
                    [PyNone]; [PyNone]] |} tt []
    = (Raised ValueError, tt, []).
Proof. split; reflexivity. Qed.

Lemma report_needs_every_size_proxy_cell_witness :
  ∃ e,
    _save_out_analysis (H := demo ["net"; "jpeg"] false) [["d"; "a.png"]]
      (Some ["out"; "test"]) [[PyList [PyFloat 1]]; [PyNone]]
      {| mt_rows := 2; mt_cols := 2;
         mt_lists := [[PyList [PyFloat 30]]; [PyList [PyFloat 1]];
                      [PyNone]; [PyNone]] |} tt []
      = (Raised e, tt, []).
Proof.
  apply (report_needs_every_size_proxy_cell (H := demo ["net"; "jpeg"] false)
           [["d"; "a.png"]] (Some ["out"; "test"])
           [[PyList [PyFloat 1]]; [PyNone]] _ 1 0 [PyNone]);
    reflexivity.
Defined.

(** ** Lists cut into rows *)

Section Rows.
Context {A : Type}.
Implicit Types (l : list A) (ls : list (list A)).

Lemma rows_of_cons n w l :
  rows_of (S n) w l = take w l :: rows_of n w (drop w l).
Proof. reflexivity. Qed.

(** Cutting the concatenation of rows of one width gives the rows back. *)
Lemma rows_of_concat w ls :
  Forall (λ l, length l = w) ls →
  rows_of (length ls) w (concat ls) = ls.
Proof.
  induction 1 as [|l ls Hl _ IH]; [done|].
  simpl. rewrite rows_of_cons.
  rewrite take_app_length' by done. rewrite drop_app_length' by done.
  by rewrite IH.
Qed.

Lemma length_concat_uniform w ls :
  Forall (λ l, length l = w) ls → length (concat ls) = length ls * w.
Proof.
  induction 1 as [|l ls Hl _ IH]; [done|].
  simpl. rewrite length_app, IH, Hl. lia.
Qed.

(** The [j]-th stretch of width [w] of a concatenation is the [j]-th
    row. *)
Lemma take_drop_concat w ls j :
  Forall (λ l, length l = w) ls → j < length ls →
  take w (drop (j * w) (concat ls)) = List.nth j ls [].
Proof.
  intros Hls. revert j. induction Hls as [|l ls Hl _ IH]; intros j Hj.
  { simpl in Hj. lia. }
  destruct j as [|j]; simpl.
  - rewrite drop_0. by rewrite take_app_length'.
  - rewrite (drop_app_add' l) by done.
    apply IH. simpl in Hj. lia.
Qed.

Lemma nth_concat_uniform n (lss : list (list A)) r i d :
  Forall (λ l, length l = n) lss → i < n → r < length lss →
  List.nth (r * n + i) (concat lss) d = List.nth i (List.nth r lss []) d.
Proof.
  intros Hls Hi. revert r. induction Hls as [|l ls Hl _ IH]; intros r Hr.
  { simpl in Hr. lia. }
  destruct r as [|r]; simpl.
  - rewrite List.app_nth1 by lia. done.
  - rewrite List.app_nth2 by lia.
    replace (n + r * n + i - length l) with (r * n + i) by lia.
    apply IH. simpl in Hr. lia.
Qed.

Lemma Forall_concat (P : A → Prop) ls :
  Forall (Forall P) ls → Forall P (concat ls).
Proof.
  induction 1 as [|l ls Hl _ IH]; simpl; [constructor|].
  by apply Forall_app.
Qed.
End Rows.

(** ** [np.array] on a table of float cells *)

Lemma common_prefix_same s : common_prefix s s = s.
Proof.
  induction s as [|a s IH]; simpl; [done|].
  destruct (decide (a = a)); [|done]. by rewrite IH.
Qed.

Lemma common_prefix_all_const ss s :
  ss ≠ [] → Forall (λ t, t = s) ss → common_prefix_all ss = s.
Proof.
  intros Hne Hss. destruct Hss as [|t ss -> Hss]; [done|]. simpl.
  clear Hne. induction Hss as [|t ss -> _ IH]; simpl; [done|].
  by rewrite common_prefix_same.
Qed.

Lemma common_prefix_all_nils ss :
  Forall (λ t, t = []) ss → common_prefix_all ss = [].
Proof.
  destruct ss as [|s ss]; [done|]. intros Hss.
  by apply common_prefix_all_const.
Qed.

Lemma dims_float_cell fs : dims (float_cell fs) = [length fs].
Proof.
  unfold float_cell. rewrite dims_list, List.length_map.
  rewrite common_prefix_all_nils; [done|].
  induction fs; simpl; by constructor.
Qed.

Lemma regular_list l :
  regular (PyList l) =
    forallb regular l &&
    forallb (λ c, bool_decide (dims c = common_prefix_all (List.map dims l)))
      l.
Proof. reflexivity. Qed.

Lemma regular_float_cell fs : regular (float_cell fs) = true.
Proof.
  unfold float_cell. rewrite regular_list.
  rewrite common_prefix_all_nils by (induction fs; simpl; by constructor).
  apply andb_true_intro. split; induction fs; simpl; done.
Qed.

Lemma leaves_float_cell fs : leaves 1 (float_cell fs) = List.map PyFloat fs.
Proof.
  unfold float_cell. simpl. induction fs as [|x fs IH]; simpl; [done|].
  by rewrite IH.
Qed.

Section FloatRows.
Implicit Types (row : list (list float)) (t : list (list (list float))).

Lemma dims_cells_of_row l row :
  Forall (λ c, length c = l) row →
  Forall (λ s, s = [l]) (List.map dims (List.map float_cell row)).
Proof.
  induction 1 as [|c row Hc _ IH]; cbn [List.map]; constructor; [|done].
  by rewrite dims_float_cell, Hc.
Qed.

Lemma dims_float_row n l row :
  0 < n → length row = n → Forall (λ c, length c = l) row →
  dims (PyList (List.map float_cell row)) = [n; l].
Proof.
  intros Hn Hlen Hrow. rewrite dims_list, List.length_map, Hlen.
  rewrite (common_prefix_all_const _ [l]); [done| |by apply dims_cells_of_row].
  destruct row; simpl in *; [lia|done].
Qed.

Lemma regular_float_row n l row :
  0 < n → length row = n → Forall (λ c, length c = l) row →
  regular (PyList (List.map float_cell row)) = true.
Proof.
  intros Hn Hlen Hrow. rewrite regular_list.
  rewrite (common_prefix_all_const _ [l]);
    [| |by apply dims_cells_of_row].
  2:{ destruct row; simpl in *; [lia|done]. }
  clear Hn Hlen. apply andb_true_intro.
  split; induction Hrow as [|c row Hc _ IH]; try done;
    cbn [List.map forallb]; rewrite IH.
  - by rewrite regular_float_cell.
  - rewrite dims_float_cell, Hc. by rewrite bool_decide_true.
Qed.

Lemma leaves_float_row row :
  leaves 2 (PyList (List.map float_cell row))
    = List.map PyFloat (concat row).
Proof.
  change (leaves 2 (PyList (List.map float_cell row)))
    with (flat_map (leaves 1) (List.map float_cell row)).
  induction row as [|c row IH]; [done|].
  cbn [List.map flat_map concat].
  by rewrite IH, List.map_app, leaves_float_cell.
Qed.

Lemma dims_rows_of_table n l t :
  0 < n →
  Forall (λ row, length row = n ∧ Forall (λ c, length c = l) row) t →
  Forall (λ s, s = [n; l]) (List.map dims (List.map PyList (float_cells t))).
Proof.
  intros Hn. unfold float_cells.
  induction 1 as [|row t [Hlen Hrow] _ IH]; cbn [List.map];
    constructor; [|done].
  by apply dims_float_row.
Qed.

Lemma dims_float_table r n l t :
  0 < r → 0 < n → regular_table r n l t →
  dims (PyList (List.map PyList (float_cells t))) = [r; n; l].
Proof.
  intros Hr Hn [Hlen Ht]. rewrite dims_list.
  unfold float_cells at 1. rewrite !List.length_map, Hlen.
  rewrite (common_prefix_all_const _ [n; l]);
    [done| |by apply dims_rows_of_table].
  destruct t; simpl in *; [lia|done].
Qed.

Lemma regular_float_table r n l t :
  0 < r → 0 < n → regular_table r n l t →
  regular (PyList (List.map PyList (float_cells t))) = true.
Proof.
  intros Hr Hn [Hlen Ht]. rewrite regular_list.
  rewrite (common_prefix_all_const _ [n; l]);
    [| |by apply dims_rows_of_table].
  2:{ destruct t; simpl in *; [lia|done]. }
  clear Hr Hlen. unfold float_cells. apply andb_true_intro.
  split; induction Ht as [|row t [Hlen Hrow] _ IH]; try done;
    cbn [List.map forallb]; rewrite IH.
  - by rewrite (regular_float_row n l).
  - rewrite (dims_float_row n l) by done. by rewrite bool_decide_true.
Qed.

Lemma leaves_float_table t :
  leaves 3 (PyList (List.map PyList (float_cells t)))
    = List.map PyFloat (concat (concat t)).
Proof.
  change (leaves 3 (PyList (List.map PyList (float_cells t))))
    with (flat_map (leaves 2) (List.map PyList (float_cells t))).
  unfold float_cells. induction t as [|row t IH]; [done|].
  cbn [List.map flat_map concat].
  by rewrite IH, concat_app, List.map_app, leaves_float_row.
Qed.
End FloatRows.

Section NumpyFacts.
Context `{Collaborators}.

(** [np.array] on a regular table of float cells gives the array of its
    floats, of three dimensions. *)
Lemma np_array_float_table r n l t :
  0 < r → 0 < n → regular_table r n l t →
  np_array (PyList (List.map PyList (float_cells t))) =
    inr {| nd_shape := [r; n; l];
           nd_flat := List.map PyFloat (concat (concat t)) |}.
Proof.
  intros Hr Hn Ht. unfold np_array.
  rewrite (regular_float_table r n l) by done. simpl orb. cbv iota.
  rewrite (dims_float_table r n l) by done.
  by rewrite leaves_float_table.
Qed.
End NumpyFacts.

(** ** Indexing tables *)

Section Indexing.
Context {A B : Type}.

Lemma flat_map_ext_in (f g : A → list B) l :
  (∀ a, a ∈ l → f a = g a) → flat_map f l = flat_map g l.
Proof.
  induction l as [|a l IH]; intros Hfg; simpl; [done|].
  rewrite Hfg by (apply elem_of_cons; by left).
  rewrite IH; [done|]. intros b Hb. apply Hfg, elem_of_cons. by right.
Qed.

Lemma map_ext_in' (f g : A → B) l :
  (∀ a, a ∈ l → f a = g a) → List.map f l = List.map g l.
Proof.
  intros Hfg. apply List.map_ext_in. intros a Ha. apply Hfg.
  by apply list_elem_of_In.
Qed.

Lemma length_flat_map_uniform (f : A → list B) l w :
  (∀ a, a ∈ l → length (f a) = w) →
  length (flat_map f l) = length l * w.
Proof.
  induction l as [|a l IH]; intros Hf; simpl; [done|].
  rewrite length_app, Hf by (apply elem_of_cons; by left).
  rewrite IH; [lia|]. intros b Hb. apply Hf, elem_of_cons. by right.
Qed.

Lemma zip_with_map_same {C D : Type} (h : B → C → D) (f : A → B)
    (g : A → C) l :
  zip_with h (List.map f l) (List.map g l) = List.map (λ a, h (f a) (g a)) l.
Proof. induction l as [|a l IH]; simpl; [done|]. by rewrite IH. Qed.
End Indexing.

Lemma elem_of_seq_lt start len i : i ∈ seq start len → start ≤ i < start + len.
Proof. intros Hi%list_elem_of_In. by apply in_seq in Hi. Qed.

(** A list is its items, by index. *)
Lemma list_by_index {A} (l : list A) d :
  l = List.map (λ i, List.nth i l d) (seq 0 (length l)).
Proof.
  induction l as [|a l IH]; [done|]. simpl. f_equal.
  rewrite <- List.seq_shift, List.map_map. exact IH.
Qed.

(** The concatenation over a product of ranges, by pairs. *)
Lemma flat_map_pairs {B} (f : nat → nat → list B) k n :
  flat_map (λ c, flat_map (f c) (seq 0 n)) (seq 0 k) =
    concat (List.map (λ p, f p.1 p.2) (list_prod (seq 0 k) (seq 0 n))).
Proof.
  induction (seq 0 k) as [|c cs IH]; [done|].
  simpl. rewrite List.map_app, concat_app, <- IH. f_equal.
  rewrite List.map_map. simpl. by rewrite flat_map_concat_map.
Qed.

Lemma map_pairs {B} (f : nat → nat → B) k n :
  flat_map (λ c, List.map (f c) (seq 0 n)) (seq 0 k) =
    List.map (λ p, f p.1 p.2) (list_prod (seq 0 k) (seq 0 n)).
Proof.
  induction (seq 0 k) as [|c cs IH]; [done|].
  simpl. rewrite List.map_app, <- IH. f_equal.
  by rewrite List.map_map.
Qed.

Lemma length_list_prod_seq k n :
  length (list_prod (seq 0 k) (seq 0 n)) = k * n.
Proof. by rewrite List.length_prod, !length_seq. Qed.

Lemma elem_of_list_prod_seq k n p :
  p ∈ list_prod (seq 0 k) (seq 0 n) → p.1 < k ∧ p.2 < n.
Proof.
  destruct p as [c i]. intros Hp%list_elem_of_In.
  apply in_prod_iff in Hp as [Hc%in_seq Hi%in_seq]. simpl. lia.
Qed.

Section TableFacts.
Implicit Types (t : list (list (list float))).

Lemma regular_table_rows r n l t :
  regular_table r n l t → Forall (λ row, length row = n) t.
Proof. intros [_ Ht]. eapply Forall_impl; [exact Ht|]. by intros row [? _]. Qed.

Lemma regular_table_cells r n l t :
  regular_table r n l t → Forall (λ c, length c = l) (concat t).
Proof.
  intros [_ Ht]. apply Forall_concat.
  eapply Forall_impl; [exact Ht|]. by intros row [_ ?].
Qed.

Lemma regular_table_length_cells r n l t :
  regular_table r n l t → length (concat t) = r * n.
Proof.
  intros Ht. rewrite (length_concat_uniform n).
  - by destruct Ht as [-> _].
  - by eapply regular_table_rows.
Qed.

Lemma regular_table_size r n l t :
  regular_table r n l t → length (concat (concat t)) = r * n * l.
Proof.
  intros Ht. rewrite (length_concat_uniform l).
  - by rewrite (regular_table_length_cells r n l).
  - by eapply regular_table_cells.
Qed.

(** The cell of the list [c] for the image [i] has [l] floats. *)
Lemma regular_table_cell r n l t c i :
  regular_table r n l t → c < r → i < n →
  length (List.nth i (List.nth c t []) []) = l.
Proof.
  intros [Hlen Ht] Hc Hi. rewrite Forall_forall in Ht.
  destruct (Ht (List.nth c t [])) as [Hrow Hcells].
  { apply list_elem_of_In, List.nth_In. lia. }
  rewrite Forall_forall in Hcells. apply Hcells.
  apply list_elem_of_In, List.nth_In. lia.
Qed.

(** The stretch of the floats of a table that holds the cell of the list
    [c] for the image [i]. *)
Lemma regular_table_stretch r n l t c i :
  regular_table r n l t → c < r → i < n →
  take l (drop ((c * n + i) * l) (concat (concat t))) =
    List.nth i (List.nth c t []) [].
Proof.
  intros Ht Hc Hi.
  rewrite (take_drop_concat l); [|by eapply regular_table_cells|].
  - apply nth_concat_uniform; [by eapply regular_table_rows|done|].
    by destruct Ht as [-> _].
  - rewrite (regular_table_length_cells r n l) by done. nia.
Qed.

(** The cells of a table, list by list and image by image. *)
Lemma regular_table_by_index r n l t :
  regular_table r n l t →
  concat t =
    List.map (λ p, List.nth p.2 (List.nth p.1 t []) [])
      (list_prod (seq 0 r) (seq 0 n)).
Proof.
  intros [Hlen Ht]. rewrite <- (map_pairs (λ c i, List.nth i (List.nth c t []) [])).
  rewrite (list_by_index t []) at 1. rewrite Hlen.
  rewrite <- flat_map_concat_map. apply flat_map_ext_in.
  intros c Hc%elem_of_seq_lt.
  rewrite Forall_forall in Ht.
  destruct (Ht (List.nth c t [])) as [Hrow _].
  { apply list_elem_of_In, List.nth_In. lia. }
  rewrite (list_by_index (List.nth c t []) []) at 1. by rewrite Hrow.
Qed.
End TableFacts.

(** ** The arrays of the report builder on fully written tables *)

Section Pipeline.
Context `{Collaborators}.
Variables (n l : nat) (sizes metrics : list (list (list float))).
Hypotheses (Hk : 0 < length Codecs) (Hm : 0 < length Metrics)
  (Hn : 0 < n) (Hl : 0 < l).
Hypotheses
  (Hsizes : regular_table (length Codecs) n l sizes)
  (Hmetrics : regular_table (length Codecs * length Metrics) n l metrics).

Local Abbreviation k := (length Codecs).
Local Abbreviation m := (length Metrics).
Local Abbreviation pairs := (list_prod (seq 0 k) (seq 0 n)).
Local Abbreviation floats_of t := (List.map PyFloat (concat (concat t))).

Lemma map_flat_map {A B C} (f : B → C) (g : A → list B) (xs : list A) :
  List.map f (flat_map g xs) = flat_map (λ a, List.map f (g a)) xs.
Proof.
  induction xs as [|a xs IH]; simpl; [done|]. by rewrite List.map_app, IH.
Qed.

Lemma length_metric_part c i :
  c < k → i < n → length (metric_part metrics c i) = m * l.
Proof.
  intros Hc Hi. unfold metric_part.
  rewrite (length_flat_map_uniform _ _ l); [by rewrite length_seq|].
  intros mi Hmi%elem_of_seq_lt.
  apply (regular_table_cell (k * m) n l); [done|nia|done].
Qed.

Lemma length_size_cell c i :
  c < k → i < n → length (List.nth i (List.nth c sizes []) []) = l.
Proof. intros Hc Hi. by apply (regular_table_cell k n l). Qed.

(** The first reshape of the metrics: codecs by metrics by images by
    levels. *)
Lemma metrics_reshaped :
  nd_reshape_infer [k; m; n]
    {| nd_shape := [k * m; n; l]; nd_flat := floats_of metrics |} =
    inr {| nd_shape := [k; m; n; l]; nd_flat := floats_of metrics |}.
Proof.
  unfold nd_reshape_infer. simpl product. cbn [nd_flat].
  rewrite List.length_map, (regular_table_size (k * m) n l) by done.
  destruct (decide (k * (m * (n * 1)) = 0)) as [|_]; [nia|].
  replace (k * m * n * l) with (l * (k * (m * (n * 1)))) by lia.
  rewrite Nat.Div0.mod_mul, Nat.div_mul by nia.
  by destruct (decide (0 = 0)).
Qed.

(** After the exchange of the axes of metrics and images, the floats come
    codec by codec and image by image, the metrics of one image
    together. *)
Lemma metrics_swapped :
  nd_swapaxes12
    {| nd_shape := [k; m; n; l]; nd_flat := floats_of metrics |} =
    inr {| nd_shape := [k; n; m; l];
           nd_flat :=
             concat (List.map
                       (λ p, List.map PyFloat (metric_part metrics p.1 p.2))
                       pairs) |}.
Proof.
  unfold nd_swapaxes12. cbn [nd_shape nd_flat]. f_equal. f_equal.
  rewrite <- (flat_map_pairs
                (λ c i, List.map PyFloat (metric_part metrics c i))).
  apply flat_map_ext_in. intros c Hc%elem_of_seq_lt.
  apply flat_map_ext_in. intros i Hi%elem_of_seq_lt.
  unfold metric_part. rewrite map_flat_map.
  apply flat_map_ext_in. intros mi Hmi%elem_of_seq_lt.
  simpl product. rewrite Nat.mul_1_r.
  rewrite List.skipn_map, List.firstn_map. f_equal.
  apply (regular_table_stretch (k * m) n l); [done|nia|lia].
Qed.

Lemma length_metric_rows :
  length (concat (List.map
                    (λ p, List.map PyFloat (metric_part metrics p.1 p.2))
                    pairs)) = k * n * (m * l).
Proof.
  rewrite (length_concat_uniform (m * l)).
  - by rewrite List.length_map, length_list_prod_seq.
  - apply Forall_forall. intros row Hrow%list_elem_of_In.
    apply in_map_iff in Hrow as (p & <- & Hp%list_elem_of_In).
    apply elem_of_list_prod_seq in Hp as [Hc Hi].
    rewrite List.length_map. by apply length_metric_part.
Qed.

(** The second reshape: codecs by images, then all the metric values of
    the image. *)
Lemma metrics_flattened flat :
  length flat = k * n * (m * l) →
  nd_reshape_infer (take (length [k; n; m; l] - 2) [k; n; m; l])
    {| nd_shape := [k; n; m; l]; nd_flat := flat |} =
    inr {| nd_shape := [k; n; m * l]; nd_flat := flat |}.
Proof.
  intros Hflat. unfold nd_reshape_infer. simpl take. simpl product.
  cbn [nd_flat]. rewrite Hflat.
  destruct (decide (k * (n * 1) = 0)) as [|_]; [nia|].
  replace (k * n * (m * l)) with ((m * l) * (k * (n * 1))) by lia.
  rewrite Nat.Div0.mod_mul, Nat.div_mul by nia.
  by destruct (decide (0 = 0)).
Qed.
Local Abbreviation size_cell p :=
  (List.nth (snd p) (List.nth (fst p) sizes []) []).
Local Abbreviation row_of p :=
  (List.map PyFloat (spec_row sizes metrics (fst p) (snd p))).
Local Abbreviation width := (l + m * l).

Lemma sizes_by_pairs :
  floats_of sizes =
    concat (List.map (λ p, List.map PyFloat (size_cell p)) pairs).
Proof.
  rewrite concat_map, (regular_table_by_index k n l sizes) by done.
  by rewrite List.map_map.
Qed.

Lemma length_row_of c i :
  c < k → i < n → length (row_of (c, i)) = width.
Proof.
  intros Hc Hi. rewrite List.length_map. unfold spec_row. simpl.
  by rewrite length_app, length_size_cell, length_metric_part.
Qed.

(** The concatenation along the last axis puts, for each codec and image,
    the size-proxy values before the metric values. *)
Lemma sizes_and_metrics_concatenated :
  np_concatenate2
    {| nd_shape := [k; n; l]; nd_flat := floats_of sizes |}
    {| nd_shape := [k; n; m * l];
       nd_flat :=
         concat (List.map
                   (λ p, List.map PyFloat (metric_part metrics p.1 p.2))
                   pairs) |} =
    inr {| nd_shape := [k; n; width];
           nd_flat := concat (List.map (λ p, row_of p) pairs) |}.
Proof.
  unfold np_concatenate2. cbn [nd_shape nd_flat].
  destruct (decide (k = k ∧ n = n ∧ @nil nat = [])) as [_|Hne];
    [|by destruct Hne].
  f_equal. f_equal. simpl product. rewrite !Nat.mul_1_r.
  rewrite sizes_by_pairs.
  replace (k * n) with
    (length (List.map (λ p, List.map PyFloat (size_cell p)) pairs)) at 1
    by (by rewrite List.length_map, length_list_prod_seq).
  rewrite rows_of_concat.
  2:{ apply Forall_forall. intros row Hrow%list_elem_of_In.
      apply in_map_iff in Hrow as (p & <- & Hp%list_elem_of_In).
      apply elem_of_list_prod_seq in Hp as [Hc Hi].
      rewrite List.length_map. by apply length_size_cell. }
  replace (k * n) with
    (length (List.map (λ p, List.map PyFloat (metric_part metrics p.1 p.2))
               pairs))
    by (by rewrite List.length_map, length_list_prod_seq).
  rewrite rows_of_concat.
  2:{ apply Forall_forall. intros row Hrow%list_elem_of_In.
      apply in_map_iff in Hrow as (p & <- & Hp%list_elem_of_In).
      apply elem_of_list_prod_seq in Hp as [Hc Hi].
      rewrite List.length_map. by apply length_metric_part. }
  rewrite zip_with_map_same. f_equal.
  apply List.map_ext. intros p. unfold spec_row. by rewrite List.map_app.
Qed.

Local Abbreviation slice_of c := (codec_slice n l sizes metrics c).

(** Iterating over the data gives the data of each codec in turn. *)
Lemma data_iterated :
  nd_iter {| nd_shape := [k; n; width];
             nd_flat := concat (List.map (λ p, row_of p) pairs) |} =
    inr (List.map (λ c, slice_of c) (seq 0 k)).
Proof.
  unfold nd_iter. cbn [nd_shape nd_flat]. f_equal.
  rewrite <- (flat_map_pairs (λ c i, row_of (c, i))).
  rewrite flat_map_concat_map.
  replace k with
    (length (List.map (λ c, flat_map (λ i, row_of (c, i)) (seq 0 n))
               (seq 0 k))) at 1
    by (by rewrite List.length_map, length_seq).
  simpl product. rewrite Nat.mul_1_r.
  rewrite rows_of_concat.
  2:{ apply Forall_forall. intros row Hrow%list_elem_of_In.
      apply in_map_iff in Hrow as (c & <- & Hc%list_elem_of_In).
      apply elem_of_seq_lt in Hc.
      rewrite (length_flat_map_uniform _ _ width);
        [by rewrite length_seq|].
      intros i Hi%elem_of_seq_lt. apply length_row_of; lia. }
  rewrite List.map_map. apply List.map_ext. intros c.
  unfold codec_slice. by rewrite flat_map_concat_map.
Qed.
Lemma length_report_columns levels :
  length (report_columns levels) = (1 + m) * levels.
Proof.
  unfold report_columns.
  rewrite (length_flat_map_uniform _ _ levels).
  - simpl. by rewrite List.length_map.
  - intros name _. by rewrite List.length_map, length_seq.
Qed.

Lemma floats_round_trip fs : mapM as_float (List.map PyFloat fs) = Some fs.
Proof. induction fs as [|x fs IH]; [done|]. simpl. by rewrite IH. Qed.

Lemma frame_of_floats (paths : list (list string)) rows :
  mapM (λ r : list string * list pyval,
          fs ← mapM as_float r.2; Some (r.1, fs))
       (zip paths (List.map (List.map PyFloat) rows)) =
    Some (zip paths rows).
Proof.
  revert rows. induction paths as [|p paths IH]; intros [|row rows];
    try done.
  simpl. rewrite floats_round_trip. simpl. by rewrite IH.
Qed.

(** On the data of one codec [save_csv] writes the report that the
    specification words describe. *)
Lemma save_csv_slice c s img_paths folder :
  c < k → length img_paths = n →
  save_csv (slice_of c)
    (folder ++ [String.append "_metrics_"
                  (String.append (codec_str s) ".csv")])
    img_paths l =
    inr (spec_report img_paths folder l sizes metrics c s).
Proof.
  intros Hc Hpaths. unfold save_csv, DataFrame, codec_slice.
  cbn [nd_shape nd_flat].
  destruct (decide (n = length img_paths
                    ∧ width = length (report_columns l))) as [_|Hne].
  2:{ destruct Hne. rewrite length_report_columns. split; [done|lia]. }
  replace n with
    (length (List.map (λ i, row_of (c, i)) (seq 0 n))) at 1
    by (by rewrite List.length_map, length_seq).
  rewrite rows_of_concat.
  2:{ apply Forall_forall. intros row Hrow%list_elem_of_In.
      apply in_map_iff in Hrow as (i & <- & Hi%list_elem_of_In).
      apply elem_of_seq_lt in Hi. apply length_row_of; lia. }
  rewrite <- (List.map_map (spec_row sizes metrics c) (List.map PyFloat)).
  rewrite frame_of_floats. unfold spec_report.
  by rewrite Hpaths, List.map_app, List.map_map.
Qed.

Lemma csv_paths_resolved folder (cs : list codec) :
  map_raising
    (λ s, opt_path_div (Some folder)
            (String.append "_metrics_" (String.append (codec_str s) ".csv")))
    cs =
  inr (List.map
         (λ s, folder ++ [String.append "_metrics_"
                            (String.append (codec_str s) ".csv")])
         cs).
Proof.
  induction cs as [|s cs IH]; [done|].
  cbn [map_raising List.map]. by rewrite IH.
Qed.

(** The reports written for the codecs [cs], the first of which is at the
    position [start]. *)
Lemma reports_written img_paths folder start (cs : list codec) tr :
  start + length cs ≤ k → length img_paths = n →
  for_each
    (zip (List.map (λ c, slice_of c) (seq start (length cs)))
         (List.map
            (λ s, folder ++ [String.append "_metrics_"
                               (String.append (codec_str s) ".csv")])
            cs))
    (λ '(d, path),
       bind (lift (save_csv d path img_paths l)) (λ file, emit file))
    tt tr =
    (Normal tt, tt,
     tr ++ List.map (λ cs, spec_report img_paths folder l sizes metrics
                             cs.1 cs.2)
             (zip (seq start (length cs)) cs)).
Proof.
  intros Hle Hpaths. revert start tr Hle.
  induction cs as [|s cs IH]; intros start tr Hle.
  - simpl. unfold ret. by rewrite app_nil_r.
  - cbn [length seq List.map zip zip_with for_each].
    erewrite bind_normal.
    2:{ erewrite bind_normal.
        2:{ rewrite save_csv_slice by (simpl in Hle; lia || done).
            reflexivity. }
        reflexivity. }
    rewrite IH by (simpl in Hle; lia).
    by rewrite <- app_assoc.
Qed.
Lemma bind_lift_inr {X E A B} (a : A) (f : A → @M X E B) :
  bind (lift (inr a)) f = f a.
Proof. reflexivity. Qed.

Lemma nd_len_first_3d flat :
  nd_len_first {| nd_shape := [k; n; l]; nd_flat := flat |} = inr n.
Proof. unfold nd_len_first. cbn [nd_shape]. destruct k; [lia|done]. Qed.

(** On fully written tables the report builder returns, having written
    for each codec, in the order of the codecs, the report that the
    specification words describe. *)
Lemma save_out_analysis_run img_paths folder :
  length img_paths = n →
  _save_out_analysis img_paths (Some folder) (float_cells sizes)
    {| mt_rows := k; mt_cols := m; mt_lists := float_cells metrics |} tt [] =
    (Normal tt, tt,
     List.map (λ cs, spec_report img_paths folder l sizes metrics cs.1 cs.2)
       (zip (seq 0 k) Codecs)).
Proof.
  intros Hpaths. unfold _save_out_analysis.
  rewrite csv_paths_resolved, bind_lift_inr.
  rewrite (np_array_float_table k n l) by done. rewrite bind_lift_inr.
  cbn [mt_lists mt_rows mt_cols].
  rewrite (np_array_float_table (k * m) n l) by (done || nia).
  rewrite bind_lift_inr.
  rewrite nd_len_first_3d, bind_lift_inr.
  rewrite metrics_reshaped, bind_lift_inr.
  rewrite metrics_swapped, bind_lift_inr. cbn [nd_shape].
  rewrite metrics_flattened by apply length_metric_rows.
  rewrite bind_lift_inr.
  rewrite sizes_and_metrics_concatenated, bind_lift_inr.
  rewrite data_iterated, bind_lift_inr.
  cbn [nd_shape List.last].
  pose proof (reports_written img_paths folder 0 Codecs []) as Hrep.
  rewrite Hrep by (done || lia). done.
Qed.
End Pipeline.

(** ** The order of paths *)

Section LexFacts.
Context {A : Type} (cmp : A → A → comparison).
Hypotheses
  (cmp_eq : ∀ x y, cmp x y = Eq → x = y)
  (cmp_refl : ∀ x, cmp x x = Eq)
  (cmp_opp : ∀ x y, cmp y x = CompOpp (cmp x y))
  (cmp_trans : ∀ x y z, cmp x y = Lt → cmp y z = Lt → cmp x z = Lt).

Lemma lex_compare_eq l1 l2 : lex_compare cmp l1 l2 = Eq → l1 = l2.
Proof.
  revert l2. induction l1 as [|x l1 IH]; intros [|y l2]; simpl; try done.
  destruct (cmp x y) eqn:Hxy; try done.
  intros Hl. apply cmp_eq in Hxy as ->. by rewrite (IH l2).
Qed.

Lemma lex_compare_refl l : lex_compare cmp l l = Eq.
Proof. induction l as [|x l IH]; simpl; [done|]. by rewrite cmp_refl. Qed.

Lemma lex_compare_opp l1 l2 :
  lex_compare cmp l2 l1 = CompOpp (lex_compare cmp l1 l2).
Proof.
  revert l2. induction l1 as [|x l1 IH]; intros [|y l2]; simpl; try done.
  rewrite (cmp_opp x y). destruct (cmp x y); simpl; auto.
Qed.

Lemma lex_compare_trans l1 l2 l3 :
  lex_compare cmp l1 l2 = Lt → lex_compare cmp l2 l3 = Lt →
  lex_compare cmp l1 l3 = Lt.
Proof.
  revert l2 l3.
  induction l1 as [|x l1 IH]; intros [|y l2] [|z l3]; simpl; try done.
  destruct (cmp x y) eqn:Hxy; try done.
  - apply cmp_eq in Hxy as ->. destruct (cmp y z); try done. apply IH.
  - destruct (cmp y z) eqn:Hyz; try done.
    + apply cmp_eq in Hyz as ->. by rewrite Hxy.
    + by rewrite (cmp_trans x y z).
Qed.
End LexFacts.

Lemma ascii_compare_eq a b : ascii_compare a b = Eq → a = b.
Proof.
  unfold ascii_compare. intros Hab%N.compare_eq.
  by rewrite <- (ascii_N_embedding a), <- (ascii_N_embedding b), Hab.
Qed.

Lemma ascii_compare_trans a b c :
  ascii_compare a b = Lt → ascii_compare b c = Lt → ascii_compare a c = Lt.
Proof. unfold ascii_compare. rewrite !N.compare_lt_iff. lia. Qed.

Lemma str_compare_eq s1 s2 : str_compare s1 s2 = Eq → s1 = s2.
Proof.
  unfold str_compare. intros Heq.
  apply (lex_compare_eq ascii_compare ascii_compare_eq) in Heq.
  by rewrite <- (string_of_list_ascii_of_string s1),
             <- (string_of_list_ascii_of_string s2), Heq.
Qed.

Lemma str_compare_refl s : str_compare s s = Eq.
Proof.
  apply lex_compare_refl. intros a. apply N.compare_refl.
Qed.

Lemma str_compare_opp s1 s2 :
  str_compare s2 s1 = CompOpp (str_compare s1 s2).
Proof.
  apply lex_compare_opp. intros a b. apply N.compare_antisym.
Qed.

Lemma str_compare_trans s1 s2 s3 :
  str_compare s1 s2 = Lt → str_compare s2 s3 = Lt → str_compare s1 s3 = Lt.
Proof.
  apply lex_compare_trans.
  - apply ascii_compare_eq.
  - apply ascii_compare_trans.
Qed.

Lemma path_compare_eq (p q : list string) : path_compare p q = Eq → p = q.
Proof. apply lex_compare_eq, str_compare_eq. Qed.

Lemma path_compare_opp (p q : list string) :
  path_compare q p = CompOpp (path_compare p q).
Proof. apply lex_compare_opp, str_compare_opp. Qed.

Lemma path_compare_trans (p q r : list string) :
  path_compare p q = Lt → path_compare q r = Lt → path_compare p r = Lt.
Proof.
  apply lex_compare_trans.
  - apply str_compare_eq.
  - apply str_compare_trans.
Qed.

Global Instance path_le_total : Total path_le.
Proof.
  intros p q. unfold path_le. rewrite (path_compare_opp p q).
  destruct (path_compare p q); simpl; auto.
Qed.

Global Instance path_le_trans : Transitive path_le.
Proof.
  intros p q r. unfold path_le. intros Hpq Hqr.
  destruct (path_compare p q) eqn:Epq; [|clear Hpq|done].
  - by apply path_compare_eq in Epq as ->.
  - destruct (path_compare q r) eqn:Eqr; [| |done].
    + by apply path_compare_eq in Eqr as <-; rewrite Epq.
    + by rewrite (path_compare_trans p q r).
Qed.

Lemma path_le_antisym (p q : list string) : path_le p q → path_le q p → p = q.
Proof.
  unfold path_le. rewrite (path_compare_opp p q). intros Hpq Hqp.
  apply path_compare_eq. by destruct (path_compare p q).
Qed.

Section SortFacts.
Context {A : Type}.
Implicit Types (df : list (list string * A)).

Global Instance row_le_total : Total (@row_le A).
Proof. intros r1 r2. apply path_le_total. Qed.

Global Instance row_le_trans : Transitive (@row_le A).
Proof. intros r1 r2 r3. apply path_le_trans. Qed.

Lemma sort_index_sorted df : StronglySorted row_le (sort_index df).
Proof. apply StronglySorted_merge_sort; apply _. Qed.

Lemma sort_index_perm df : sort_index df ≡ₚ df.
Proof. apply merge_sort_Permutation. Qed.

Lemma length_sort_index df : length (sort_index df) = length df.
Proof. by rewrite sort_index_perm. Qed.

(** With one row per image, the sorted frame does not depend on the order
    in which the rows came. *)
Lemma sort_index_order_free df df' :
  NoDup (List.map fst df) → df' ≡ₚ df → sort_index df' = sort_index df.
Proof.
  intros Hkeys Hperm.
  apply (StronglySorted_unique_strong row_le);
    [|apply sort_index_sorted..|by rewrite !sort_index_perm].
  intros r1 r2 Hr1 Hr2 H12 H21.
  rewrite sort_index_perm in Hr1, Hr2. rewrite Hperm in Hr1.
  pose proof (path_le_antisym _ _ H12 H21) as Hfst.
  clear H12 H21 Hperm df'.
  induction df as [|r df IH]; [by apply elem_of_nil in Hr1|].
  simpl in Hkeys. apply NoDup_cons in Hkeys as [Hnew Hkeys].
  apply elem_of_cons in Hr1 as [->|Hr1], Hr2 as [->|Hr2]; auto.
  - destruct Hnew. rewrite Hfst. apply list_elem_of_In, in_map.
    by apply list_elem_of_In.
  - destruct Hnew. rewrite <- Hfst. apply list_elem_of_In, in_map.
    by apply list_elem_of_In.
Qed.
End SortFacts.

(** ** The shape of the reports *)

Section ReportShape.
Context `{Collaborators}.
Variables (n l : nat) (sizes metrics : list (list (list float))).
Variables (img_paths : list (list string)) (folder : list string).
Hypotheses (Hk : 0 < length Codecs) (Hm : 0 < length Metrics)
  (Hn : 0 < n) (Hl : 0 < l).
Hypotheses
  (Hsizes : regular_table (length Codecs) n l sizes)
  (Hmetrics : regular_table (length Codecs * length Metrics) n l metrics)
  (Hpaths : length img_paths = n).

Local Abbreviation k := (length Codecs).
Local Abbreviation m := (length Metrics).

Lemma length_mean_row c (df : list (list string * list float)) :
  length (mean_row c df) = c.
Proof. unfold mean_row. by rewrite List.length_map, length_seq. Qed.

Lemma spec_rows_width c :
  c < k →
  Forall (λ r : list string * list float, length r.2 = (1 + m) * l)
    (zip img_paths (List.map (spec_row sizes metrics c) (seq 0 n))).
Proof.
  intros Hc. apply Forall_forall. intros [p row] Hin.
  apply elem_of_zip_r in Hin. simpl in *.
  apply list_elem_of_In, in_map_iff in Hin as (i & <- & Hi%in_seq).
  assert (Hw : length (List.map PyFloat (spec_row sizes metrics c i))
               = l + m * l)
    by (eapply (length_row_of n l); eauto; lia).
  rewrite List.length_map in Hw. rewrite Hw; lia.
Qed.

(** C4: on tables in which every cell holds one float per level, for [n]
    images, at least one codec, one metric and one level, the report
    builder returns and writes one report per codec, in the order of the
    codecs. Each report has the columns [bpp0], [bpp1], ... followed by
    those of each metric, [(1 + m) * l] in all for [m] metrics and [l]
    levels, and [n + 1] rows of that many cells: one row per image, holding
    the size-proxy values then the metric values of the image, the rows
    sorted by image path whatever the order of the listing, and a last row
    labelled [mean] holding the mean of each column over the rows of the
    images. Every float is rendered with the format [%.5f]. *)
Theorem report_rows_and_columns :
  let files :=
    List.map (λ cs, spec_report img_paths folder l sizes metrics cs.1 cs.2)
      (zip (seq 0 k) Codecs) in
  _save_out_analysis img_paths (Some folder) (float_cells sizes)
    {| mt_rows := k; mt_cols := m; mt_lists := float_cells metrics |} tt []
    = (Normal tt, tt, files) ∧
  length files = k ∧
  Forall (λ f,
    csv_columns f =
      flat_map (λ name, List.map (λ lvl, String.append name (pretty lvl))
                          (seq 0 l))
        ("bpp" :: List.map metric_str Metrics) ∧
    length (csv_columns f) = (1 + m) * l ∧
    length (csv_rows f) = n + 1 ∧
    Forall (λ r, length r.2 = (1 + m) * l) (csv_rows f)) files ∧
  (∀ c s, c < k →
     let rows := List.map (spec_row sizes metrics c) (seq 0 n) in
     let df := sort_index (zip img_paths rows) in
     csv_rows (spec_report img_paths folder l sizes metrics c s) =
       List.map (λ r, (LabelPath r.1, List.map (render "%.5f") r.2)) df
         ++ [(LabelStr "mean",
              List.map (λ j, render "%.5f" (float_mean (column j df)))
                (seq 0 ((1 + m) * l)))] ∧
     StronglySorted row_le df ∧
     df ≡ₚ zip img_paths rows ∧
     (∀ df', NoDup img_paths → df' ≡ₚ zip img_paths rows →
             sort_index df' = df)).
Proof.
  intros files. split_and!.
  - by apply (save_out_analysis_run n l).
  - subst files. rewrite List.length_map, length_zip, length_seq. lia.
  - subst files. apply Forall_forall. intros f Hf%list_elem_of_In.
    apply in_map_iff in Hf as ([c s] & <- & Hcs%list_elem_of_In).
    apply elem_of_zip_l in Hcs. apply elem_of_seq_lt in Hcs. simpl in *.
    unfold spec_report. cbn [csv_columns csv_rows]. split_and!.
    + done.
    + apply length_report_columns.
    + rewrite length_app, List.length_map, length_sort_index, length_zip.
      rewrite List.length_map, length_seq, Hpaths. simpl. lia.
    + apply Forall_app. split.
      * apply Forall_forall. intros r Hr%list_elem_of_In.
        apply in_map_iff in Hr as (r0 & <- & Hr0%list_elem_of_In).
        simpl. rewrite List.length_map.
        rewrite sort_index_perm, Hpaths in Hr0.
        pose proof (spec_rows_width c ltac:(lia)) as Hw.
        rewrite Forall_forall in Hw. by apply Hw.
      * constructor; [|constructor]. simpl.
        by rewrite List.length_map, length_mean_row, length_report_columns.
  - intros c s Hc rows df. split_and!.
    + unfold spec_report. cbn [csv_rows]. rewrite Hpaths.
      fold rows. fold df. f_equal. f_equal. f_equal.
      unfold mean_row. by rewrite List.map_map, length_report_columns.
    + apply sort_index_sorted.
    + apply sort_index_perm.
    + intros df' Hnodup Hperm. apply sort_index_order_free; [|done].
      subst rows. rewrite <- Hpaths at 1.
      replace (List.map fst (zip img_paths
                 (List.map (spec_row sizes metrics c)
                    (seq 0 (length img_paths))))) with img_paths; [done|].
      symmetry. change (List.map fst ?x) with (fst <$> x).
      apply fst_zip. rewrite List.length_map, length_seq. lia.
Qed.
End ReportShape.

Lemma report_rows_and_columns_witness :
  let sizes := [[[1%float]; [2%float]]; [[3%float]; [4%float]]] in
  let metrics := [[[30%float]; [31%float]]; [[0.5%float]; [0.25%float]];
                  [[20%float]; [21%float]]; [[0.75%float]; [1%float]]] in
  let img_paths := [["d"; "b.png"]; ["d"; "a.png"]] in
  let files :=
    List.map (λ cs, spec_report (H := demo ["net"; "jpeg"] true) img_paths
                      ["out"; "test"] 1 sizes metrics cs.1 cs.2)
      (zip (seq 0 2) ["net"; "jpeg"]) in
  _save_out_analysis (H := demo ["net"; "jpeg"] true) img_paths
    (Some ["out"; "test"]) (float_cells sizes)
    {| mt_rows := 2; mt_cols := 2; mt_lists := float_cells metrics |} tt []
    = (Normal tt, tt, files) ∧
  length files = 2 ∧
  Forall (λ f,
    csv_columns f = ["bpp0"; "psnr0"; "ssim0"] ∧
    length (csv_columns f) = (1 + 2) * 1 ∧
    length (csv_rows f) = 2 + 1 ∧
    Forall (λ r, length r.2 = (1 + 2) * 1) (csv_rows f)) files.
Proof.
  intros sizes metrics img_paths files.
  destruct (report_rows_and_columns (H := demo ["net"; "jpeg"] true) 2 1
              sizes metrics img_paths ["out"; "test"])
    as (Hrun & Hlen & Hshape & _).
  - simpl. lia.
  - simpl. lia.
  - lia.
  - lia.
  - split; [reflexivity|]. repeat constructor.
  - split; [reflexivity|]. repeat constructor.
  - reflexivity.
  - split_and!; [exact Hrun|exact Hlen|exact Hshape].
Defined.
(** * Further properties of [AutoEnc] *)

(** ** Strings and their characters *)

Lemma list_ascii_of_string_app s t :
  list_ascii_of_string (s +:+ t) =
    list_ascii_of_string s ++ list_ascii_of_string t.
Proof. induction s as [|c s IH]; simpl; [done|]. by rewrite IH. Qed.

Lemma string_of_list_ascii_inj cs ds :
  string_of_list_ascii cs = string_of_list_ascii ds → cs = ds.
Proof.
  intros Heq.
  by rewrite <- (list_ascii_of_string_of_list_ascii cs),
             <- (list_ascii_of_string_of_list_ascii ds), Heq.
Qed.

Lemma list_ascii_of_string_inj s t :
  list_ascii_of_string s = list_ascii_of_string t → s = t.
Proof.
  intros Heq.
  by rewrite <- (string_of_list_ascii_of_string s),
             <- (string_of_list_ascii_of_string t), Heq.
Qed.

(** The decimal digits of a number hold no slash. *)
Lemma pretty_N_go_no_slash x s :
  Forall (λ c, is_slash c = false) (list_ascii_of_string s) →
  Forall (λ c, is_slash c = false) (list_ascii_of_string (pretty_N_go x s)).
Proof.
  revert s. induction (N.lt_wf_0 x) as [x _ IH]; intros s Hs.
  destruct (decide (x = 0)%N) as [->|Hx].
  - by rewrite pretty_N_go_0.
  - rewrite pretty_N_go_step by lia. apply IH.
    + apply N.div_lt; lia.
    + simpl. constructor; [|done].
      unfold pretty_N_char. by repeat case_match.
Qed.

Lemma pretty_nat_no_slash (n : nat) :
  Forall (λ c, is_slash c = false) (list_ascii_of_string (pretty n)).
Proof.
  unfold pretty, pretty_nat, pretty, pretty_N.
  destruct (decide (N.of_nat n = 0)%N).
  - by repeat constructor.
  - apply pretty_N_go_no_slash. constructor.
Qed.

(** ** Paths read from strings *)

Lemma split_slash_plain t :
  Forall (λ c, is_slash c = false) t → split_slash t = [t].
Proof.
  induction 1 as [|c t Hc _ IH]; [done|]. simpl. by rewrite Hc, IH.
Qed.

(** Characters put after a string, none of them a slash, lengthen the
    last component of its split. *)
Lemma split_slash_tail cs :
  ∃ segs seg,
    split_slash cs = segs ++ [seg] ∧
    ∀ t, Forall (λ c, is_slash c = false) t →
         split_slash (cs ++ t) = segs ++ [seg ++ t].
Proof.
  induction cs as [|c cs (segs & seg & Hsplit & Htail)].
  - exists [], []. split; [done|]. intros t Ht. by apply split_slash_plain.
  - simpl. destruct (is_slash c).
    + exists ([] :: segs), seg. rewrite Hsplit. split; [done|].
      intros t Ht. by rewrite Htail.
    + destruct segs as [|s0 segs].
      * exists [], (c :: seg). rewrite Hsplit. split; [done|].
        intros t Ht. by rewrite Htail.
      * exists ((c :: s0) :: segs), seg. rewrite Hsplit. split; [done|].
        intros t Ht. by rewrite Htail.
Qed.

Lemma split_slash_snoc_slash cs :
  split_slash (cs ++ ["/"%char]) = split_slash cs ++ [[]].
Proof.
  induction cs as [|c cs IH]; [done|]. simpl. rewrite IH.
  destruct (is_slash c); [done|].
  destruct (split_slash_tail cs) as (segs & seg & Hsplit & _).
  destruct (split_slash cs); [|done]. by destruct segs.
Qed.

Lemma leading_slashes_tail cs c t :
  is_slash c = false → leading_slashes (cs ++ c :: t) = leading_slashes cs.
Proof.
  intros Hc. induction cs as [|c0 cs IH]; simpl; [by rewrite Hc|].
  destruct (is_slash c0); [by rewrite IH|done].
Qed.

Lemma keeps_part_numbered seg ds :
  keeps_part (seg ++ "_"%char :: ds) = true.
Proof.
  unfold keeps_part.
  rewrite (bool_decide_false (_ = [])) by (by destruct seg).
  rewrite bool_decide_false; [done|].
  by destruct seg as [|a [|b seg]].
Qed.

(** The numbered names of a folder share their parent; their last part is
    the last component of the folder's name, followed by the underscore
    and the number. *)
Lemma numbered_parts out_folder :
  ∃ segs seg,
    split_slash (list_ascii_of_string out_folder) = segs ++ [seg] ∧
    ∀ cnt,
      numbered out_folder cnt =
        (path_root (list_ascii_of_string out_folder)
           ++ List.map string_of_list_ascii (List.filter keeps_part segs))
          ++ [string_of_list_ascii
                (seg ++ "_"%char :: list_ascii_of_string (pretty cnt))].
Proof.
  destruct (split_slash_tail (list_ascii_of_string out_folder))
    as (segs & seg & Hsplit & Htail).
  exists segs, seg. split; [done|]. intros cnt.
  unfold numbered, Path_of_str. rewrite list_ascii_of_string_app.
  change (list_ascii_of_string ("_" +:+ pretty cnt))
    with ("_"%char :: list_ascii_of_string (pretty cnt)).
  rewrite Htail by (constructor; [done|apply pretty_nat_no_slash]).
  unfold path_root. rewrite leading_slashes_tail by done.
  rewrite List.filter_app. cbn [List.filter].
  rewrite keeps_part_numbered. by rewrite List.map_app, app_assoc.
Qed.

Lemma numbered_inj out_folder j k :
  numbered out_folder j = numbered out_folder k → j = k.
Proof.
  destruct (numbered_parts out_folder) as (segs & seg & _ & Hparts).
  rewrite !Hparts. intros Heq%app_inv_head. injection Heq as Heq.
  apply string_of_list_ascii_inj, app_inv_head in Heq.
  injection Heq as Heq. apply list_ascii_of_string_inj in Heq.
  by apply (inj pretty) in Heq.
Qed.

(** ** The folder of a run *)

Lemma find_free_out_spec fuel out_folder fs out cnt res :
  find_free_out fuel out_folder fs out cnt = Some res →
  (res ∉ fs) ∧
  ((res = out ∧ (out ∉ fs)) ∨
   ∃ k, cnt ≤ k ∧ res = numbered out_folder k ∧ out ∈ fs ∧
        ∀ j, cnt ≤ j < k → numbered out_folder j ∈ fs).
Proof.
  revert out cnt. induction fuel as [|fuel IH]; intros out cnt; [done|].
  simpl. unfold path_exists. case_bool_decide as Hout.
  - intros Hres. destruct (IH _ _ Hres) as [Hfree [[-> _]|Hlater]].
    + split; [done|]. right. exists cnt. split_and!; [lia|done|done|].
      intros j Hj. lia.
    + destruct Hlater as (k & Hk & -> & Hin & Hbefore).
      split; [done|]. right. exists k. split_and!; [lia|done|done|].
      intros j Hj. destruct (decide (j = cnt)) as [->|Hne]; [done|].
      apply Hbefore. lia.
  - intros [= <-]. split; [done|]. by left.
Qed.

(** Once some numbered name is free, the loop ends. *)
Lemma find_free_out_ends d fuel out_folder fs out cnt :
  numbered out_folder (cnt + d) ∉ fs → d + 1 < fuel →
  ∃ res, find_free_out fuel out_folder fs out cnt = Some res.
Proof.
  revert fuel out cnt.
  induction d as [|d IH]; intros fuel out cnt Hfree Hfuel;
    (destruct fuel as [|fuel]; [lia|]); simpl; unfold path_exists;
    case_bool_decide as Hout; eauto.
  - rewrite Nat.add_0_r in Hfree.
    destruct fuel as [|fuel]; [lia|]. simpl. unfold path_exists.
    rewrite bool_decide_false by done. eauto.
  - apply IH; [|lia]. by rewrite Nat.add_1_r, Nat.add_succ_l, <- Nat.add_succ_r.
Qed.

(** Among the first numbered names, one more than there are paths, one is
    free. *)
Lemma some_numbered_is_free out_folder (fs : list (list string)) :
  ∃ k, k ≤ length fs ∧ numbered out_folder k ∉ fs.
Proof.
  destruct (decide (Forall (λ k, numbered out_folder k ∈ fs)
                      (seq 0 (S (length fs))))) as [Hall|Hsome].
  - exfalso.
    assert (Hdup : NoDup (numbered out_folder <$> seq 0 (S (length fs)))).
    { apply NoDup_fmap_2_strong; [|apply NoDup_seq].
      intros j k _ _. apply numbered_inj. }
    apply NoDup_submseteq with (k := fs) in Hdup.
    + apply submseteq_length in Hdup.
      rewrite length_fmap, length_seq in Hdup. lia.
    + intros p (k & -> & Hk)%list_elem_of_fmap.
      rewrite Forall_forall in Hall. by apply Hall.
  - apply not_Forall_Exists in Hsome; [|apply _].
    apply Exists_exists in Hsome as (k & Hk%elem_of_seq_lt & Hfree).
    exists k. split; [lia|done].
Qed.

(** X1: the constructor never takes a folder that exists. The folder of
    the run is [Path(out_folder)] when that path is free; otherwise it is
    the first free one of [out_folder_0], [out_folder_1], ...: every name
    with a smaller number exists. The folder did not exist before, it
    exists afterwards, and nothing that existed is lost. *)
Theorem init_takes_the_first_free_name fuel out_folder fs out fs' :
  AutoEnc_init fuel out_folder fs = Some (out, fs') →
  (out ∉ fs) ∧
  (out ≠ [] → out ∈ fs') ∧
  (∀ p, p ∈ fs → p ∈ fs') ∧
  (Path_of_str out_folder ∉ fs → out = Path_of_str out_folder) ∧
  (Path_of_str out_folder ∈ fs →
     ∃ k, out = numbered out_folder k ∧
          ∀ j, j < k → numbered out_folder j ∈ fs).
Proof.
  unfold AutoEnc_init. cbv zeta.
  destruct (find_free_out fuel out_folder fs (Path_of_str out_folder) 0)
    as [res|] eqn:Hloop; [|done].
  simpl. intros [= <- <-].
  destruct (find_free_out_spec _ _ _ _ _ _ Hloop) as [Hfree Hwhich].
  split_and!.
  - done.
  - apply mkdir_parents_creates.
  - intros p Hp. unfold mkdir_parents. apply elem_of_app. by left.
  - intros Hout. destruct Hwhich as [[-> _]|(k & _ & _ & Hin & _)]; done.
  - intros Hout. destruct Hwhich as [[_ Hno]|(k & _ & -> & _ & Hbefore)];
      [done|].
    exists k. split; [done|]. intros j Hj. apply Hbefore. lia.
Qed.

Lemma init_takes_the_first_free_name_witness :
  (["runs"; "out_1"] ∉ [["runs"]; ["runs"; "out"]; ["runs"; "out_0"]]) ∧
  (Path_of_str "runs/out"
     ∈ [["runs"]; ["runs"; "out"]; ["runs"; "out_0"]] →
   ∃ k, ["runs"; "out_1"] = numbered "runs/out" k ∧
        ∀ j, j < k →
          numbered "runs/out" j
            ∈ [["runs"]; ["runs"; "out"]; ["runs"; "out_0"]]).
Proof.
  destruct (init_takes_the_first_free_name 5 "runs/out"
              [["runs"]; ["runs"; "out"]; ["runs"; "out_0"]]
              ["runs"; "out_1"]
              [["runs"]; ["runs"; "out"]; ["runs"; "out_0"]; ["runs"];
               ["runs"; "out_1"]])
    as (Hfree & _ & _ & _ & Hnum).
  - reflexivity.
  - split; [exact Hfree|exact Hnum].
Defined.

(** X2: the search of the constructor for a free folder ends: on a file
    system with [n] paths it has a result after [n + 2] tests of existence
    at most, which is [Path(out_folder)] or a numbered name whose number
    is at most [n]. *)
Theorem init_finds_a_free_name fuel out_folder fs :
  length fs + 1 < fuel →
  ∃ out fs',
    AutoEnc_init fuel out_folder fs = Some (out, fs') ∧
    (out = Path_of_str out_folder ∨
     ∃ k, k ≤ length fs ∧ out = numbered out_folder k).
Proof.
  intros Hfuel.
  destruct (some_numbered_is_free out_folder fs) as (k & Hk & Hfree).
  destruct (find_free_out_ends k fuel out_folder fs
              (Path_of_str out_folder) 0) as [res Hloop]; [done|lia|].
  exists res, (mkdir_parents res fs). unfold AutoEnc_init. cbv zeta.
  rewrite Hloop. split; [done|].
  destruct (find_free_out_spec _ _ _ _ _ _ Hloop)
    as [_ [[-> _]|(k' & _ & -> & _ & Hbefore)]]; [by left|].
  right. exists k'. split; [|done].
  destruct (decide (k' ≤ k)) as [|Hgt]; [lia|].
  destruct Hfree. apply Hbefore. lia.
Qed.

Lemma init_finds_a_free_name_witness :
  ∃ out fs',
    AutoEnc_init 4 "out" [["out"]; ["out_0"]] = Some (out, fs') ∧
    (out = Path_of_str "out" ∨
     ∃ k, k ≤ length [["out"]; ["out_0"]] ∧ out = numbered "out" k).
Proof.
  apply (init_finds_a_free_name 4 "out" [["out"]; ["out_0"]]).
  simpl. lia.
Defined.

(** X3: when [out_folder] ends with a slash, the numbered names that the
    constructor tries are not beside the folder but inside it: they are
    the folders [_0], [_1], ... of [Path(out_folder)]. *)
Theorem init_numbers_inside_after_a_slash out_folder cnt :
  numbered (out_folder +:+ "/") cnt =
    path_div (Path_of_str (out_folder +:+ "/")) ("_" +:+ pretty cnt).
Proof.
  destruct (numbered_parts (out_folder +:+ "/"))
    as (segs & seg & Hsplit & Hparts).
  rewrite Hparts. unfold path_div, Path_of_str.
  rewrite list_ascii_of_string_app in Hsplit |- *.
  change (list_ascii_of_string "/") with ["/"%char] in *.
  rewrite split_slash_snoc_slash in Hsplit |- *.
  apply app_inj_tail in Hsplit as [<- <-].
  rewrite List.filter_app. cbn [List.filter].
  change (keeps_part []) with false. cbv iota.
  rewrite app_nil_r. f_equal. f_equal. simpl.
  by rewrite string_of_list_ascii_of_string.
Qed.

(** ** The name of the saved image *)

Lemma rfind_dot_from_none i j cs :
  rfind_dot_from i cs = None → rfind_dot_from j cs = None.
Proof.
  revert i j. induction cs as [|c cs IH]; intros i j; simpl; [done|].
  destruct (rfind_dot_from (S i) cs) eqn:Hi; [done|].
  rewrite (IH (S i) (S j)) by done. by destruct (Ascii.eqb c ".").
Qed.

(** The last dot of a name that ends with a dot and characters other than
    dots is that dot. *)
Lemma rfind_dot_from_suffix i cs e :
  rfind_dot_from 0 e = None →
  rfind_dot_from i (cs ++ "."%char :: e) = Some (i + length cs).
Proof.
  intros He. revert i. induction cs as [|c cs IH]; intros i; simpl.
  - rewrite (rfind_dot_from_none 0 (S i)) by done. f_equal. lia.
  - rewrite IH. f_equal. lia.
Qed.

Lemma length_list_ascii_of_string s :
  length (list_ascii_of_string s) = String.length s.
Proof. induction s as [|c s IH]; simpl; [done|]. by rewrite IH. Qed.

Lemma length_string_app s t :
  String.length (s +:+ t) = String.length s + String.length t.
Proof. induction s as [|c s IH]; simpl; [done|]. by rewrite IH. Qed.

Lemma substring_prefix s t :
  String.substring 0 (String.length s) (s +:+ t) = s.
Proof.
  induction s as [|c s IH]; simpl.
  - by destruct t.
  - by rewrite IH.
Qed.

(** The stem of a name made of a stem that is not empty and the extension
    [.png] is that stem. *)
Lemma path_stem_png folder stem :
  stem ≠ "" → path_stem (folder ++ [stem +:+ ".png"]) = stem.
Proof.
  intros Hstem. unfold path_stem, path_name. rewrite List.last_last.
  unfold rfind_dot. rewrite list_ascii_of_string_app.
  change (list_ascii_of_string ".png") with ("."%char :: ["p"; "n"; "g"]%char).
  rewrite rfind_dot_from_suffix by done.
  rewrite length_list_ascii_of_string, length_string_app. simpl.
  rewrite bool_decide_true.
  - apply substring_prefix.
  - destruct stem; [done|]. simpl. lia.
Qed.

(** X4: saving keeps the stem. For an image whose name has a stem,
    [get_out_pathname] with the extension [.png] gives a path in the save
    folder whose name is the stem with [.png] and whose stem is the stem of
    the image; the path of a saved image is its own output path, so that
    saving a saved image again into the same folder names the same file. *)
Theorem out_pathname_keeps_the_stem img_path folder :
  path_stem img_path ≠ "" →
  ∃ out,
    get_out_pathname img_path (Some folder) ".png" = inr out ∧
    out = path_div folder (path_stem img_path +:+ ".png") ∧
    path_name out = path_stem img_path +:+ ".png" ∧
    path_stem out = path_stem img_path ∧
    get_out_pathname out (Some folder) ".png" = inr out.
Proof.
  intros Hstem. eexists. split; [reflexivity|].
  assert (Hsame : path_stem (path_div folder (path_stem img_path +:+ ".png"))
                  = path_stem img_path)
    by (by apply path_stem_png).
  split_and!.
  - done.
  - unfold path_name, path_div. apply List.last_last.
  - exact Hsame.
  - unfold get_out_pathname. by rewrite Hsame.
Qed.

Lemma out_pathname_keeps_the_stem_witness :
  ∃ out,
    get_out_pathname ["data"; "kodim01.bmp"] (Some ["out"; "test"]) ".png"
      = inr out ∧
    out = path_div ["out"; "test"]
            (path_stem ["data"; "kodim01.bmp"] +:+ ".png") ∧
    path_name out = path_stem ["data"; "kodim01.bmp"] +:+ ".png" ∧
    path_stem out = path_stem ["data"; "kodim01.bmp"] ∧
    get_out_pathname out (Some ["out"; "test"]) ".png" = inr out.
Proof.
  apply (out_pathname_keeps_the_stem ["data"; "kodim01.bmp"]
           ["out"; "test"]).
  vm_compute. discriminate.
Defined.

(** ** The prediction folder, once resolved *)

Section CreateOutFolderMore.
Context `{Collaborators}.

Lemma mkdir_parents_ancestors (p : list string) dirs n :
  0 < n ≤ length p → take n p ∈ mkdir_parents p dirs.
Proof.
  intros Hn. unfold mkdir_parents. apply elem_of_app. right.
  apply list_elem_of_In, in_map_iff. exists n. split; [done|].
  apply in_seq. lia.
Qed.

Lemma mkdir_parents_again (p : list string) dirs d :
  d ∈ mkdir_parents p (mkdir_parents p dirs) ↔ d ∈ mkdir_parents p dirs.
Proof.
  unfold mkdir_parents. rewrite !elem_of_app. tauto.
Qed.

(** X5: outside the combination of [TRAIN] with [RESIDUES], and when an
    output is asked for, the prediction folder is the folder of the run
    extended by the test name in the mode [TEST] and by the validation
    name in every other mode, [TRAIN] included. The folder and all its
    ancestors exist afterwards and every directory that existed still
    does. Resolving it a second time gives the same folder and creates
    nothing more. *)
Theorem create_out_folder_is_repeatable out_name exec_mode out_type dirs :
  ¬ (exec_mode = TRAIN ∧ out_type = RESIDUES) → out_type ≠ NONE →
  let p := path_div out_name
             (if decide (exec_mode = TEST) then test_name
              else validation_name) in
  let r := _create_out_folder out_name exec_mode out_type dirs in
  r.1 = inr (Some p) ∧
  p ∈ r.2 ∧
  (∀ n, 0 < n ≤ length p → take n p ∈ r.2) ∧
  (∀ d, d ∈ dirs → d ∈ r.2) ∧
  (_create_out_folder out_name exec_mode out_type r.2).1 = inr (Some p) ∧
  (∀ d, d ∈ (_create_out_folder out_name exec_mode out_type r.2).2
        ↔ d ∈ r.2).
Proof.
  intros Hnot Hnone p r. subst r.
  rewrite !create_out_folder_resolves by done.
  destruct (decide (out_type = NONE)) as [|_]; [done|].
  cbn [fst snd]. fold p. split_and!.
  - done.
  - apply mkdir_parents_creates. unfold p, path_div. by destruct out_name.
  - intros n Hn. by apply mkdir_parents_ancestors.
  - intros d Hd. unfold mkdir_parents. apply elem_of_app. by left.
  - done.
  - intros d. apply mkdir_parents_again.
Qed.
End CreateOutFolderMore.

Lemma create_out_folder_is_repeatable_witness :
  let p := path_div ["runs"; "out"] "validation" in
  let r := _create_out_folder (H := demo ["net"] true) ["runs"; "out"] TRAIN
             RECONSTRUCTION [["runs"]] in
  r.1 = inr (Some p) ∧
  p ∈ r.2 ∧
  (∀ n, 0 < n ≤ length p → take n p ∈ r.2) ∧
  (∀ d, d ∈ [["runs"]] → d ∈ r.2) ∧
  (_create_out_folder (H := demo ["net"] true) ["runs"; "out"] TRAIN
     RECONSTRUCTION r.2).1 = inr (Some p) ∧
  (∀ d, d ∈ (_create_out_folder (H := demo ["net"] true) ["runs"; "out"]
               TRAIN RECONSTRUCTION r.2).2
        ↔ d ∈ r.2).
Proof.
  apply (create_out_folder_is_repeatable (H := demo ["net"] true)
           ["runs"; "out"] TRAIN RECONSTRUCTION [["runs"]]).
  - intros [_ Hres]. discriminate Hres.
  - discriminate.
Defined.

(** ** The coordinator at its edges *)

Section CoordinatorMore.
Context `{Collaborators}.
Implicit Types (imgs : list (list string)) (items q : list payload)
  (tr : list co_event).

(** With fewer items than images the loop makes one turn per item, starts
    the next turn, and blocks at the queue. *)
Lemma output_loop_starves start imgs items bpps metrics out_folder tr :
  NET_pos < length bpps → NET_pos < mt_rows metrics →
  length items < length imgs →
  output_loop start imgs bpps metrics out_folder items tr =
    (Spinning, [],
     tr ++ loop_events out_folder start imgs items
        ++ (if decide ((start + length items) `mod` 5 = 0)
            then [CoGcCollect] else [])).
Proof.
  intros Hb Hm. revert start items tr.
  induction imgs as [|img imgs IH]; intros start [|item items] tr Hlen;
    simpl in Hlen; try lia.
  - rewrite output_loop_cons, Nat.add_0_r. cbn [loop_events app].
    destruct (decide (start `mod` 5 = 0)).
    + erewrite bind_normal by reflexivity. by apply bind_spinning.
    + erewrite bind_normal by reflexivity. rewrite app_nil_r.
      by apply bind_spinning.
  - rewrite output_loop_cons. cbn [loop_events]. unfold iteration_events.
    replace (start + length (item :: items)) with (S start + length items)
      by (simpl; lia).
    destruct (decide (start `mod` 5 = 0)).
    + erewrite bind_normal by reflexivity.
      erewrite bind_normal by apply queue_get_run.
      erewrite bind_normal by (by apply codecs_out_routines_run).
      rewrite IH by lia. by rewrite <- !app_assoc.
    + erewrite bind_normal by reflexivity.
      erewrite bind_normal by apply queue_get_run.
      erewrite bind_normal by (by apply codecs_out_routines_run).
      rewrite IH by lia. by rewrite <- !app_assoc.
Qed.

Lemma loop_events_take out_folder start imgs items :
  loop_events out_folder start imgs items =
    loop_events out_folder start (take (length items) imgs) items.
Proof.
  revert start items. induction imgs as [|img imgs IH];
    intros start [|item items]; try done.
  cbn [loop_events length take]. by rewrite <- IH.
Qed.

Lemma loop_events_not_winding_up out_folder start imgs items :
  List.filter is_winding_up (loop_events out_folder start imgs items) = [].
Proof.
  revert start items. induction imgs as [|img imgs IH];
    intros start [|item items]; try done.
  cbn [loop_events]. rewrite List.filter_app, IH. unfold iteration_events.
  by destruct (decide (start `mod` 5 = 0)).
Qed.

(** X6: when the queue delivers fewer items than the listing has images
    and then stays empty, the coordinator never finishes: it has made one
    turn per item received, submitting the jobs of the first images, and
    blocks on the queue in the next turn. The pools are never closed or
    joined, and no report is started. *)
Theorem handle_output_starves out_name exec_mode out_type dirs
    img_pathnames written items out_folder :
  (_create_out_folder out_name exec_mode out_type dirs).1 = inr out_folder →
  NET_pos < length Codecs →
  length items < length img_pathnames →
  ∃ log,
    _handle_output out_name exec_mode out_type dirs img_pathnames written
      items [] = (Spinning, [], log) ∧
    List.filter is_winding_up log = [] ∧
    submitted PoolA log =
      List.map (λ '(i, (img, item)), CalcBppUsingGzip item img i)
        (zip (seq 0 (length items))
             (zip (take (length items) img_pathnames) items)) ∧
    submitted PoolB log =
      List.map (λ '(i, (img, item)),
                  SaveImgsFromPatches img out_folder item i)
        (zip (seq 0 (length items))
             (zip (take (length items) img_pathnames) items)).
Proof.
  intros Hfolder Hnet Hlen. eexists. split.
  - unfold _handle_output. unfold bind at 1. rewrite Hfolder. simpl.
    apply bind_spinning.
    apply output_loop_starves; [by rewrite length_replicate|done..].
  - assert (Htake : length items = length (take (length items) img_pathnames))
      by (rewrite length_take; lia).
    cbn [app]. split_and!.
    + rewrite List.filter_app, loop_events_not_winding_up.
      by destruct (decide _).
    + rewrite submitted_app, loop_events_take.
      rewrite loop_events_submitted_a by done.
      rewrite <- Htake. rewrite <- (app_nil_r (List.map _ _)) at 2.
      f_equal. by destruct (decide _).
    + rewrite submitted_app, loop_events_take.
      rewrite loop_events_submitted_b by done.
      rewrite <- Htake. rewrite <- (app_nil_r (List.map _ _)) at 2.
      f_equal. by destruct (decide _).
Qed.

(** Without a folder the report builder fails at once, whatever the
    tables hold. *)
Lemma save_out_analysis_no_folder img_paths bpps_proxy metrics_proxy :
  Codecs ≠ [] →
  _save_out_analysis img_paths None bpps_proxy metrics_proxy tt [] =
    (Raised TypeError, tt, []).
Proof.
  intros Hcodecs. unfold _save_out_analysis.
  destruct Codecs as [|s cs]; [done|]. by apply bind_raised.
Qed.

(** X7: with the output type [NONE], which [train_model] sets, the
    coordinator resolves no folder and still runs its loop: every job of
    the second pool is handed [None] as its folder. After the pools are
    joined the report builder raises [TypeError] on the first report name,
    so that the coordinator ends with that exception and no report. *)
Theorem handle_output_without_output_type out_name exec_mode dirs
    img_pathnames written items rest :
  NET_pos < length Codecs →
  length items = length img_pathnames →
  let r := _handle_output out_name exec_mode NONE dirs img_pathnames written
             (items ++ rest) [] in
  r = (Raised TypeError, rest,
       loop_events None 0 img_pathnames items ++ closing_events []) ∧
  submitted PoolB r.2 =
    List.map (λ '(i, (img, item)), SaveImgsFromPatches img None item i)
      (zip (seq 0 (length img_pathnames)) (zip img_pathnames items)).
Proof.
  intros Hnet Hlen r.
  assert (Hrun : r = (Raised TypeError, rest,
            loop_events None 0 img_pathnames items ++ closing_events [])).
  { subst r. unfold _handle_output.
    unfold bind at 1. unfold _create_out_folder.
    destruct (decide (NONE = NONE)) as [_|]; [|done]. simpl.
    unfold bind at 1.
    rewrite output_loop_run; [|by rewrite length_replicate|done..].
    unfold bind, emit, ret, call_save_out_analysis. simpl.
    destruct (written _) as [bpps metrics].
    rewrite save_out_analysis_no_folder.
    - by rewrite <- !app_assoc.
    - intros Hnil. rewrite Hnil in Hnet. simpl in Hnet. lia. }
  split; [exact Hrun|]. rewrite Hrun. cbn [snd].
  destruct (closing_events_quiet []) as (_ & _ & Hsub).
  by rewrite submitted_app, Hsub, app_nil_r, loop_events_submitted_b.
Qed.

(** X10: when the position of [Codecs.NET] is beyond the tables, the
    first turn of the loop takes its item from the queue and then raises
    [IndexError] at [bpps[Codecs.NET]]: nothing is submitted to a pool,
    the pools are left open and no report is started. *)
Theorem handle_output_net_out_of_range out_name exec_mode out_type dirs
    img imgs written item q out_folder :
  (_create_out_folder out_name exec_mode out_type dirs).1 = inr out_folder →
  length Codecs ≤ NET_pos →
  _handle_output out_name exec_mode out_type dirs (img :: imgs) written
    (item :: q) [] =
    (Raised IndexError, q, [CoGcCollect; CoQueueGet item]).
Proof.
  intros Hfolder Hnet. unfold _handle_output.
  unfold bind at 1. rewrite Hfolder.
  unfold lift at 1, ret at 1, _instantiate_shared_variables.
  cbv beta iota zeta.
  apply bind_raised. rewrite output_loop_cons.
  destruct (decide (0 `mod` 5 = 0)) as [_|Hne]; [|by destruct Hne].
  erewrite bind_normal by reflexivity.
  erewrite bind_normal by apply queue_get_run.
  apply bind_raised. unfold _codecs_out_routines.
  apply bind_raised. unfold bpp_row.
  rewrite lookup_ge_None_2; [done|]. by rewrite length_replicate.
Qed.
End CoordinatorMore.

Lemma handle_output_starves_witness :
  let imgs := [["d"; "a.png"]; ["d"; "b.png"]; ["d"; "c.png"]] in
  let items : list (@payload (demo ["net"] true)) := [10; 11] in
  ∃ log,
    _handle_output (H := demo ["net"] true) ["out"] TEST RECONSTRUCTION []
      imgs (λ t, t) items [] = (Spinning, [], log) ∧
    List.filter is_winding_up log = [] ∧
    submitted PoolA log =
      List.map (λ '(i, (img, item)), CalcBppUsingGzip item img i)
        (zip (seq 0 (length items)) (zip (take (length items) imgs) items)) ∧
    submitted PoolB log =
      List.map (λ '(i, (img, item)),
                  SaveImgsFromPatches img (Some ["out"; "test"]) item i)
        (zip (seq 0 (length items)) (zip (take (length items) imgs) items)).
Proof.
  intros imgs items.
  apply (handle_output_starves (H := demo ["net"] true) ["out"] TEST
           RECONSTRUCTION [] imgs (λ t, t) items (Some ["out"; "test"])).
  - reflexivity.
  - simpl. lia.
  - simpl. lia.
Defined.

Lemma handle_output_without_output_type_witness :
  let imgs := [["d"; "a.png"]] in
  let items : list (@payload (demo ["net"] true)) := [10] in
  let r := _handle_output (H := demo ["net"] true) ["out"] TRAIN NONE []
             imgs (λ t, t) (items ++ [11]) [] in
  r = (Raised TypeError, [11],
       loop_events (H := demo ["net"] true) None 0 imgs items
         ++ closing_events (H := demo ["net"] true) []) ∧
  submitted PoolB r.2 =
    List.map (λ '(i, (img, item)), SaveImgsFromPatches img None item i)
      (zip (seq 0 (length imgs)) (zip imgs items)).
Proof.
  intros imgs items.
  apply (handle_output_without_output_type (H := demo ["net"] true) ["out"]
           TRAIN [] imgs (λ t, t) items [11]).
  - simpl. lia.
  - reflexivity.
Defined.

Lemma handle_output_net_out_of_range_witness :
  let item : @payload (demo [] true) := 10 in
  let q : list (@payload (demo [] true)) := [11] in
  _handle_output (H := demo [] true) ["out"] TEST RECONSTRUCTION []
    [["d"; "a.png"]] (λ t, t) (item :: q) [] =
    (Raised IndexError, q, [CoGcCollect; CoQueueGet item]).
Proof.
  intros item q.
  apply (handle_output_net_out_of_range (H := demo [] true) ["out"] TEST
           RECONSTRUCTION [] ["d"; "a.png"] [] (λ t, t) item q
           (Some ["out"; "test"])).
  - reflexivity.
  - simpl. lia.
Defined.

(** ** A data set without images *)

Section EmptyDataSet.
Context `{Collaborators}.

Lemma forallb_replicate {A} (f : A → bool) n x :
  f x = true → forallb f (replicate n x) = true.
Proof. intros Hx. induction n as [|n IH]; simpl; [done|]. by rewrite Hx. Qed.

Lemma dims_empty_lists r :
  0 < r → dims (PyList (List.map PyList (replicate r []))) = [r; 0].
Proof.
  intros Hr. rewrite dims_list.
  change (List.map ?f ?l) with (f <$> l).
  rewrite !fmap_replicate, length_replicate. f_equal.
  apply common_prefix_all_const.
  - by destruct r; [lia|].
  - by apply Forall_replicate.
Qed.

Lemma regular_empty_lists r :
  regular (PyList (List.map PyList (replicate r []))) = true.
Proof.
  destruct r as [|r]; [done|].
  rewrite regular_list.
  change (List.map ?f ?l) with (f <$> l).
  rewrite !fmap_replicate. apply andb_true_intro.
  split; apply forallb_replicate; [done|].
  apply bool_decide_eq_true. symmetry.
  apply common_prefix_all_const; [done|]. by apply Forall_replicate.
Qed.

Lemma np_array_empty_lists r :
  ∃ a, np_array (PyList (List.map PyList (replicate r []))) = inr a ∧
       nd_shape a = dims (PyList (List.map PyList (replicate r []))).
Proof.
  unfold np_array. rewrite regular_empty_lists. by eexists.
Qed.

(** On tables whose lists are empty the report builder raises
    [ValueError]: the metrics cannot be reshaped to zero images. *)
Lemma save_out_analysis_empty_lists img_paths folder :
  0 < length Codecs →
  _save_out_analysis img_paths (Some folder) (replicate (length Codecs) [])
    {| mt_rows := length Codecs; mt_cols := length Metrics;
       mt_lists := replicate (length Codecs * length Metrics) [] |} tt [] =
    (Raised ValueError, tt, []).
Proof.
  intros Hk. unfold _save_out_analysis.
  rewrite csv_paths_resolved, bind_lift_inr.
  destruct (np_array_empty_lists (length Codecs)) as (bpps & -> & Hshape).
  rewrite bind_lift_inr. cbn [mt_lists mt_rows mt_cols].
  destruct (np_array_empty_lists (length Codecs * length Metrics))
    as (metrics & -> & _).
  rewrite bind_lift_inr.
  assert (Hfirst : nd_len_first bpps = inr 0).
  { unfold nd_len_first. rewrite Hshape, dims_empty_lists by done.
    destruct (length Codecs); [lia|done]. }
  rewrite Hfirst, bind_lift_inr.
  apply bind_raised. unfold nd_reshape_infer.
  destruct (decide _) as [|Hne]; [done|].
  destruct Hne. simpl. lia.
Qed.

(** X9: a listing without images gives no report. The tables are
    allocated with empty lists, the loop makes no turn and takes nothing
    from the queue, the pools are closed and joined, and the report
    builder then raises [ValueError], because the metrics cannot be
    reshaped to zero images: the coordinator ends with that exception. *)
Theorem empty_listing_has_no_report out_name exec_mode out_type dirs written
    (q : list payload) folder img_paths :
  (_create_out_folder out_name exec_mode out_type dirs).1
    = inr (Some folder) →
  0 < length Codecs →
  written (_instantiate_shared_variables 0)
    = _instantiate_shared_variables 0 →
  _save_out_analysis img_paths (Some folder)
    (_instantiate_shared_variables 0).1 (_instantiate_shared_variables 0).2
    tt [] = (Raised ValueError, tt, []) ∧
  _handle_output out_name exec_mode out_type dirs [] written q [] =
    (Raised ValueError, q, closing_events []).
Proof.
  intros Hfolder Hk Hwritten.
  assert (Hreport : ∀ paths,
    _save_out_analysis paths (Some folder)
      (_instantiate_shared_variables 0).1 (_instantiate_shared_variables 0).2
      tt [] = (Raised ValueError, tt, [])).
  { intros paths. by apply save_out_analysis_empty_lists. }
  split; [apply Hreport|].
  unfold _handle_output. unfold bind at 1. rewrite Hfolder.
  unfold lift at 1, ret at 1. cbv beta iota. cbn [length].
  destruct (_instantiate_shared_variables 0) as [bpps metrics] eqn:Htables.
  unfold bind at 1. cbn [output_loop]. unfold ret at 1. cbv beta iota.
  unfold bind, emit, ret, call_save_out_analysis. simpl.
  rewrite Hwritten. cbn [fst snd] in Hreport. by rewrite Hreport.
Qed.
End EmptyDataSet.

Lemma empty_listing_has_no_report_witness :
  let q : list (@payload (demo ["net"] true)) := [10] in
  _save_out_analysis (H := demo ["net"] true) [] (Some ["out"; "test"])
    (_instantiate_shared_variables (H := demo ["net"] true) 0).1
    (_instantiate_shared_variables (H := demo ["net"] true) 0).2
    tt [] = (Raised ValueError, tt, []) ∧
  _handle_output (H := demo ["net"] true) ["out"] TEST RECONSTRUCTION [] []
    (λ t, t) q [] =
    (Raised ValueError, q, closing_events (H := demo ["net"] true) []).
Proof.
  intros q.
  apply (empty_listing_has_no_report (H := demo ["net"] true) ["out"] TEST
           RECONSTRUCTION [] (λ t, t) q ["out"; "test"] []).
  - reflexivity.
  - simpl. lia.
  - reflexivity.
Defined.

(** ** The indices handed to the jobs *)

Section IndicesInRange.
Context `{Collaborators}.

Lemma fresh_bpp_row var_len :
  NET_pos < length Codecs →
  bpp_row (_instantiate_shared_variables var_len).1 NET_pos =
    inr (replicate var_len PyNone).
Proof.
  intros Hnet. unfold bpp_row. simpl. by rewrite lookup_replicate_2.
Qed.

Lemma fresh_mt_row var_len :
  NET_pos < length Codecs →
  mt_row (_instantiate_shared_variables var_len).2 NET_pos =
    inr (replicate (length Metrics) (replicate var_len PyNone)).
Proof.
  intros Hnet. unfold mt_row. simpl.
  destruct (decide (NET_pos < length Codecs)); [|done].
  rewrite drop_replicate, take_replicate. do 2 f_equal. nia.
Qed.

Lemma fresh_cell m var_len i j :
  i < m → j < var_len →
  cell (replicate m (replicate var_len PyNone)) i j = Some PyNone.
Proof.
  intros Hi Hj. unfold cell. rewrite lookup_replicate_2 by done. simpl.
  by rewrite lookup_replicate_2.
Qed.

(** X11: every index that the coordinator hands to a job names a cell of
    the lists it has allocated: in the size-proxy list and in each metric
    list of [Codecs.NET] the cell of the index exists and holds [None]
    when the job is submitted, so that assigning a metric cell of the
    index does not raise [IndexError]. *)
Theorem jobs_are_given_indices_in_range out_name exec_mode out_type dirs
    img_pathnames written items rest out_folder :
  (_create_out_folder out_name exec_mode out_type dirs).1 = inr out_folder →
  NET_pos < length Codecs →
  length items = length img_pathnames →
  let log := (_handle_output out_name exec_mode out_type dirs img_pathnames
                written (items ++ rest) []).2 in
  let tables := _instantiate_shared_variables (length img_pathnames) in
  ∃ cells lists,
    bpp_row tables.1 NET_pos = inr cells ∧
    mt_row tables.2 NET_pos = inr lists ∧
    ∀ pool call, call ∈ submitted pool log →
      call_index call < length img_pathnames ∧
      cells !! call_index call = Some PyNone ∧
      ∀ i, i < length Metrics →
        cell lists i (call_index call) = Some PyNone ∧
        ∀ v, ∃ lists', set_cell lists i (call_index call) v = inr lists'.
Proof.
  intros Hfolder Hnet Hlen log tables.
  exists (replicate (length img_pathnames) PyNone),
    (replicate (length Metrics) (replicate (length img_pathnames) PyNone)).
  split_and!; [by apply fresh_bpp_row|by apply fresh_mt_row|].
  intros pool call Hcall.
  assert (Hidx : call_index call < length img_pathnames).
  { destruct (handle_output_run out_name exec_mode out_type dirs
                img_pathnames written items rest out_folder Hfolder Hnet Hlen)
      as (r & files & Hrun).
    subst log. rewrite Hrun in Hcall. cbn [snd] in Hcall.
    fold (closing_events files) in Hcall.
    destruct (closing_events_quiet files) as (_ & _ & Hsub).
    rewrite submitted_app, Hsub, app_nil_r in Hcall.
    assert (Hin : call_index call ∈ seq 0 (length img_pathnames)).
    { destruct pool.
      - rewrite <- (map_call_index_a 0 img_pathnames items) by done.
        rewrite <- loop_events_submitted_a with (out_folder := out_folder)
          by done.
        apply list_elem_of_In, in_map. by apply list_elem_of_In.
      - rewrite <- (map_call_index_b out_folder 0 img_pathnames items)
          by done.
        rewrite <- loop_events_submitted_b by done.
        apply list_elem_of_In, in_map. by apply list_elem_of_In. }
    apply elem_of_seq_lt in Hin. lia. }
  split_and!; [done|by apply lookup_replicate_2|].
  intros i Hi. split; [by apply fresh_cell|].
  intros v.
  apply (set_cell_in_range _ _ _ _ (replicate (length img_pathnames) PyNone)).
  - by apply lookup_replicate_2.
  - by rewrite length_replicate.
Qed.
End IndicesInRange.

Lemma jobs_are_given_indices_in_range_witness :
  let imgs := [["d"; "a.png"]; ["d"; "b.png"]] in
  let items : list (@payload (demo ["net"] true)) := [10; 11] in
  let log := (_handle_output (H := demo ["net"] true) ["out"] TEST
                RECONSTRUCTION [] imgs (λ t, t) (items ++ []) []).2 in
  let tables := _instantiate_shared_variables (H := demo ["net"] true)
                  (length imgs) in
  ∃ cells lists,
    bpp_row tables.1 (NET_pos (Collaborators := demo ["net"] true))
      = inr cells ∧
    mt_row tables.2 (NET_pos (Collaborators := demo ["net"] true))
      = inr lists ∧
    ∀ pool call, call ∈ submitted pool log →
      call_index call < length imgs ∧
      cells !! call_index call = Some PyNone ∧
      ∀ i, i < length (Metrics (Collaborators := demo ["net"] true)) →
        cell lists i (call_index call) = Some PyNone ∧
        ∀ v, ∃ lists', set_cell lists i (call_index call) v = inr lists'.
Proof.
  intros imgs items.
  apply (jobs_are_given_indices_in_range (H := demo ["net"] true) ["out"]
           TEST RECONSTRUCTION [] imgs (λ t, t) items []
           (Some ["out"; "test"])).
  - reflexivity.
  - simpl. lia.
  - reflexivity.
Defined.

(** ** Jobs that cannot save *)

Section JobEdges.
Context `{Collaborators}.
Implicit Types (lists : metric_lists) (bpp_proxy : nat → list pyval).

(** X8: a job that is handed no folder never calls [save_img]. It still
    does all the rest: when the image loads, the metrics are computed and
    stored and the size-proxy cell is found written at some check, the job
    has written its metric cells, has waited through every check before
    that one, and only then fails on the name of the file, logging
    [TypeError] and returning. *)
Theorem job_without_folder_saves_nothing fuel orig_path patches bpp_proxy
    pos color lists :
  let r := _save_imgs_from_patches fuel orig_path None patches bpp_proxy pos
             color lists [] in
  List.filter is_save_img r.2 = [] ∧
  (∀ orig_ref n v,
     load_image orig_path color = inr orig_ref →
     Forall (λ m, ∃ w cells,
               calc_metric orig_ref patches m = inr w ∧
               lists !! metric_pos m = Some cells ∧ pos < length cells)
            Metrics →
     (∀ k, k < n → ∃ w, bpp_proxy k !! pos = Some w ∧ py_truth w = false) →
     bpp_proxy n !! pos = Some v → py_truth v = true → n < fuel →
     r.1.1 = Normal tt ∧
     all_scored orig_ref patches pos Metrics r.1.2 ∧
     r.2 = EvLoadImage orig_path
             :: set_events orig_ref patches pos Metrics
             ++ poll_events pos (List.map (observed bpp_proxy pos) (seq 0 n))
             ++ [EvCheckBpp pos v; EvPrintExc TypeError]).
Proof.
  intros r. split.
  - destruct (job_has_shape fuel orig_path None patches bpp_proxy pos color
                lists) as (o & l & log & Hrun & Hshape).
    subst r. rewrite Hrun. cbn [snd].
    by destruct (job_shape_saves _ _ _ _ _ Hshape) as [?|(ok & f & ? & _)].
  - intros orig_ref n v Hload Hmetrics Hbefore Hv Ht Hn. subst r.
    rewrite save_imgs_from_patches_run, save_imgs_try_block_run, Hload.
    destruct (score_loop_spec orig_ref patches pos Metrics lists
                ([] ++ [EvLoadImage orig_path]))
      as (o & l1 & done & rest & Hrun & Hms & Hend & _ & _ & _ & Hall & _).
    destruct (score_loop_succeeds orig_ref patches pos Metrics lists
                ([] ++ [EvLoadImage orig_path])) as (l1' & Hrun' & _).
    { by apply Forall_forall. }
    rewrite Hrun' in Hrun. injection Hrun as <- <- _.
    destruct Hend as [[_ ->]|(e & ? & _)]; [|done].
    rewrite app_nil_r in Hms.
    subst done. rewrite Hrun'.
    rewrite (wait_bpp_written fuel bpp_proxy orig_path pos 0 n l1' _ v);
      [|intros k Hk; apply Hbefore; lia|done..].
    cbn [fst snd]. split_and!; [done|done|].
    cbn [app]. by rewrite <- !app_assoc.
Qed.
End JobEdges.

Lemma job_without_folder_saves_nothing_witness :
  let r := _save_imgs_from_patches (H := demo ["net"] true) 5
             ["data"; "kodim01.bmp"] None 3
             (λ n, if decide (n < 2) then [PyNone] else [PyList [PyFloat 1]])
             0 "RGB" [[PyNone]; [PyNone]] [] in
  r.1.1 = Normal tt ∧
  all_scored (H := demo ["net"] true) ["data"; "kodim01.bmp"] 3 0
    (Metrics (Collaborators := demo ["net"] true)) r.1.2 ∧
  r.2 = EvLoadImage ["data"; "kodim01.bmp"]
          :: set_events (H := demo ["net"] true) ["data"; "kodim01.bmp"] 3 0
               (Metrics (Collaborators := demo ["net"] true))
          ++ poll_events 0
               (List.map
                  (observed
                     (λ n, if decide (n < 2) then [PyNone]
                           else [PyList [PyFloat 1]]) 0)
                  (seq 0 2))
          ++ [EvCheckBpp 0 (PyList [PyFloat 1]); EvPrintExc TypeError].
Proof.
  apply (proj2 (job_without_folder_saves_nothing (H := demo ["net"] true) 5
                  ["data"; "kodim01.bmp"] 3
                  (λ n, if decide (n < 2) then [PyNone]
                        else [PyList [PyFloat 1]])
                  0 "RGB" [[PyNone]; [PyNone]])).
  - reflexivity.
  - repeat constructor; eexists _, _; split_and!;
      [reflexivity|reflexivity|simpl; lia|reflexivity|reflexivity|simpl; lia].
  - intros k Hk. exists PyNone. split; [|reflexivity].
    destruct (decide (k < 2)); [reflexivity|lia].
  - reflexivity.
  - reflexivity.
  - lia.
Defined.

Section JobFailsEarly.
Context `{Collaborators}.
Implicit Types (lists : metric_lists) (bpp_proxy : nat → list pyval).

Lemma set_events_cons orig_ref patches pos m ms :
  set_events orig_ref patches pos (m :: ms) =
    match calc_metric orig_ref patches m with
    | inr v =>
        EvSetMetric (metric_pos m) pos v
          :: set_events orig_ref patches pos ms
    | inl _ => set_events orig_ref patches pos ms
    end.
Proof. unfold set_events. cbn. by destruct (calc_metric orig_ref patches m). Qed.

Lemma length_set_events_le orig_ref patches pos ms :
  length (set_events orig_ref patches pos ms) ≤ length ms.
Proof.
  induction ms as [|m ms IH]; [done|]. rewrite set_events_cons.
  destruct (calc_metric orig_ref patches m); simpl; lia.
Qed.

(** The metrics whose assignments are all logged were all computed. *)
Lemma set_events_all_computed orig_ref patches pos ms m :
  length (set_events orig_ref patches pos ms) = length ms → m ∈ ms →
  ∃ v, calc_metric orig_ref patches m = inr v.
Proof.
  induction ms as [|m0 ms IH]; intros Hlen Hm.
  { by apply elem_of_nil in Hm. }
  pose proof (length_set_events_le orig_ref patches pos ms) as Hle.
  rewrite set_events_cons in Hlen.
  destruct (calc_metric orig_ref patches m0) as [e|v] eqn:Hcalc;
    simpl in Hlen; [lia|].
  apply elem_of_cons in Hm as [->|Hm]; [eauto|].
  apply IH; [lia|done].
Qed.

Lemma sets_check_nothing orig_ref patches pos ms :
  List.filter is_check_bpp (set_events orig_ref patches pos ms) = [].
Proof.
  apply filter_none. eapply Forall_impl; [apply set_events_are_sets|].
  by intros ev (i & v & ->).
Qed.

(** X12: a job whose image cannot be loaded, or one of whose metrics
    cannot be computed, gives up before the wait: it never looks at the
    size-proxy cell, never sleeps and saves no image, whatever that cell
    holds; it logs the exception as its last act and returns normally. *)
Theorem job_fails_before_the_wait fuel orig_path save_folder patches
    bpp_proxy pos color lists :
  (∃ e, load_image orig_path color = inl e) ∨
  (∃ orig_ref m e,
     load_image orig_path color = inr orig_ref ∧ m ∈ Metrics ∧
     calc_metric orig_ref patches m = inl e) →
  let r := _save_imgs_from_patches fuel orig_path save_folder patches
             bpp_proxy pos color lists [] in
  r.1.1 = Normal tt ∧
  (∃ e, last r.2 = Some (EvPrintExc e)) ∧
  List.filter is_check_bpp r.2 = [] ∧
  List.filter is_sleep r.2 = [] ∧
  List.filter is_save_img r.2 = [].
Proof.
  intros Hfails r. subst r.
  rewrite save_imgs_from_patches_run, save_imgs_try_block_run.
  destruct Hfails as [[e ->]|(orig_ref & m & e & -> & Hm & Hcalc)].
  { cbn [fst snd app]. split_and!; by eauto. }
  destruct (score_loop_spec orig_ref patches pos Metrics lists
              ([] ++ [EvLoadImage orig_path]))
    as (o & l1 & done & rest & -> & Hms & Hend & Hlen & _).
  destruct Hend as [[_ ->]|(e' & -> & _)].
  { rewrite app_nil_r in Hms. subst done.
    destruct (set_events_all_computed orig_ref patches pos Metrics m Hlen Hm)
      as [v Hv].
    rewrite Hv in Hcalc. discriminate Hcalc. }
  cbn [fst snd app]. split_and!.
  - done.
  - exists e'. rewrite app_comm_cons. apply last_snoc.
  - cbn [List.filter is_check_bpp]. rewrite List.filter_app.
    by rewrite sets_check_nothing.
  - cbn [List.filter is_sleep]. rewrite List.filter_app.
    by rewrite sets_sleep_nothing.
  - cbn [List.filter is_save_img]. rewrite List.filter_app.
    rewrite (filter_none _ (set_events _ _ _ _)) by apply sets_save_nothing.
    done.
Qed.
End JobFailsEarly.

Lemma job_fails_before_the_wait_witness :
  let r := _save_imgs_from_patches (H := demo ["net"] true) 5
             ["bad"; "x.png"] (Some ["out"]) 3
             (λ _, [PyList [PyFloat 1]]) 0 "RGB" [[PyNone]; [PyNone]] [] in
  r.1.1 = Normal tt ∧
  (∃ e, last r.2 = Some (EvPrintExc e)) ∧
  List.filter is_check_bpp r.2 = [] ∧
  List.filter is_sleep r.2 = [] ∧
  List.filter is_save_img r.2 = [].
Proof.
  apply (job_fails_before_the_wait (H := demo ["net"] true) 5
           ["bad"; "x.png"] (Some ["out"]) 3 (λ _, [PyList [PyFloat 1]]) 0
           "RGB" [[PyNone]; [PyNone]]).
  right. exists ["bad"; "x.png"], (1, "ssim"), (OtherError "metric").
  split_and!; [reflexivity| |reflexivity].
  apply elem_of_cons. right. apply elem_of_cons. by left.
Defined.

(** ** The waits of the plot *)

Section PlotWaits.
Implicit Types (lists : metric_lists) (tr log : list event)
  (curr_metric curr_bpp : nat → list pyval).

(** One evaluation of the condition of the wait of [_save_metric_plot],
    and what follows it. *)
Lemma wait_plot_step fuel curr_metric curr_bpp img_path pos n cont lists tr :
  wait_plot (S fuel) curr_metric curr_bpp img_path pos n cont lists tr =
    let after_sleep t :=
      if (cont + 1 >? 100)%Z
      then (Returned, lists,
            t ++ [EvSleep 1; EvTimeoutMsg "_save_metric_plot" img_path])
      else wait_plot fuel curr_metric curr_bpp img_path pos (S n)
             (cont + 1)%Z lists (t ++ [EvSleep 1]) in
    match curr_metric n !! pos with
    | None => (Raised IndexError, lists, tr)
    | Some m =>
        if py_not m then after_sleep tr
        else
          match curr_bpp n !! pos with
          | None => (Raised IndexError, lists, tr)
          | Some b =>
              if py_not b then after_sleep (tr ++ [EvCheckBpp pos b])
              else (Normal tt, lists, tr ++ [EvCheckBpp pos b])
          end
    end.
Proof.
  cbv zeta. cbn [wait_plot].
  unfold check_bpp, sleep, _timeout_msg, lift.
  unfold bind, ret, raise, emit, return_.
  destruct (curr_metric n !! pos) as [m|]; [|done]. cbv beta iota.
  destruct (py_not m); cbv beta iota.
  - destruct (cont + 1 >? 100)%Z; [|done]. by rewrite <- app_assoc.
  - destruct (curr_bpp n !! pos) as [b|]; [|done]. cbv beta iota.
    destruct (py_not b); cbv beta iota; [|done].
    destruct (cont + 1 >? 100)%Z; [|done]. by rewrite <- !app_assoc.
Qed.

(** The wait logs the same events after any log. *)
Lemma wait_plot_frame fuel curr_metric curr_bpp img_path pos n cont lists tr :
  wait_plot fuel curr_metric curr_bpp img_path pos n cont lists tr =
    (let '(o, l, t) :=
       wait_plot fuel curr_metric curr_bpp img_path pos n cont lists [] in
     (o, l, tr ++ t)).
Proof.
  revert n cont tr. induction fuel as [|fuel IH]; intros n cont tr.
  - simpl. unfold spin. by rewrite app_nil_r.
  - rewrite !wait_plot_step. cbv zeta.
    destruct (curr_metric n !! pos) as [m|]; [|by rewrite app_nil_r].
    destruct (py_not m).
    { destruct (cont + 1 >? 100)%Z; [done|].
      rewrite (IH _ _ (tr ++ _)), (IH _ _ ([] ++ _)).
      destruct (wait_plot fuel _ _ _ _ _ _ lists []) as [[o l] t].
      by rewrite <- app_assoc. }
    destruct (curr_bpp n !! pos) as [b|]; [|by rewrite app_nil_r].
    destruct (py_not b); [|done].
    destruct (cont + 1 >? 100)%Z; [by rewrite <- app_assoc|].
    rewrite (IH _ _ ((tr ++ _) ++ _)), (IH _ _ (([] ++ _) ++ _)).
    destruct (wait_plot fuel _ _ _ _ _ _ lists []) as [[o l] t].
    by rewrite <- !app_assoc.
Qed.

(** The wait for one pair of lists, started on an empty log: it ends
    within the sleeps that the counter leaves; when it ends by the
    timeout it has slept all of them, and the message is its last
    event. *)
Lemma wait_plot_bounded d fuel curr_metric curr_bpp img_path pos n cont
    lists :
  cont = (100 - Z.of_nat d)%Z → d < fuel →
  ∃ o log,
    wait_plot fuel curr_metric curr_bpp img_path pos n cont lists [] =
      (o, lists, log) ∧
    o ≠ Spinning ∧
    length (List.filter is_sleep log) ≤ S d ∧
    ((o = Returned ∧
      length (List.filter is_sleep log) = S d ∧
      ∃ log', log = log' ++ [EvTimeoutMsg "_save_metric_plot" img_path] ∧
              List.filter is_timeout_msg log' = []) ∨
     (o ≠ Returned ∧ List.filter is_timeout_msg log = [])).
Proof.
  revert fuel n cont.
  induction d as [|d IH]; intros fuel n cont -> Hd;
    (destruct fuel as [|fuel]; [lia|]); rewrite wait_plot_step; cbv zeta.
  - destruct (curr_metric n !! pos) as [m|].
    2:{ exists (Raised IndexError), [].
        split_and!; [done|done|simpl; lia|by right]. }
    destruct (py_not m).
    { eexists Returned, _. split_and!; [done|done|simpl; lia|].
      left. split_and!; [done|done|]. by exists [EvSleep 1]. }
    destruct (curr_bpp n !! pos) as [b|].
    2:{ exists (Raised IndexError), [].
        split_and!; [done|done|simpl; lia|by right]. }
    destruct (py_not b).
    + eexists Returned, _. split_and!; [done|done|simpl; lia|].
      left. split_and!; [done|done|]. by exists [EvCheckBpp pos b; EvSleep 1].
    + eexists (Normal tt), _.
      split_and!; [done|done|simpl; lia|by right].
  - destruct (Z.gtb_spec (100 - Z.of_nat (S d) + 1) 100) as [|_]; [lia|].
    destruct (curr_metric n !! pos) as [m|].
    2:{ exists (Raised IndexError), [].
        split_and!; [done|done|simpl; lia|by right]. }
    destruct (py_not m).
    { rewrite wait_plot_frame.
      destruct (IH fuel (S n) (100 - Z.of_nat (S d) + 1)%Z)
        as (o & log & -> & Ho & Hsleeps & Hend); [lia|lia|].
      exists o, (EvSleep 1 :: log).
      split_and!; [done|done|simpl; lia|].
      destruct Hend as [(-> & Hall & log' & -> & Hnone)|[? ?]];
        [left|by right].
      split_and!; [done|simpl; lia|]. by exists (EvSleep 1 :: log'). }
    destruct (curr_bpp n !! pos) as [b|].
    2:{ exists (Raised IndexError), [].
        split_and!; [done|done|simpl; lia|by right]. }
    destruct (py_not b).
    + rewrite wait_plot_frame.
      destruct (IH fuel (S n) (100 - Z.of_nat (S d) + 1)%Z)
        as (o & log & -> & Ho & Hsleeps & Hend); [lia|lia|].
      exists o, (EvCheckBpp pos b :: EvSleep 1 :: log).
      split_and!; [done|done|simpl; lia|].
      destruct Hend as [(-> & Hall & log' & -> & Hnone)|[? ?]];
        [left|by right].
      split_and!; [done|simpl; lia|].
      by exists (EvCheckBpp pos b :: EvSleep 1 :: log').
    + eexists (Normal tt), _.
      split_and!; [done|done|simpl; lia|by right].
Qed.

(** The waits run pair by pair, and stop at the first pair whose wait does
    not end normally: the log holds the events of the pairs up to that one
    and nothing of the pairs after it. *)
Lemma save_metric_plot_waits_run fuel pairs img_path pos lists tr :
  100 < fuel →
  let wait_for (p : (nat → list pyval) * (nat → list pyval)) :=
    wait_plot fuel p.1 p.2 img_path pos 0 0 lists [] in
  (save_metric_plot_waits fuel pairs img_path pos lists tr =
     (Normal tt, lists, tr ++ concat (List.map (λ p, (wait_for p).2) pairs)) ∧
   Forall (λ p, (wait_for p).1.1 = Normal tt) pairs) ∨
  (∃ before p after,
     pairs = before ++ p :: after ∧
     Forall (λ p, (wait_for p).1.1 = Normal tt) before ∧
     (wait_for p).1.1 ≠ Normal tt ∧
     save_metric_plot_waits fuel pairs img_path pos lists tr =
       ((wait_for p).1.1, lists,
        tr ++ concat (List.map (λ p, (wait_for p).2) before)
           ++ (wait_for p).2)).
Proof.
  intros Hfuel wait_for. unfold save_metric_plot_waits. revert tr.
  induction pairs as [|[curr_metric curr_bpp] pairs IH]; intros tr.
  - left. simpl. unfold ret. by rewrite app_nil_r.
  - cbn [for_each]. unfold bind. rewrite wait_plot_frame.
    destruct (wait_plot_bounded 100 fuel curr_metric curr_bpp img_path pos 0
                0 lists) as (o & log & Hrun & Ho & _); [done|lia|].
    assert (Hfor : wait_for (curr_metric, curr_bpp) = (o, lists, log))
      by exact Hrun.
    rewrite Hrun. cbv beta iota.
    destruct o as [[]|e| |]; [| | |done].
    + destruct (IH (tr ++ log)) as [[-> Hall]|
        (before & p & after & Hpairs & Hall & Hp & ->)].
      * left. cbn [List.map concat]. rewrite Hfor. cbn [snd].
        rewrite <- app_assoc. split; [done|].
        constructor; [by rewrite Hfor|done].
      * right. exists ((curr_metric, curr_bpp) :: before), p, after.
        rewrite Hpairs. cbn [List.map concat]. rewrite Hfor. cbn [snd].
        rewrite <- !app_assoc.
        split_and!; [done| |done|done].
        constructor; [by rewrite Hfor|done].
    + right. exists [], (curr_metric, curr_bpp), pairs.
      rewrite Hfor. by split_and!.
    + right. exists [], (curr_metric, curr_bpp), pairs.
      rewrite Hfor. by split_and!.
Qed.

(** The logs of waits that ended normally hold no timeout message, and at
    most 101 sleeps for each wait. *)
Lemma normal_waits_are_quiet (logs : list (list event)) :
  Forall (λ log, length (List.filter is_sleep log) ≤ 101 ∧
                 List.filter is_timeout_msg log = []) logs →
  length (List.filter is_sleep (concat logs)) ≤ 101 * length logs ∧
  List.filter is_timeout_msg (concat logs) = [].
Proof.
  induction 1 as [|log logs [Hsleeps Hnone] _ [IHsleeps IHnone]];
    [by split|].
  cbn [concat length]. rewrite !List.filter_app, length_app, Hnone, IHnone.
  split; [lia|done].
Qed.

(** X13: the waits of [_save_metric_plot] end, pair by pair. The wait for
    a pair of lists sleeps at most 101 times, whatever the cells hold and
    however they change; it ends normally when both cells hold a value,
    and when it ends by the timeout it has slept 101 times and the timeout
    message is its last event. The function waits for the pairs in order
    and stops at the first pair whose wait does not end normally: its log
    is made of the logs of the pairs before, which ended normally, and of
    the log of that pair, and holds nothing of the pairs after it. So it
    has returned early exactly when it logged a timeout message; it logs
    the message once, as the last event. *)
Theorem plot_waits_give_up fuel pairs img_path pos lists :
  100 < fuel →
  let wait_for (p : (nat → list pyval) * (nat → list pyval)) :=
    wait_plot fuel p.1 p.2 img_path pos 0 0 lists [] in
  let timeout := EvTimeoutMsg "_save_metric_plot" img_path in
  let r := save_metric_plot_waits fuel pairs img_path pos lists [] in
  (∀ p,
     (wait_for p).1.1 ≠ Spinning ∧ (wait_for p).1.2 = lists ∧
     length (List.filter is_sleep (wait_for p).2) ≤ 101 ∧
     (((wait_for p).1.1 = Returned ∧
       length (List.filter is_sleep (wait_for p).2) = 101 ∧
       ∃ log', (wait_for p).2 = log' ++ [timeout] ∧
               List.filter is_timeout_msg log' = []) ∨
      ((wait_for p).1.1 ≠ Returned ∧
       List.filter is_timeout_msg (wait_for p).2 = []))) ∧
  ((r = (Normal tt, lists, concat (List.map (λ p, (wait_for p).2) pairs)) ∧
    Forall (λ p, (wait_for p).1.1 = Normal tt) pairs) ∨
   (∃ before p after,
      pairs = before ++ p :: after ∧
      Forall (λ p, (wait_for p).1.1 = Normal tt) before ∧
      (wait_for p).1.1 ≠ Normal tt ∧
      r = ((wait_for p).1.1, lists,
           concat (List.map (λ p, (wait_for p).2) before)
             ++ (wait_for p).2))) ∧
  r.1.1 ≠ Spinning ∧ r.1.2 = lists ∧
  length (List.filter is_sleep r.2) ≤ 101 * length pairs ∧
  ((r.1.1 = Returned ∧ last r.2 = Some timeout ∧
    List.filter is_timeout_msg r.2 = [timeout]) ∨
   (r.1.1 ≠ Returned ∧ List.filter is_timeout_msg r.2 = [])).
Proof.
  intros Hfuel wait_for timeout r.
  assert (Hpair : ∀ p,
    (wait_for p).1.1 ≠ Spinning ∧ (wait_for p).1.2 = lists ∧
    length (List.filter is_sleep (wait_for p).2) ≤ 101 ∧
    (((wait_for p).1.1 = Returned ∧
      length (List.filter is_sleep (wait_for p).2) = 101 ∧
      ∃ log', (wait_for p).2 = log' ++ [timeout] ∧
              List.filter is_timeout_msg log' = []) ∨
     ((wait_for p).1.1 ≠ Returned ∧
      List.filter is_timeout_msg (wait_for p).2 = []))).
  { intros p. subst wait_for. cbv beta.
    destruct (wait_plot_bounded 100 fuel p.1 p.2 img_path pos 0 0 lists)
      as (o & log & -> & Ho & Hsleeps & Hend); [done|lia|].
    by split_and!. }
  assert (Hquiet : ∀ ps,
    Forall (λ p, (wait_for p).1.1 = Normal tt) ps →
    length (List.filter is_sleep
              (concat (List.map (λ p, (wait_for p).2) ps)))
      ≤ 101 * length ps ∧
    List.filter is_timeout_msg
      (concat (List.map (λ p, (wait_for p).2) ps)) = []).
  { intros ps Hps.
    rewrite <- (List.length_map (λ p, (wait_for p).2) ps).
    apply normal_waits_are_quiet, Forall_map.
    eapply Forall_impl; [exact Hps|]. intros p Hp. cbv beta.
    destruct (Hpair p) as (_ & _ & Hsleeps & [[Hret _]|[_ Hnone]]);
      [by rewrite Hp in Hret|done]. }
  split; [exact Hpair|].
  destruct (save_metric_plot_waits_run fuel pairs img_path pos lists []
              Hfuel) as [[Hrun Hall]|
    (before & p & after & Hpairs & Hall & Hp & Hrun)].
  - change (r = (Normal tt, lists,
                 concat (List.map (λ p, (wait_for p).2) pairs))) in Hrun.
    change (Forall (λ p, (wait_for p).1.1 = Normal tt) pairs) in Hall.
    destruct (Hquiet pairs Hall) as [Hsleeps Hnone].
    split; [left; by split|]. rewrite Hrun. cbn [fst snd].
    split_and!; [done|done|exact Hsleeps|]. right. by split.
  - change (r = ((wait_for p).1.1, lists,
                 concat (List.map (λ p, (wait_for p).2) before)
                   ++ (wait_for p).2)) in Hrun.
    change (Forall (λ p, (wait_for p).1.1 = Normal tt) before) in Hall.
    change ((wait_for p).1.1 ≠ Normal tt) in Hp.
    destruct (Hquiet before Hall) as [Hsleeps Hnone].
    destruct (Hpair p) as (Hspin & _ & Hp_sleeps & Hend).
    split; [right; by exists before, p, after|].
    rewrite Hrun. cbn [fst snd].
    rewrite !List.filter_app, Hnone, length_app, Hpairs, length_app.
    cbn [length app].
    split_and!; [done|done|lia|].
    destruct Hend as [(Hret & _ & log' & Hlog & Hnone')|[Hret Hnone']].
    + left. rewrite Hlog, List.filter_app, Hnone'.
      split_and!; [done| |done].
      by rewrite app_assoc, last_snoc.
    + right. by split.
Qed.
End PlotWaits.

Lemma plot_waits_give_up_witness :
  let fuel := 101 in
  let pairs : list ((nat → list pyval) * (nat → list pyval)) :=
    [(λ _, [PyList [PyFloat 30]], λ _, [PyList [PyFloat 1]]);
     (λ _, [PyList [PyFloat 20]], λ _, [PyNone]);
     (λ _, [PyNone], λ _, [PyNone])] in
  let img_path := ["d"; "a.png"] in
  let lists : metric_lists := [] in
  let wait_for (p : (nat → list pyval) * (nat → list pyval)) :=
    wait_plot fuel p.1 p.2 img_path 0 0 0 lists [] in
  let timeout := EvTimeoutMsg "_save_metric_plot" img_path in
  let r := save_metric_plot_waits fuel pairs img_path 0 lists [] in
  (∀ p,
     (wait_for p).1.1 ≠ Spinning ∧ (wait_for p).1.2 = lists ∧
     length (List.filter is_sleep (wait_for p).2) ≤ 101 ∧
     (((wait_for p).1.1 = Returned ∧
       length (List.filter is_sleep (wait_for p).2) = 101 ∧
       ∃ log', (wait_for p).2 = log' ++ [timeout] ∧
               List.filter is_timeout_msg log' = []) ∨
      ((wait_for p).1.1 ≠ Returned ∧
       List.filter is_timeout_msg (wait_for p).2 = []))) ∧
  ((r = (Normal tt, lists, concat (List.map (λ p, (wait_for p).2) pairs)) ∧
    Forall (λ p, (wait_for p).1.1 = Normal tt) pairs) ∨
   (∃ before p after,
      pairs = before ++ p :: after ∧
      Forall (λ p, (wait_for p).1.1 = Normal tt) before ∧
      (wait_for p).1.1 ≠ Normal tt ∧
      r = ((wait_for p).1.1, lists,
           concat (List.map (λ p, (wait_for p).2) before)
             ++ (wait_for p).2))) ∧
  r.1.1 ≠ Spinning ∧ r.1.2 = lists ∧
  length (List.filter is_sleep r.2) ≤ 101 * length pairs ∧
  ((r.1.1 = Returned ∧ last r.2 = Some timeout ∧
    List.filter is_timeout_msg r.2 = [timeout]) ∨
   (r.1.1 ≠ Returned ∧ List.filter is_timeout_msg r.2 = [])).
Proof.
  apply (plot_waits_give_up 101
           [(λ _, [PyList [PyFloat 30]], λ _, [PyList [PyFloat 1]]);
            (λ _, [PyList [PyFloat 20]], λ _, [PyNone]);
            (λ _, [PyNone], λ _, [PyNone])]
           ["d"; "a.png"] 0 []).
  lia.
Defined.

(** ** The parameter groups *)

Section ParamGroupFacts.
Context {V : Type}.
Implicit Types (groups : list (gmap string V)) (tr : list unit).

(** The loop over the indices from [start] on assigns the key in the
    groups at these indices and in no other. *)
Lemma group_loop_run key (v : V) start len groups tr :
  ∃ groups',
    for_each (seq start len) (λ g, set_group_item g key v) groups tr =
      (Normal tt, groups', tr) ∧
    ∀ i, groups' !! i =
           if decide (start ≤ i < start + len)
           then (λ g, <[key := v]> g) <$> groups !! i
           else groups !! i.
Proof.
  revert start groups. induction len as [|len IH]; intros start groups.
  - exists groups. split; [done|]. intros i.
    destruct (decide (start ≤ i < start + 0)); [lia|done].
  - destruct (IH (S start) (alter (λ g, <[key := v]> g) start groups))
      as (groups' & Hrun & Hlookup).
    exists groups'. split; [exact Hrun|].
    intros i. rewrite Hlookup.
    destruct (decide (i = start)) as [->|Hne].
    + destruct (decide (S start ≤ start < S start + len)); [lia|].
      destruct (decide (start ≤ start < start + S len)); [|lia].
      apply list_lookup_alter_eq.
    + rewrite list_lookup_alter_ne by done.
      destruct (decide (S start ≤ i < S start + len)),
               (decide (start ≤ i < start + S len)); (done || lia).
Qed.

(** The whole loop, in closed form. *)
Lemma group_loop_all key (v : V) groups tr :
  for_each (seq 0 (length groups)) (λ g, set_group_item g key v) groups tr =
    (Normal tt, (λ g, <[key := v]> g) <$> groups, tr).
Proof.
  destruct (group_loop_run key v 0 (length groups) groups tr)
    as (groups' & -> & Hlookup).
  f_equal. f_equal. apply list_eq. intros i.
  rewrite Hlookup, list_lookup_fmap.
  destruct (decide (0 ≤ i < 0 + length groups)) as [|Hout]; [done|].
  rewrite lookup_ge_None_2 by lia. done.
Qed.

Lemma update_lr_run (lr : V) groups tr :
  update_lr lr groups tr =
    (Normal tt, (λ g, <["lr" := lr]> g) <$> groups, tr).
Proof. apply group_loop_all. Qed.

Lemma update_mom_run (mom : V) groups tr :
  update_mom mom groups tr =
    (Normal tt, (λ g, <["momentum" := mom]> g) <$> groups, tr).
Proof. apply group_loop_all. Qed.

(** X14: [update_lr] returns with the learning rate set in every group of
    the optimizer and nothing else changed: the groups are as many as
    before, each holds the new value under [lr], and every other entry of
    every group is as it was. [update_mom] does the same for the key
    [momentum]. *)
Theorem update_sets_every_group (lr mom : V) groups tr :
  ∃ with_lr with_mom,
    update_lr lr groups tr = (Normal tt, with_lr, tr) ∧
    update_mom mom groups tr = (Normal tt, with_mom, tr) ∧
    length with_lr = length groups ∧
    length with_mom = length groups ∧
    ∀ i g, groups !! i = Some g →
      ∃ g_lr g_mom,
        with_lr !! i = Some g_lr ∧ with_mom !! i = Some g_mom ∧
        g_lr !! "lr" = Some lr ∧
        g_mom !! "momentum" = Some mom ∧
        (∀ k, k ≠ "lr" → g_lr !! k = g !! k) ∧
        (∀ k, k ≠ "momentum" → g_mom !! k = g !! k).
Proof.
  eexists _, _. rewrite update_lr_run, update_mom_run.
  split_and!; [done|done|by rewrite length_fmap..|].
  intros i g Hg. eexists _, _. rewrite !list_lookup_fmap, Hg.
  split_and!; [done|done| | | |].
  - apply lookup_insert_eq.
  - apply lookup_insert_eq.
  - intros k Hk. by apply lookup_insert_ne.
  - intros k Hk. by apply lookup_insert_ne.
Qed.

(** X15: the two updates do not interfere. Setting the learning rate and
    then the momentum, as the one-cycle schedule of [_run_model] does,
    leaves the groups as setting them in the other order, and as one pass
    that sets both keys in each group; of two learning rates set one after
    the other, the second is the one that stays. *)
Theorem updates_commute (lr lr' mom : V) groups tr :
  bind (update_lr lr) (λ _, update_mom mom) groups tr =
    bind (update_mom mom) (λ _, update_lr lr) groups tr ∧
  bind (update_lr lr) (λ _, update_mom mom) groups tr =
    (Normal tt,
     (λ g, <["momentum" := mom]> (<["lr" := lr]> g)) <$> groups, tr) ∧
  bind (update_lr lr) (λ _, update_lr lr') groups tr =
    update_lr lr' groups tr.
Proof.
  unfold bind.
  repeat first [rewrite update_lr_run | rewrite update_mom_run
               | progress cbv beta iota].
  rewrite <- !list_fmap_compose. split_and!.
  - f_equal. f_equal. apply list_fmap_ext. intros i g _. simpl.
    by apply insert_insert_ne.
  - done.
  - f_equal. f_equal. apply list_fmap_ext. intros i g _. simpl.
    apply insert_insert_eq.
Qed.
End ParamGroupFacts.

(** ** Clearing lines of the terminal *)

Lemma clear_lines_from n (k : nat) tr :
  for_each (seq n k)
    (λ _, bind (stdout_write CURSOR_UP_ONE) (λ _, stdout_write ERASE_LINE))
    tt tr =
    (Normal tt, tt,
     tr ++ concat (replicate k [CURSOR_UP_ONE; ERASE_LINE])).
Proof.
  revert n tr. induction k as [|k IH]; intros n tr.
  - simpl. unfold ret. by rewrite app_nil_r.
  - cbn [seq for_each]. unfold bind at 1.
    unfold bind at 1. unfold stdout_write, emit. cbv beta iota.
    rewrite IH. cbn [replicate concat]. by rewrite <- !app_assoc.
Qed.

Lemma clear_last_lines_run n tr :
  _clear_last_lines n tt tr =
    (Normal tt, tt,
     tr ++ concat (replicate (Z.to_nat n) [CURSOR_UP_ONE; ERASE_LINE])).
Proof. apply clear_lines_from. Qed.

(** X16: [_clear_last_lines(n)] writes the cursor-up and the erase-line
    sequences [n] times, in this order, so that clearing [a] lines and
    then [b] lines writes what clearing [a + b] lines writes; for [n]
    zero or negative it writes nothing. *)
Theorem clear_last_lines_add (a b n : Z) tr :
  (0 ≤ a)%Z → (0 ≤ b)%Z → (n ≤ 0)%Z →
  bind (_clear_last_lines a) (λ _, _clear_last_lines b) tt tr =
    _clear_last_lines (a + b) tt tr ∧
  (_clear_last_lines a tt []).2 =
    concat (replicate (Z.to_nat a) [CURSOR_UP_ONE; ERASE_LINE]) ∧
  _clear_last_lines n tt tr = (Normal tt, tt, tr).
Proof.
  intros Ha Hb Hn. split_and!.
  - unfold bind. rewrite !clear_last_lines_run.
    rewrite Z2Nat.inj_add by done.
    by rewrite replicate_add, concat_app, app_assoc.
  - by rewrite clear_last_lines_run.
  - rewrite clear_last_lines_run.
    replace (Z.to_nat n) with 0 by lia. simpl. by rewrite app_nil_r.
Qed.

Lemma clear_last_lines_add_witness :
  bind (_clear_last_lines 1) (λ _, _clear_last_lines 2) tt ["3/8: 0.25"] =
    _clear_last_lines (1 + 2) tt ["3/8: 0.25"] ∧
  (_clear_last_lines 1 tt []).2 =
    concat (replicate (Z.to_nat 1) [CURSOR_UP_ONE; ERASE_LINE]) ∧
  _clear_last_lines (-1) tt ["3/8: 0.25"] = (Normal tt, tt, ["3/8: 0.25"]).
Proof.
  apply (clear_last_lines_add 1 2 (-1) ["3/8: 0.25"]); lia.
Defined.

(** ** The state of the model over a session *)

Section LifecycleFacts.
Context `{Torch}.
Variable run_model : State → option queue * option exn.
Implicit Types (st : State) (tr : list life_event).

Lemma assign_run (set : State → State) st tr :
  assign set (Some st) tr = (Normal tt, Some (set st), tr).
Proof. reflexivity. Qed.

Lemma create_model_run st tr :
  _create_model (Some st) tr =
    match build_model with
    | inl e => (Raised e, Some st, tr)
    | inr mdl =>
        let st1 := set_autoenc (st_autoenc st ++ [mdl]) st in
        match build_optimizer mdl with
        | inl e => (Raised e, Some st1, tr)
        | inr o =>
            let st2 := set_autoenc_opt (st_autoenc_opt st1 ++ [o]) st1 in
            match build_loss with
            | inl e => (Raised e, Some st2, tr)
            | inr l => (Normal tt, Some (set_loss (Some l) st2), tr)
            end
        end
    end.
Proof.
  unfold _create_model. unfold bind at 1.
  destruct build_model as [e|mdl]; [done|]. cbn [lift ret].
  unfold bind at 1. rewrite assign_run.
  unfold bind at 1. destruct (build_optimizer mdl) as [e|o]; [done|].
  cbn [lift ret]. unfold bind at 1. rewrite assign_run.
  unfold bind at 1. by destruct build_loss as [e|l].
Qed.

Lemma run_model_run st tr :
  _run_model run_model (Some st) tr =
    (match (run_model st).2 with
     | Some e => Raised e
     | None => Normal tt
     end,
     Some (set_out_queue (run_model st).1 st), tr ++ [LifeRunModel st]).
Proof.
  unfold _run_model, bind, the_state, get_store, ret, emit, assign, raise,
    the_state, bind, get_store, put_store, ret.
  by destruct (run_model st).2.
Qed.

(** What an entry point does once the state holds a model: it sets its
    mode, prints, and enters [_run_model]. *)
Lemma test_model_on st tr :
  test_model run_model (Some st) tr =
    _run_model run_model
      (Some (set_out_type (Some RECONSTRUCTION)
               (set_exec_mode TEST (set_epoch_str (Some "") st))))
      (tr ++ [LifePrint (String (ascii_of_nat 10) "TESTING:")]).
Proof. reflexivity. Qed.

Section Built.
Variables (mdl : module) (o : optimizer) (l : loss_fn).
Hypotheses (Hmodel : build_model = inr mdl)
  (Hopt : build_optimizer mdl = inr o) (Hloss : build_loss = inr l).

(** The state is as a successful [_create_model] leaves it: one network,
    its optimizer, a loss. *)
Local Abbreviation built st :=
  (st_autoenc st = [mdl] ∧ st_autoenc_opt st = [o] ∧ st_loss st = Some l).

Lemma create_model_built mode tr :
  ∃ st, _create_model (Some (State_init mode)) tr = (Normal tt, Some st, tr) ∧
        built st ∧ st_epoch_str st = None.
Proof.
  rewrite create_model_run, Hmodel. cbv zeta. rewrite Hopt, Hloss.
  by eexists.
Qed.

Lemma enter_run c (st0 : option State) tr :
  (st0 = None ∨ ∃ st, st0 = Some st ∧ built st) →
  ∃ o' st st',
    enter run_model c st0 tr =
      (o', Some st', tr ++ [LifePrint (String (ascii_of_nat 10)
                                         (match c with
                                          | CallTrain => "TRAINING:"
                                          | CallTest => "TESTING:"
                                          end));
                            LifeRunModel st]) ∧
    built st ∧ built st' ∧
    (st_exec_mode st, st_out_type st) = mode_of c.
Proof.
  intros Hst0. destruct c; simpl.
  - unfold train_model. unfold bind at 1. unfold put_store at 1.
    cbv beta iota. unfold bind at 1.
    destruct (create_model_built TRAIN tr) as (st & -> & Hbuilt & _).
    unfold bind at 1. unfold print, emit at 1. cbv beta iota.
    unfold bind at 1. rewrite assign_run.
    unfold bind at 1. rewrite assign_run.
    rewrite run_model_run. eexists _, _, _.
    rewrite <- app_assoc. split; [reflexivity|]. by destruct st.
  - destruct Hst0 as [->|(st & -> & Hbuilt)].
    + unfold test_model. unfold bind at 1. unfold get_store at 1.
      cbv beta iota. unfold bind at 1. unfold bind at 1.
      unfold put_store at 1. cbv beta iota.
      destruct (create_model_built TEST tr) as (st & -> & Hbuilt & _).
      unfold bind at 1. rewrite assign_run.
      unfold bind at 1. rewrite assign_run.
      unfold bind at 1. rewrite assign_run.
      unfold bind at 1. unfold print, emit at 1. cbv beta iota.
      rewrite run_model_run. eexists _, _, _.
      rewrite <- app_assoc. split; [reflexivity|]. by destruct st.
    + rewrite test_model_on, run_model_run. eexists _, _, _.
      rewrite <- app_assoc. split; [reflexivity|]. by destruct st.
Qed.

Lemma entered_app tr1 tr2 : entered (tr1 ++ tr2) = entered tr1 ++ entered tr2.
Proof. unfold entered. apply omap_app. Qed.

Lemma session_run calls (st0 : option State) tr :
  (st0 = None ∨ ∃ st, st0 = Some st ∧ built st) →
  ∃ log,
    (session run_model calls st0 tr).2 = tr ++ log ∧
    List.map (λ st, (st_exec_mode st, st_out_type st)) (entered log) =
      List.map mode_of calls ∧
    Forall (λ st, built st) (entered log).
Proof.
  revert st0 tr. induction calls as [|c calls IH]; intros st0 tr Hst0.
  - exists []. simpl. by rewrite app_nil_r.
  - destruct (enter_run c st0 tr Hst0)
      as (o' & st & st' & Hrun & Hbuilt & Hbuilt' & Hmode).
    cbn [session]. rewrite Hrun.
    edestruct (IH (Some st')) as (log & Hlog & Hmodes & Hall);
      [right; by exists st'|].
    rewrite Hlog.
    eexists. rewrite <- app_assoc. split; [reflexivity|].
    cbn [app entered omap list_omap]. fold (entered log).
    split.
    + cbn [List.map]. by rewrite Hmode, Hmodes.
    + by constructor.
Qed.

(** X17: when the network, the optimizer and the loss can be built, every
    call of [train_model] or [test_model] on an object enters [_run_model],
    in whatever order the calls come and however the calls before ended,
    and enters it with exactly one network, one optimizer and a loss in
    the state: [test_model] after another call builds no second network,
    and [train_model] starts from a new state. The mode and the output
    type at the entry are [TRAIN] and [NONE] for [train_model], [TEST] and
    [RECONSTRUCTION] for [test_model]. *)
Theorem run_model_is_entered_with_one_model calls :
  let log := (session run_model calls None []).2 in
  length (entered log) = length calls ∧
  List.map (λ st, (st_exec_mode st, st_out_type st)) (entered log) =
    List.map mode_of calls ∧
  Forall (λ st, st_autoenc st = [mdl] ∧ st_autoenc_opt st = [o] ∧
                st_loss st = Some l) (entered log).
Proof.
  intros log.
  destruct (session_run calls None [] (or_introl eq_refl))
    as (log' & Hlog & Hmodes & Hall).
  subst log. rewrite Hlog. cbn [app]. split_and!; [|done..].
  by rewrite <- (List.length_map (λ st, (st_exec_mode st, st_out_type st))),
    Hmodes, List.length_map.
Qed.
End Built.

(** X18: when the network can be built and its optimizer cannot,
    [test_model] on a new object raises and leaves a state that holds the
    network and no optimizer. A second call of [test_model] finds a state,
    builds nothing, and enters [_run_model] with the list of optimizers
    empty and no loss; a call of [train_model] starts again from a new
    state and raises as the first call did, without entering
    [_run_model]. *)
Theorem failed_test_model_is_not_repaired mdl e :
  build_model = inr mdl → build_optimizer mdl = inl e →
  ∃ st,
    test_model run_model None [] = (Raised e, Some st, []) ∧
    st_autoenc st = [mdl] ∧ st_autoenc_opt st = [] ∧
    (∃ st',
       entered (test_model run_model (Some st) []).2 = [st'] ∧
       st_autoenc st' = [mdl] ∧ st_autoenc_opt st' = [] ∧
       st_loss st' = None) ∧
    (train_model run_model (Some st) []).1.1 = Raised e ∧
    entered (train_model run_model (Some st) []).2 = [].
Proof.
  intros Hmodel Hopt.
  assert (Hcreate : ∀ mode tr,
    _create_model (Some (State_init mode)) tr =
      (Raised e, Some (set_autoenc [mdl] (State_init mode)), tr)).
  { intros mode tr. rewrite create_model_run, Hmodel. cbv zeta.
    by rewrite Hopt. }
  eexists. split_and!.
  - unfold test_model. unfold bind at 1. unfold get_store at 1.
    cbv beta iota. unfold bind at 1. unfold bind at 1.
    unfold put_store at 1. cbv beta iota. rewrite Hcreate. reflexivity.
  - done.
  - done.
  - rewrite test_model_on, run_model_run. cbn [snd app].
    eexists. split; [reflexivity|]. done.
  - unfold train_model. unfold bind at 1. unfold put_store at 1.
    cbv beta iota. unfold bind at 1. by rewrite Hcreate.
  - unfold train_model. unfold bind at 1. unfold put_store at 1.
    cbv beta iota. unfold bind at 1. by rewrite Hcreate.
Qed.
End LifecycleFacts.

Lemma run_model_is_entered_with_one_model_witness :
  let log := (session (H := demo_torch false) demo_run_model
                [CallTest; CallTrain; CallTest; CallTest] None []).2 in
  length (entered log) = 4 ∧
  List.map (λ st : @State (demo_torch false),
              (st_exec_mode st, st_out_type st)) (entered log) =
    [(TEST, Some RECONSTRUCTION); (TRAIN, Some NONE);
     (TEST, Some RECONSTRUCTION); (TEST, Some RECONSTRUCTION)] ∧
  Forall (λ st : @State (demo_torch false),
            st_autoenc st = [7] ∧ st_autoenc_opt st = [8] ∧
            st_loss st = Some 0) (entered log).
Proof.
  apply (run_model_is_entered_with_one_model (H := demo_torch false)
           demo_run_model 7 8 0 eq_refl eq_refl eq_refl
           [CallTest; CallTrain; CallTest; CallTest]).
Defined.

Lemma failed_test_model_is_not_repaired_witness :
  ∃ st : @State (demo_torch true),
    test_model (H := demo_torch true) (λ _, (None, None)) None [] =
      (Raised (OtherError "optimizer"), Some st, []) ∧
    st_autoenc st = [7] ∧ st_autoenc_opt st = [] ∧
    (∃ st' : @State (demo_torch true),
       entered (test_model (H := demo_torch true) (λ _, (None, None))
                  (Some st) []).2 = [st'] ∧
       st_autoenc st' = [7] ∧ st_autoenc_opt st' = [] ∧
       st_loss st' = None) ∧
    (train_model (H := demo_torch true) (λ _, (None, None))
       (Some st) []).1.1 = Raised (OtherError "optimizer") ∧
    entered (train_model (H := demo_torch true) (λ _, (None, None))
               (Some st) []).2 = [].
Proof.
  apply (failed_test_model_is_not_repaired (H := demo_torch true)
           (λ _, (None, None)) 7 (OtherError "optimizer"));
    reflexivity.
Defined.

(** ** The prediction folder over a session *)

Section LifecycleModes.
Context `{Torch}.
Variable run_model : State → option queue * option exn.
Implicit Types (st : State) (tr : list life_event).


End LifecycleModes.

Section FolderOverASession.
Context `{Collaborators} `{Torch}.
Variable run_model : State → option queue * option exn.

End FolderOverASession.


(** ** The generators *)

Section GeneratorFacts.
Context {shape gen_conf generator : Type}.
Variable enabled : gen_conf → exn + bool.
Variable Generator : shape → gen_conf → exn + generator.

(** X19: when [_instantiate_generators] returns, the configuration held
    the entries [train] and [test], and the dict it returns follows their
    switches: with [train] enabled it holds the generators built from the
    entries [train] and [valid], the latter whatever its own switch says,
    and otherwise neither; with [test] enabled it holds the generator
    built from the entry [test], and otherwise none; it holds nothing
    under any other key. *)
Theorem generators_follow_the_switches input_shape generators store tr gen
    store' tr' :
  _instantiate_generators enabled Generator input_shape generators store tr
    = (Normal gen, store', tr') →
  store' = gen ∧ tr' = tr ∧
  ∃ shp conf train test (on_train on_test : bool),
    input_shape = inr shp ∧ generators = inr conf ∧
    conf !! "train" = Some train ∧ conf !! "test" = Some test ∧
    enabled train = inr on_train ∧ enabled test = inr on_test ∧
    (if on_train then
       ∃ valid g1 g2,
         conf !! "valid" = Some valid ∧
         Generator shp train = inr g1 ∧ Generator shp valid = inr g2 ∧
         gen !! "train" = Some g1 ∧ gen !! "valid" = Some g2
     else gen !! "train" = None ∧ gen !! "valid" = None) ∧
    (if on_test then
       ∃ g, Generator shp test = inr g ∧ gen !! "test" = Some g
     else gen !! "test" = None) ∧
    (∀ k, k ≠ "train" → k ≠ "valid" → k ≠ "test" → gen !! k = None).
Proof.
  unfold _instantiate_generators, set_gen, dict_item.
  unfold bind, lift, ret, raise, get_store, put_store.
  destruct input_shape as [e|shp]; [done|].
  destruct generators as [e|conf]; [done|]. cbv beta iota.
  destruct (conf !! "train") as [train|] eqn:Htrain; [|done]. cbv beta iota.
  destruct (enabled train) as [e|on_train] eqn:Hon; [done|]. cbv beta iota.
  destruct on_train.
  - destruct (Generator shp train) as [e|g1] eqn:Hg1; [done|].
    cbv beta iota.
    destruct (conf !! "valid") as [valid|] eqn:Hvalid; [|done].
    cbv beta iota.
    destruct (Generator shp valid) as [e|g2] eqn:Hg2; [done|].
    cbv beta iota.
    destruct (conf !! "test") as [test|] eqn:Htest; [|done]. cbv beta iota.
    destruct (enabled test) as [e|on_test] eqn:Hon'; [done|]. cbv beta iota.
    destruct on_test.
    + destruct (Generator shp test) as [e|g3] eqn:Hg3; [done|].
      cbv beta iota. intros [= <- <- <-]. split_and!; [done..|].
      exists shp, conf, train, test, true, true.
      split; [done|]. split; [done|]. split; [done|]. split; [done|].
      split; [done|]. split; [done|]. split_and!.
      * exists valid, g1, g2.
        split; [done|]. split; [done|]. split; [done|]. split.
        -- rewrite lookup_insert_ne by done.
           rewrite lookup_insert_ne by done. apply lookup_insert_eq.
        -- rewrite lookup_insert_ne by done. apply lookup_insert_eq.
      * exists g3. split; [done|]. apply lookup_insert_eq.
      * intros k ? ? ?. by rewrite !lookup_insert_ne, lookup_empty.
    + intros [= <- <- <-]. split_and!; [done..|].
      exists shp, conf, train, test, true, false.
      split; [done|]. split; [done|]. split; [done|]. split; [done|].
      split; [done|]. split; [done|]. split_and!.
      * exists valid, g1, g2.
        split; [done|]. split; [done|]. split; [done|]. split.
        -- rewrite lookup_insert_ne by done. apply lookup_insert_eq.
        -- apply lookup_insert_eq.
      * by rewrite !lookup_insert_ne, lookup_empty.
      * intros k ? ? ?. by rewrite !lookup_insert_ne, lookup_empty.
  - destruct (conf !! "test") as [test|] eqn:Htest; [|done]. cbv beta iota.
    destruct (enabled test) as [e|on_test] eqn:Hon'; [done|]. cbv beta iota.
    destruct on_test.
    + destruct (Generator shp test) as [e|g3] eqn:Hg3; [done|].
      cbv beta iota. intros [= <- <- <-]. split_and!; [done..|].
      exists shp, conf, train, test, false, true.
      split; [done|]. split; [done|]. split; [done|]. split; [done|].
      split; [done|]. split; [done|]. split_and!.
      * by rewrite lookup_insert_ne, lookup_empty.
      * by rewrite lookup_insert_ne, lookup_empty.
      * exists g3. split; [done|]. apply lookup_insert_eq.
      * intros k ? ? ?. by rewrite !lookup_insert_ne, lookup_empty.
    + intros [= <- <- <-]. split_and!; [done..|].
      exists shp, conf, train, test, false, false.
      split; [done|]. split; [done|]. split; [done|]. split; [done|].
      split; [done|]. split; [done|]. split_and!; try done.
Qed.
End GeneratorFacts.

Lemma generators_follow_the_switches_witness :
  let enabled := λ c : nat, inr (bool_decide (c ≠ 0)) : exn + bool in
  let Generator := λ shp c : nat, inr (shp + c) : exn + nat in
  let conf : gmap string nat :=
    <["train" := 1]> (<["valid" := 0]> (<["test" := 0]> ∅)) in
  let gen : gmap string nat := <["valid" := 5]> (<["train" := 6]> ∅) in
  gen = gen ∧ @nil unit = [] ∧
  ∃ shp conf' train test (on_train on_test : bool),
    (inr 5 : exn + nat) = inr shp ∧
    (inr conf : exn + gmap string nat) = inr conf' ∧
    conf' !! "train" = Some train ∧ conf' !! "test" = Some test ∧
    enabled train = inr on_train ∧ enabled test = inr on_test ∧
    (if on_train then
       ∃ valid g1 g2,
         conf' !! "valid" = Some valid ∧
         Generator shp train = inr g1 ∧ Generator shp valid = inr g2 ∧
         gen !! "train" = Some g1 ∧ gen !! "valid" = Some g2
     else gen !! "train" = None ∧ gen !! "valid" = None) ∧
    (if on_test then
       ∃ g, Generator shp test = inr g ∧ gen !! "test" = Some g
     else gen !! "test" = None) ∧
    (∀ k, k ≠ "train" → k ≠ "valid" → k ≠ "test" → gen !! k = None).
Proof.
  intros enabled Generator conf gen.
  apply (generators_follow_the_switches enabled Generator (inr 5) (inr conf)
           ∅ [] gen gen []).
  vm_compute. reflexivity.
Defined.

(** ** A listing that does not match the tables *)

Section ListingMismatch.
Context `{Collaborators}.
Variables (n l : nat) (sizes metrics : list (list (list float))).
Variables (img_paths : list (list string)) (folder : list string).
Hypotheses (Hk : 0 < length Codecs) (Hm : 0 < length Metrics)
  (Hn : 0 < n) (Hl : 0 < l).
Hypotheses
  (Hsizes : regular_table (length Codecs) n l sizes)
  (Hmetrics : regular_table (length Codecs * length Metrics) n l metrics)
  (Hpaths : length img_paths ≠ n).

(** The frame of a report cannot be built when the listing has not one
    path per row. *)
Lemma save_csv_other_length data path :
  nd_shape data = [n; l + length Metrics * l] →
  save_csv data path img_paths l = inl ValueError.
Proof.
  intros Hshape. unfold save_csv, DataFrame. rewrite Hshape.
  destruct (decide _) as [[Heq _]|_]; [|done]. by destruct Hpaths.
Qed.

(** X20: called with a listing whose length is not the number of cells of
    the lists, on tables that are fully written, the report builder goes
    through all its array operations and then raises [ValueError] at the
    frame of the first codec: no report is written, for any codec. *)
Theorem report_rejects_a_listing_of_another_length :
  _save_out_analysis img_paths (Some folder) (float_cells sizes)
    {| mt_rows := length Codecs; mt_cols := length Metrics;
       mt_lists := float_cells metrics |} tt [] =
    (Raised ValueError, tt, []).
Proof.
  unfold _save_out_analysis.
  rewrite csv_paths_resolved, bind_lift_inr.
  rewrite (np_array_float_table (length Codecs) n l) by done.
  rewrite bind_lift_inr. cbn [mt_lists mt_rows mt_cols].
  rewrite (np_array_float_table (length Codecs * length Metrics) n l)
    by (done || nia).
  rewrite bind_lift_inr.
  rewrite (nd_len_first_3d n l sizes metrics), bind_lift_inr by done.
  rewrite (metrics_reshaped n l), bind_lift_inr by done.
  rewrite (metrics_swapped n l), bind_lift_inr by done. cbn [nd_shape].
  rewrite (metrics_flattened n l) by (done || by apply length_metric_rows).
  rewrite bind_lift_inr.
  rewrite (sizes_and_metrics_concatenated n l), bind_lift_inr by done.
  rewrite (data_iterated n l sizes metrics), bind_lift_inr by done.
  cbn [nd_shape List.last].
  destruct Codecs as [|s cs]; [simpl in Hk; lia|].
  cbn [length seq List.map zip zip_with for_each].
  apply bind_raised. apply bind_raised.
  by rewrite save_csv_other_length.
Qed.
End ListingMismatch.

Lemma report_rejects_a_listing_of_another_length_witness :
  _save_out_analysis (H := demo ["net"] true)
    [["d"; "a.png"]; ["d"; "b.png"]; ["d"; "c.png"]] (Some ["out"; "test"])
    (float_cells [[[1%float]; [2%float]]])
    {| mt_rows := 1; mt_cols := 2;
       mt_lists := float_cells [[[30%float]; [31%float]];
                                [[0.5%float]; [0.25%float]]] |} tt [] =
    (Raised ValueError, tt, []).
Proof.
  apply (report_rejects_a_listing_of_another_length (H := demo ["net"] true)
           2 1 [[[1%float]; [2%float]]]
           [[[30%float]; [31%float]]; [[0.5%float]; [0.25%float]]]
           [["d"; "a.png"]; ["d"; "b.png"]; ["d"; "c.png"]]
           ["out"; "test"]).
  - simpl. lia.
  - simpl. lia.
  - lia.
  - lia.
  - split; [reflexivity|]. repeat constructor.
  - split; [reflexivity|]. repeat constructor.
  - simpl. lia.
Defined.

(** ** The files that the jobs write *)

Section SavedFiles.
Context `{Collaborators}.
Implicit Types (lists : metric_lists) (bpp_proxy : nat → list pyval).

Lemma artifacts_are_saves (log : list event) p :
  p ∈ artifacts log → EvSaveImg p true ∈ log.
Proof.
  unfold artifacts. induction log as [|ev log IH]; intros Hp.
  { by apply elem_of_nil in Hp. }
  cbn in Hp. destruct ev as [| | | | |q [|]|];
    try (apply elem_of_cons; right; by apply IH).
  apply elem_of_cons in Hp as [->|Hp]; apply elem_of_cons; [by left|].
  right. by apply IH.
Qed.

(** The only file that a job writes is the one named after the stem of
    its image, in the folder it was given. *)
Lemma job_artifact fuel orig_path save_folder patches bpp_proxy pos color
    lists p :
  p ∈ artifacts (_save_imgs_from_patches fuel orig_path save_folder patches
                   bpp_proxy pos color lists []).2 →
  ∃ folder, save_folder = Some folder ∧
            p = path_div folder (path_stem orig_path +:+ ".png").
Proof.
  intros Hp%artifacts_are_saves.
  destruct (job_has_shape fuel orig_path save_folder patches bpp_proxy pos
              color lists) as (o & l & log & Hrun & Hshape).
  rewrite Hrun in Hp. cbn [snd] in Hp.
  destruct (job_shape_save_after_check _ _ _ _ _ _ _ Hshape Hp)
    as (_ & _ & _ & folder & _ & _ & -> & ->).
  by exists folder.
Qed.

(** X21: a job writes no file but the one named after the stem of its
    image, with the extension [.png], in the folder it was given. Two
    images with the same stem, whatever their folders and their
    extensions, are therefore saved under one and the same name in a run:
    any file written by the job of one is the file written by the job of
    the other. *)
Theorem images_with_one_stem_share_a_file fuel1 fuel2 path1 path2
    save_folder patches1 patches2 bpp1 bpp2 pos1 pos2 color lists1 lists2
    p1 p2 :
  path_stem path1 = path_stem path2 →
  p1 ∈ artifacts (_save_imgs_from_patches fuel1 path1 save_folder patches1
                    bpp1 pos1 color lists1 []).2 →
  p2 ∈ artifacts (_save_imgs_from_patches fuel2 path2 save_folder patches2
                    bpp2 pos2 color lists2 []).2 →
  p1 = p2 ∧
  ∃ folder, save_folder = Some folder ∧
            p1 = path_div folder (path_stem path1 +:+ ".png").
Proof.
  intros Hstem Hp1 Hp2.
  apply job_artifact in Hp1 as (folder & Hfolder & ->).
  apply job_artifact in Hp2 as (folder' & Hfolder' & ->).
  rewrite Hfolder in Hfolder'. injection Hfolder' as <-.
  split; [by rewrite Hstem|]. by exists folder.
Qed.
End SavedFiles.

Lemma images_with_one_stem_share_a_file_witness :
  ["out"; "test"; "kodim01.png"] = ["out"; "test"; "kodim01.png"] ∧
  ∃ folder, Some ["out"; "test"] = Some folder ∧
            ["out"; "test"; "kodim01.png"] =
              path_div folder (path_stem ["cats"; "kodim01.bmp"] +:+ ".png").
Proof.
  apply (images_with_one_stem_share_a_file (H := demo ["net"] true) 2 2
           ["cats"; "kodim01.bmp"] ["dogs"; "kodim01.jpg"]
           (Some ["out"; "test"]) 3 4 (λ _, [PyList [PyFloat 1]; PyNone])
           (λ _, [PyNone; PyList [PyFloat 2]]) 0 1 "RGB"
           [[PyNone; PyNone]; [PyNone; PyNone]]
           [[PyNone; PyNone]; [PyNone; PyNone]]
           ["out"; "test"; "kodim01.png"] ["out"; "test"; "kodim01.png"]).
  - reflexivity.
  - vm_compute. apply list_elem_of_here.
  - vm_compute. apply list_elem_of_here.
Defined.

(** ** Two objects with one configuration *)

(** X22: two objects constructed one after the other from the same
    [out_folder] get two different folders: the second finds the folder
    of the first taken, whatever else was created in between. *)
Theorem two_runs_get_two_folders fuel1 fuel2 out_folder fs fs1 fs2 fs'
    out1 out2 :
  [] ∈ fs →
  AutoEnc_init fuel1 out_folder fs = Some (out1, fs1) →
  (∀ p, p ∈ fs1 → p ∈ fs') →
  AutoEnc_init fuel2 out_folder fs' = Some (out2, fs2) →
  out1 ≠ out2 ∧ out1 ∈ fs2 ∧ out2 ∈ fs2.
Proof.
  unfold AutoEnc_init. cbv zeta. intros Hcwd Hfirst Hkept Hsecond.
  destruct (find_free_out fuel1 out_folder fs (Path_of_str out_folder) 0)
    as [res1|] eqn:Hloop1; [|done].
  destruct (find_free_out fuel2 out_folder fs' (Path_of_str out_folder) 0)
    as [res2|] eqn:Hloop2; [|done].
  simpl in Hfirst, Hsecond.
  injection Hfirst as <- <-. injection Hsecond as <- <-.
  destruct (find_free_out_spec _ _ _ _ _ _ Hloop1) as [Hfree1 _].
  destruct (find_free_out_spec _ _ _ _ _ _ Hloop2) as [Hfree2 _].
  assert (Hne1 : res1 ≠ []) by (by intros ->).
  assert (Hne2 : res2 ≠ []).
  { intros ->. apply Hfree2, Hkept. unfold mkdir_parents.
    apply elem_of_app. by left. }
  assert (Hin1 : res1 ∈ fs') by (by apply Hkept, mkdir_parents_creates).
  split_and!.
  - by intros ->.
  - unfold mkdir_parents. apply elem_of_app. by left.
  - by apply mkdir_parents_creates.
Qed.

Lemma two_runs_get_two_folders_witness :
  ["out"] ≠ ["out_0"] ∧
  ["out"] ∈ mkdir_parents ["out_0"] (mkdir_parents ["out"] [[]]) ∧
  ["out_0"] ∈ mkdir_parents ["out_0"] (mkdir_parents ["out"] [[]]).
Proof.
  apply (two_runs_get_two_folders 3 3 "out" [[]] (mkdir_parents ["out"] [[]])
           (mkdir_parents ["out_0"] (mkdir_parents ["out"] [[]]))
           (mkdir_parents ["out"] [[]]) ["out"] ["out_0"]).
  - apply list_elem_of_here.
  - reflexivity.
  - done.
  - reflexivity.
Defined.

(** ** What a job changes, and how long it waits *)

Section JobFootprint.
Context `{Collaborators}.
Implicit Types (lists : metric_lists) (bpp_proxy : nat → list pyval).

(** The metric lists at the end of a job are those that its metric loop
    left, or those it found when the image could not be loaded. *)
Lemma job_store fuel orig_path save_folder patches bpp_proxy pos color
    lists :
  (_save_imgs_from_patches fuel orig_path save_folder patches bpp_proxy pos
     color lists []).1.2 = lists ∨
  ∃ orig_ref,
    (_save_imgs_from_patches fuel orig_path save_folder patches bpp_proxy
       pos color lists []).1.2 =
    (for_each Metrics (score_metric orig_ref patches pos) lists
       [EvLoadImage orig_path]).1.2.
Proof.
  rewrite save_imgs_from_patches_run, save_imgs_try_block_run.
  destruct (load_image orig_path color) as [e|orig_ref]; [by left|].
  right. exists orig_ref. cbn [app].
  destruct (for_each Metrics _ lists _) as [[[[]|e| |] l1] t1]; try done.
  destruct (wait_bpp_anatomy fuel bpp_proxy orig_path pos 0 0 l1 t1)
    as (o & vs & tail & -> & _ & Hend); [lia|].
  destruct Hend as [(-> & _)|[(-> & _)|(v & -> & _)]]; try done.
  destruct save_folder as [folder|]; [|done]. cbv zeta.
  by destruct (save_img patches _ color).
Qed.

(** X23: a job touches no cell but those of its own image index in the
    lists of its metrics. However it ends, and if it never ends, the
    metric lists keep their lengths, every cell at another index is as the
    job found it, and so is every cell of a list that is the list of no
    metric. *)
Theorem job_touches_only_its_own_cells fuel orig_path save_folder patches
    bpp_proxy pos color lists :
  let lists' :=
    (_save_imgs_from_patches fuel orig_path save_folder patches bpp_proxy
       pos color lists []).1.2 in
  List.map length lists' = List.map length lists ∧
  (∀ i j, j ≠ pos → cell lists' i j = cell lists i j) ∧
  (∀ i j, (∀ m, m ∈ Metrics → metric_pos m ≠ i) →
          cell lists' i j = cell lists i j).
Proof.
  intros lists'. subst lists'.
  destruct (job_store fuel orig_path save_folder patches bpp_proxy pos color
              lists) as [->|[orig_ref ->]]; [done|].
  destruct (score_loop_spec orig_ref patches pos Metrics lists
              [EvLoadImage orig_path])
    as (o & l1 & done & rest & -> & Hms & _ & _ & Hshape & Hby & _).
  cbn [fst snd]. split_and!.
  - exact Hshape.
  - intros i j Hj. by destruct (Hby i j) as [?|[? _]].
  - intros i j Hi.
    destruct (Hby i j) as [?|(_ & m & v & Hm & Hpos & _)]; [done|].
    destruct (Hi m); [|done]. rewrite Hms. apply elem_of_app. by left.
Qed.

Lemma sleeps_of_poll_events pos vs :
  List.filter is_sleep (poll_events pos vs) = replicate (length vs) (EvSleep 1).
Proof. induction vs as [|v vs IH]; simpl; [done|]. by rewrite IH. Qed.

Lemma checks_of_poll_events pos vs :
  List.filter is_check_bpp (poll_events pos vs) = List.map (EvCheckBpp pos) vs.
Proof. induction vs as [|v vs IH]; simpl; [done|]. by rewrite IH. Qed.

(** X24: a job sleeps once, for one second, after each check that finds
    the size-proxy cell empty, and at no other time. When the image loads
    and the metrics are stored, and the cell is first found written at the
    check [n], the job has slept exactly [n] times and has looked at the
    cell [n + 1] times, the last time finding the value. *)
Theorem job_sleeps_once_per_empty_check fuel orig_path save_folder patches
    bpp_proxy pos color lists orig_ref n v :
  load_image orig_path color = inr orig_ref →
  Forall (λ m, ∃ w cells,
            calc_metric orig_ref patches m = inr w ∧
            lists !! metric_pos m = Some cells ∧ pos < length cells)
         Metrics →
  (∀ k, k < n → ∃ w, bpp_proxy k !! pos = Some w ∧ py_truth w = false) →
  bpp_proxy n !! pos = Some v → py_truth v = true → n < fuel →
  let log := (_save_imgs_from_patches fuel orig_path save_folder patches
                bpp_proxy pos color lists []).2 in
  List.filter is_sleep log = replicate n (EvSleep 1) ∧
  List.filter is_check_bpp log =
    List.map (EvCheckBpp pos) (List.map (observed bpp_proxy pos) (seq 0 n))
      ++ [EvCheckBpp pos v].
Proof.
  intros Hload Hmetrics Hbefore Hv Ht Hn log. subst log.
  rewrite save_imgs_from_patches_run, save_imgs_try_block_run, Hload.
  destruct (score_loop_succeeds orig_ref patches pos Metrics lists
              ([] ++ [EvLoadImage orig_path])) as (l1 & -> & _).
  { by apply Forall_forall. }
  rewrite (wait_bpp_written fuel bpp_proxy orig_path pos 0 n l1 _ v);
    [|intros k Hk; apply Hbefore; lia|done..].
  assert (Hcount : ∀ tail,
    List.filter is_sleep tail = [] →
    List.filter is_check_bpp tail = [] →
    let log := [] ++ [EvLoadImage orig_path]
                 ++ set_events orig_ref patches pos Metrics
                 ++ poll_events pos
                      (List.map (observed bpp_proxy pos) (seq 0 n))
                 ++ [EvCheckBpp pos v] ++ tail in
    List.filter is_sleep log = replicate n (EvSleep 1) ∧
    List.filter is_check_bpp log =
      List.map (EvCheckBpp pos)
        (List.map (observed bpp_proxy pos) (seq 0 n))
        ++ [EvCheckBpp pos v]).
  { intros tail Hs Hc log. subst log. rewrite !List.filter_app.
    rewrite sets_sleep_nothing, sets_check_nothing, Hs, Hc.
    rewrite sleeps_of_poll_events, checks_of_poll_events.
    rewrite List.length_map, length_seq. simpl.
    by rewrite !app_nil_r. }
  destruct save_folder as [folder|]; cbv zeta.
  - destruct (save_img patches _ color) as [e|]; cbn [fst snd];
      rewrite <- !app_assoc.
    + by apply (Hcount ([_] ++ [_])).
    + by apply (Hcount [_]).
  - cbn [fst snd]. rewrite <- !app_assoc. by apply (Hcount [_]).
Qed.
End JobFootprint.

Lemma job_sleeps_once_per_empty_check_witness :
  let bpp := λ n, if decide (n < 2) then [PyNone] else [PyList [PyFloat 1]] in
  let log := (_save_imgs_from_patches (H := demo ["net"] true) 5
                ["data"; "kodim01.bmp"] (Some ["out"; "test"]) 3 bpp
                0 "RGB" [[PyNone]; [PyNone]] []).2 in
  List.filter is_sleep log = replicate 2 (EvSleep 1) ∧
  List.filter is_check_bpp log =
    List.map (EvCheckBpp 0) (List.map (observed bpp 0) (seq 0 2))
      ++ [EvCheckBpp 0 (PyList [PyFloat 1])].
Proof.
  intros bpp.
  apply (job_sleeps_once_per_empty_check (H := demo ["net"] true) 5
           ["data"; "kodim01.bmp"] (Some ["out"; "test"]) 3 bpp
           0 "RGB" [[PyNone]; [PyNone]] ["data"; "kodim01.bmp"] 2
           (PyList [PyFloat 1])).
  - reflexivity.
  - repeat constructor; eexists _, _; split_and!;
      [reflexivity|reflexivity|simpl; lia|reflexivity|reflexivity|simpl; lia].
  - intros k Hk. exists PyNone. split; [|reflexivity].
    unfold bpp. destruct (decide (k < 2)); [reflexivity|lia].
  - reflexivity.
  - reflexivity.
  - lia.
Defined.
